(** * Verification of the HEX analytics dashboard (goldk3y/oa)

    Shallow embedding of the client-side logic of the three dashboard
    components:

    - [FlushTransactions]: CSV parsing, per-address aggregation and the
      day-bucketed cumulative chart series, the comparator of the table
      and the abbreviation of addresses;
    - [StakesPage]: the client-side stake filter, the sort handler, the sort
      comparator, the page-size input and the ROI computation;
    - [XfLobbyEnters]: normalisation and validation of the address input,
      paging, the page-size input and the total of a page.

    Modelling choices:

    - JavaScript strings are Rocq strings whose characters are the code
      units 0..255 (Latin-1);
    - JavaScript numbers are IEEE-754 binary64 values, given by the
      executable specification [SpecFloat] of the standard library
      (precision 53, emax 1024), with round to nearest, ties to even;
    - a [Date] is its time value, an integer number of milliseconds or the
      invalid date; how [new Date(s)] reads a string is left to the engine
      and is a parameter of the pipeline;
    - plain objects used as dictionaries are finite maps over their own
      string keys; where the code reads or writes a key that names a member
      of [Object.prototype], the inherited member is taken into account;
    - an exception thrown in a callback is the result [None];
    - a [BigInt] is an integer; [localeCompare], whose result depends on the
      locale of the engine, is a parameter of the sort comparator. *)

From Stdlib Require Import ZArith List Bool Ascii String Lia.
From Stdlib Require Import Floats.SpecFloat.
From stdpp Require Import gmap strings list fin_maps sorting.

Local Open Scope string_scope.
Local Open Scope Z_scope.

(* ===================================================================== *)
(** * Part I: definitions                                                 *)
(* ===================================================================== *)

(** ** JavaScript string primitives used by the components *)
Module JsString.

Definition code (c : ascii) : Z := Z.of_N (N_of_ascii c).

(** [WhiteSpace] and [LineTerminator] code units below 256: TAB, LF, VT,
    FF, CR, SP and NBSP. *)
Definition isWhiteSpace (c : ascii) : bool :=
  let n := code c in
  ((9 <=? n) && (n <=? 13)) || (n =? 32) || (n =? 160).

Definition isDigit (c : ascii) : bool :=
  let n := code c in (48 <=? n) && (n <=? 57).

(** [String.prototype.trim] *)
Fixpoint trimStart (s : string) : string :=
  match s with
  | String c s' => if isWhiteSpace c then trimStart s' else s
  | EmptyString => EmptyString
  end.

Fixpoint trimEnd (s : string) : string :=
  match s with
  | EmptyString => EmptyString
  | String c s' =>
      match trimEnd s' with
      | EmptyString => if isWhiteSpace c then EmptyString else String c EmptyString
      | t => String c t
      end
  end.

Definition trim (s : string) : string := trimEnd (trimStart s).

(** [String.prototype.toLowerCase] on Latin-1: A..Z and the upper-case
    letters U+00C0..U+00DE (without the multiplication sign U+00D7) move
    up by 32; every other code unit is unchanged. *)
Definition lowerChar (c : ascii) : ascii :=
  let n := code c in
  if ((65 <=? n) && (n <=? 90))
     || ((192 <=? n) && (n <=? 222) && negb (n =? 215))
  then ascii_of_N (Z.to_N (n + 32))
  else c.

Fixpoint toLowerCase (s : string) : string :=
  match s with
  | EmptyString => EmptyString
  | String c s' => String (lowerChar c) (toLowerCase s')
  end.

(** [s.split(sep)] for a one-character separator: never empty, the empty
    string gives one empty field. *)
Fixpoint split (sep : ascii) (s : string) : list string :=
  match s with
  | EmptyString => [EmptyString]
  | String c s' =>
      if Ascii.eqb c sep then EmptyString :: split sep s'
      else match split sep s' with
           | h :: t => String c h :: t
           | [] => [String c EmptyString]
           end
  end.

(** The double quote, code unit 34. *)
Definition dquote : ascii := ascii_of_N 34.

(** [s.replace(/\x22/g, '')]: every double quote is removed. *)
Fixpoint stripQuotes (s : string) : string :=
  match s with
  | EmptyString => EmptyString
  | String c s' =>
      if Ascii.eqb c dquote then stripQuotes s' else String c (stripQuotes s')
  end.

Fixpoint dropDigits (s : string) : string :=
  match s with
  | String c s' => if isDigit c then dropDigits s' else s
  | EmptyString => EmptyString
  end.

(** [line.replace(/^\d+\|/, '')]: a non-empty run of digits followed by a
    pipe is removed from the front of the line. *)
Definition stripLinePrefix (line : string) : string :=
  match line with
  | String c _ =>
      if isDigit c then
        match dropDigits line with
        | String "|"%char rest => rest
        | _ => line
        end
      else line
  | EmptyString => line
  end.

(** [s.startsWith(p)] *)
Fixpoint startsWith (p s : string) : bool :=
  match p, s with
  | EmptyString, _ => true
  | String a p', String b s' => Ascii.eqb a b && startsWith p' s'
  | String _ _, EmptyString => false
  end.

(** [s.includes(p)] *)
Fixpoint includes (p s : string) : bool :=
  startsWith p s ||
  match s with
  | EmptyString => false
  | String _ s' => includes p s'
  end.

(** JavaScript strings are truthy when non-empty. *)
Definition truthy (s : string) : bool :=
  match s with EmptyString => false | _ => true end.

(** A string is headed when it is empty or starts with a character that is
    not white space: the shape of every result of [trimStart]. *)
Definition headed (s : string) : Prop :=
  match s with
  | EmptyString => True
  | String c _ => isWhiteSpace c = false
  end.

(** The character [c] occurs in [s]. *)
Fixpoint occurs (c : ascii) (s : string) : Prop :=
  match s with
  | EmptyString => False
  | String a s' => a = c ∨ occurs c s'
  end.

(** [s.slice(start, end)] for integral arguments; [None] is an omitted
    [end].  A negative index counts from the end of the string. *)
Definition slice (s : string) (start : Z) (end_ : option Z) : string :=
  let len := Z.of_nat (String.length s) in
  let from := if start <? 0 then Z.max (len + start) 0 else Z.min start len in
  let to_ :=
    match end_ with
    | None => len
    | Some e => if e <? 0 then Z.max (len + e) 0 else Z.min e len
    end in
  String.substring (Z.to_nat from) (Z.to_nat (Z.max (to_ - from) 0)) s.

(** The line feed, code unit 10. *)
Definition lf : ascii := ascii_of_N 10.

End JsString.

(** ** JavaScript numbers: IEEE-754 binary64 *)
Module JsNumber.

Definition prec : Z := 53.
Definition emax : Z := 1024.

Abbreviation number := spec_float.

Definition zero : number := S754_zero false.
Definition NaN : number := S754_nan.

Definition add (x y : number) : number := SFadd prec emax x y.
Definition sub (x y : number) : number := SFsub prec emax x y.
Definition mul (x y : number) : number := SFmul prec emax x y.
Definition div (x y : number) : number := SFdiv prec emax x y.

(** [x < y], [x > y], [x <= y]: false as soon as one side is NaN. *)
Definition lt (x y : number) : bool := SFltb x y.
Definition gt (x y : number) : bool := SFltb y x.
Definition le (x y : number) : bool := SFleb x y.

(** The nearest binary64 value of an integer. *)
Definition ofZ (z : Z) : number := binary_normalize prec emax z 0 false.

Definition one : number := ofZ 1.

(** [ToBoolean] on numbers: NaN, +0 and -0 are falsy. *)
Definition truthy (x : number) : bool :=
  match x with
  | S754_nan | S754_zero _ => false
  | _ => true
  end.

(** [x || y] on numbers. *)
Definition orElse (x y : number) : number := if truthy x then x else y.


(** The binary64 value nearest to [(-1)^neg * m * 10^e10], ties to even.
    For a negative decimal exponent the quotient is taken with 1100
    fractional bits, far below the last binary64 digit, and a sticky bit
    records a non-zero remainder, so the rounding sees the exact value. *)
Definition ofDecimal (neg : bool) (m e10 : Z) : number :=
  if m =? 0 then S754_zero neg
  else if 0 <=? e10 then
    binary_normalize prec emax (cond_Zopp neg (m * 10 ^ e10)) 0 false
  else
    let (q, r) := Z.div_eucl (m * 2 ^ 1100) (10 ^ (- e10)) in
    let sticky := if r =? 0 then 0 else 1 in
    binary_normalize prec emax (cond_Zopp neg (2 * q + sticky)) (-1101) false.

Definition digitValue (c : ascii) : Z := JsString.code c - 48.

(** Reads a maximal run of decimal digits: the accumulated value, the
    number of digits read and the rest of the string. *)
Fixpoint readDigits (s : string) (acc : Z) (n : Z) : Z * Z * string :=
  match s with
  | String c s' =>
      if JsString.isDigit c then readDigits s' (10 * acc + digitValue c) (n + 1)
      else (acc, n, s)
  | EmptyString => (acc, n, s)
  end.

(** An optional sign. *)
Definition readSign (s : string) : bool * string :=
  match s with
  | String "-"%char s' => (true, s')
  | String "+"%char s' => (false, s')
  | _ => (false, s)
  end.

(** The optional [ExponentPart]: it counts only when at least one digit
    follows the exponent indicator and its sign. *)
Definition readExponent (s : string) : Z :=
  match s with
  | String c s' =>
      if Ascii.eqb c "e"%char || Ascii.eqb c "E"%char then
        let (eneg, s'') := readSign s' in
        let '(ev, en, _) := readDigits s'' 0 0 in
        if en =? 0 then 0 else cond_Zopp eneg ev
      else 0
  | EmptyString => 0
  end.

(** [parseFloat]: leading white space is skipped, then the longest prefix
    that is a [StrDecimalLiteral] is converted; NaN when there is none. *)
Definition parseFloat (s : string) : number :=
  let (neg, t) := readSign (JsString.trimStart s) in
  if JsString.startsWith "Infinity" t then S754_infinity neg
  else
    let '(iv, inum, t1) := readDigits t 0 0 in
    let '(mv, fnum, t2) :=
      match t1 with
      | String "."%char t1' =>
          let '(v, n, r) := readDigits t1' iv 0 in
          if (inum =? 0) && (n =? 0) then (iv, 0, t1) else (v, n, r)
      | _ => (iv, 0, t1)
      end in
    if (inum =? 0) && (fnum =? 0) then NaN
    else ofDecimal neg mv (readExponent t2 - fnum).

Definition hexDigitValue (c : ascii) : option Z :=
  let n := JsString.code c in
  if (48 <=? n) && (n <=? 57) then Some (n - 48)
  else if (97 <=? n) && (n <=? 102) then Some (n - 87)
  else if (65 <=? n) && (n <=? 70) then Some (n - 55)
  else None.

Fixpoint readHexDigits (s : string) (acc : Z) (n : Z) : Z * Z :=
  match s with
  | String c s' =>
      match hexDigitValue c with
      | Some d => readHexDigits s' (16 * acc + d) (n + 1)
      | None => (acc, n)
      end
  | EmptyString => (acc, n)
  end.

(** [parseInt] without a radix argument: radix 16 after a [0x] or [0X]
    prefix, radix 10 otherwise; NaN when no digit can be read. *)
Definition parseInt (s : string) : number :=
  let (neg, t) := readSign (JsString.trimStart s) in
  let (v, n) :=
    if JsString.startsWith "0x" t || JsString.startsWith "0X" t
    then readHexDigits (String.substring 2 (String.length t - 2) t) 0 0
    else let '(v, n, _) := readDigits t 0 0 in (v, n) in
  if n =? 0 then NaN
  else if v =? 0 then S754_zero neg
  else ofZ (cond_Zopp neg v).

(** *** Classes of numbers used in the statements *)

(** Well-formed binary64 values: a finite number has its canonical mantissa
    and exponent. *)
Definition valid (x : number) : Prop := valid_binary prec emax x = true.

(** The shape of a correctly rounded result of sign [s]. *)
Definition rounded (s : bool) (x : number) : Prop :=
  match x with
  | S754_zero s' | S754_infinity s' => s' = s
  | S754_finite s' m e => s' = s ∧ bounded prec emax m e = true
  | S754_nan => False
  end.

(** Numbers that are not negative: +0, the positive finite numbers and
    +Infinity. *)
Definition nonneg (x : number) : Prop :=
  match x with
  | S754_zero false | S754_infinity false | S754_finite false _ _ => True
  | _ => False
  end.

(** Strictly positive numbers. *)
Definition positive_ (x : number) : Prop :=
  match x with
  | S754_infinity false | S754_finite false _ _ => True
  | _ => False
  end.

(** Valid numbers other than -0. *)
Definition clean (x : number) : Prop := valid x ∧ x ≠ S754_zero true.

(** [Math.max(x, y)] and [Math.min(x, y)] on two arguments: NaN as soon as
    one argument is NaN, and +0 counts as larger than -0. *)
Module Math.

Definition max (x y : number) : number :=
  match x, y with
  | S754_nan, _ | _, S754_nan => NaN
  | S754_zero sx, S754_zero sy => S754_zero (sx && sy)
  | _, _ => if lt x y then y else x
  end.

Definition min (x y : number) : number :=
  match x, y with
  | S754_nan, _ | _, S754_nan => NaN
  | S754_zero sx, S754_zero sy => S754_zero (sx || sy)
  | _, _ => if lt y x then y else x
  end.

End Math.

(** The unary minus. *)
Definition neg (x : number) : number := SFopp x.

(** The canonical exponent and mantissa of a non-zero integer below 2^53
    in absolute value. *)
Definition canonE (z : Z) : Z := Zdigits2 (Z.abs z) - 53.
Definition canonM (z : Z) : positive := Z.to_pos (Z.abs z * 2 ^ (- canonE z)).

End JsNumber.

(** ** JavaScript big integers *)
Module JsBigInt.

(** A run of digits of the given radix that spans the whole string. *)
Fixpoint readRadix (radix : Z) (s : string) (acc : Z) : option Z :=
  match s with
  | EmptyString => Some acc
  | String c s' =>
      match JsNumber.hexDigitValue c with
      | Some d => if d <? radix then readRadix radix s' (radix * acc + d) else None
      | None => None
      end
  end.

(** The same for a non-empty string. *)
Definition digitsIn (radix : Z) (s : string) : option Z :=
  if JsString.truthy s then readRadix radix s 0 else None.

(** [BigInt(s)] for a string: white space is trimmed; the empty string is
    0; then either decimal digits with an optional sign, or digits after
    one of the prefixes [0x], [0o], [0b]; anything else throws a
    SyntaxError ([None]). *)
Definition BigInt (s : string) : option Z :=
  let t := JsString.trim s in
  match t with
  | EmptyString => Some 0
  | String "0"%char (String c r) =>
      if Ascii.eqb c "x"%char || Ascii.eqb c "X"%char then digitsIn 16 r
      else if Ascii.eqb c "o"%char || Ascii.eqb c "O"%char then digitsIn 8 r
      else if Ascii.eqb c "b"%char || Ascii.eqb c "B"%char then digitsIn 2 r
      else digitsIn 10 t
  | String "-"%char r => Z.opp <$> digitsIn 10 r
  | String "+"%char r => digitsIn 10 r
  | _ => digitsIn 10 t
  end.

End JsBigInt.

(** ** JavaScript dates

    A [Date] object holds a time value: an integral number of milliseconds
    since the epoch, or NaN for an invalid date.  Time values are bounded by
    8.64e15 in absolute value, hence exact as binary64, and are kept as
    integers here; [None] is the invalid date. *)
Module JsDate.

Definition Date : Type := option Z.

(** [new Date(Math.min(a.getTime(), b.getTime()))]: NaN is absorbing. *)
Definition min (a b : Date) : Date :=
  match a, b with
  | Some x, Some y => Some (Z.min x y)
  | _, _ => None
  end.

(** [new Date(Math.max(a.getTime(), b.getTime()))] *)
Definition max (a b : Date) : Date :=
  match a, b with
  | Some x, Some y => Some (Z.max x y)
  | _, _ => None
  end.

Definition msPerDay : Z := 86400000.

(** The proleptic Gregorian date (year, month, day) of a day number
    counted from 1970-01-01. *)
Definition civilFromDays (days : Z) : Z * Z * Z :=
  let z := days + 719468 in
  let era := z / 146097 in
  let doe := z - era * 146097 in
  let yoe := (doe - doe / 1460 + doe / 36524 - doe / 146096) / 365 in
  let doy := doe - (365 * yoe + yoe / 4 - yoe / 100) in
  let mp := (5 * doy + 2) / 153 in
  let d := doy - (153 * mp + 2) / 5 + 1 in
  let m := if mp <? 10 then mp + 3 else mp - 9 in
  let y := yoe + era * 400 + (if m <=? 2 then 1 else 0) in
  (y, m, d).

(** The day number of a proleptic Gregorian date. *)
Definition daysFromCivil (y m d : Z) : Z :=
  let y' := if m <=? 2 then y - 1 else y in
  let era := y' / 400 in
  let yoe := y' - era * 400 in
  let doy := (153 * (if 2 <? m then m - 3 else m + 9) + 2) / 5 + d - 1 in
  let doe := yoe * 365 + yoe / 4 - yoe / 100 + doy in
  era * 146097 + doe - 719468.

Definition digitChar (d : Z) : ascii := ascii_of_N (Z.to_N (48 + d mod 10)).

(** The last [width] decimal digits of a non-negative integer. *)
Fixpoint padDigits (width : nat) (n : Z) (acc : string) : string :=
  match width with
  | O => acc
  | S w => padDigits w (n / 10) (String (digitChar n) acc)
  end.

(** The ISO year: four digits for the years 0 to 9999, a sign and six
    digits otherwise. *)
Definition isoYear (y : Z) : string :=
  if (0 <=? y) && (y <=? 9999) then padDigits 4 y EmptyString
  else String (if y <? 0 then "-"%char else "+"%char)
              (padDigits 6 (Z.abs y) EmptyString).

(** [new Date(ms).toISOString().split('T')[0]] for a valid time value. *)
Definition isoDay (ms : Z) : string :=
  let '(y, m, d) := civilFromDays (ms / msPerDay) in
  isoYear y ++ "-" ++ padDigits 2 m EmptyString
            ++ "-" ++ padDigits 2 d EmptyString.

(** [d.toISOString().split('T')[0]]: [toISOString] throws a RangeError on
    an invalid date, which is [None] here. *)
Definition toISODay (d : Date) : option string := isoDay <$> d.

Definition isLeap (y : Z) : bool :=
  (y mod 4 =? 0) && (negb (y mod 100 =? 0) || (y mod 400 =? 0)).

Definition daysInMonth (y m : Z) : Z :=
  if m =? 2 then (if isLeap y then 29 else 28)
  else if (m =? 4) || (m =? 6) || (m =? 9) || (m =? 11) then 30 else 31.

(** One implementation of [new Date(s)]: the date-only ISO form
    [YYYY-MM-DD], which ECMAScript reads as midnight UTC.  How other
    formats are read is left to the JavaScript engine; this instance
    rejects them. *)
Definition parseDateOnly (s : string) : Date :=
  let '(y, ny, r1) := JsNumber.readDigits s 0 0 in
  match r1 with
  | String "-"%char r1' =>
      let '(m, nm, r2) := JsNumber.readDigits r1' 0 0 in
      match r2 with
      | String "-"%char r2' =>
          let '(d, nd, r3) := JsNumber.readDigits r2' 0 0 in
          if (ny =? 4) && (nm =? 2) && (nd =? 2) && negb (JsString.truthy r3)
             && (1 <=? m) && (m <=? 12) && (1 <=? d) && (d <=? daysInMonth y m)
          then Some (daysFromCivil y m d * msPerDay)
          else None
      | _ => None
      end
  | _ => None
  end.

(** A second implementation of [new Date(s)]: next to [YYYY-MM-DD] it reads
    the date-only form with an expanded year, [+YYYYYY-MM-DD] or
    [-YYYYYY-MM-DD], which ECMAScript reads as midnight UTC as well.  The
    year [-000000] and a time value beyond 8.64e15 ms are invalid. *)
Definition parseDateExpanded (s : string) : Date :=
  match s with
  | String c r =>
      if Ascii.eqb c "+" || Ascii.eqb c "-" then
        let '(y, ny, r1) := JsNumber.readDigits r 0 0 in
        match r1 with
        | String "-"%char r1' =>
            let '(m, nm, r2) := JsNumber.readDigits r1' 0 0 in
            match r2 with
            | String "-"%char r2' =>
                let '(d, nd, r3) := JsNumber.readDigits r2' 0 0 in
                let year := if Ascii.eqb c "-" then - y else y in
                let ms := daysFromCivil year m d * msPerDay in
                if (ny =? 6) && (nm =? 2) && (nd =? 2)
                   && negb (JsString.truthy r3)
                   && (1 <=? m) && (m <=? 12)
                   && (1 <=? d) && (d <=? daysInMonth year m)
                   && negb (Ascii.eqb c "-" && (y =? 0))
                   && (Z.abs ms <=? 8640000000000000)
                then Some ms
                else None
            | _ => None
            end
        | _ => None
        end
      else parseDateOnly s
  | EmptyString => None
  end.

End JsDate.

(** ** The flush transaction component ([FlushTransactions]) *)
Module Flush.
Import JsNumber.

Inductive TransactionType := send | receive | internal.

Definition isInternal (ty : TransactionType) : bool :=
  match ty with internal => true | _ => false end.
Definition isSend (ty : TransactionType) : bool :=
  match ty with send => true | _ => false end.
Definition isReceive (ty : TransactionType) : bool :=
  match ty with receive => true | _ => false end.

Record Transaction := {
  to : string;
  hash : option string;
  amount : number;
  count : number;
  firstDate : JsDate.Date;
  lastDate : JsDate.Date
}.

(** [DailyTotal]; its field [amount] is [dayAmount] here, the name [amount]
    being taken by the projection of [Transaction]. *)
Record DailyTotal := {
  date : string;
  dayAmount : number;
  cumulative : number
}.

(** [TransactionSummary] and the [dailyAmounts] accumulator: objects used
    as dictionaries. *)
Abbreviation TransactionSummary := (gmap string Transaction).
Abbreviation DailyAmounts := (gmap string number).

Definition TARGET_ADDRESS : string :=
  JsString.toLowerCase "0xDEC9f2793e3c17cd26eeFb21C4762fA5128E0399".

(** [dailyAmounts[dateKey] || 0]: a missing bucket and a falsy one both
    read as 0. *)
Definition bucketOrZero (dailyAmounts : DailyAmounts) (dateKey : string) : number :=
  match dailyAmounts !! dateKey with
  | Some v => orElse v zero
  | None => zero
  end.

(** [columns[i]], used below the length checks only. *)
Definition column (columns : list string) (i : nat) : string :=
  nth i columns EmptyString.

(** The member names that a plain object inherits from [Object.prototype]:
    reading one of them on an object without an own property of that name
    gives the inherited member, a function or, for [__proto__], the
    prototype object. *)
Definition inheritedKey (k : string) : bool :=
  existsb (String.eqb k)
    ["constructor"; "__proto__"; "hasOwnProperty"; "isPrototypeOf";
     "propertyIsEnumerable"; "toLocaleString"; "toString"; "valueOf";
     "__defineGetter__"; "__defineSetter__"; "__lookupGetter__";
     "__lookupSetter__"].

(** [processTransaction]: the summary entry is created or updated first;
    [toISOString] then throws on an invalid timestamp ([None]).  When the
    key has no own entry but names an inherited member,
    [!transactionSummary[addressKey]] is false and no entry is created; the
    two [+=] then write on the inherited member, and
    [.firstDate.getTime()] throws a TypeError ([None]). *)
Definition processTransaction (from to_ : string) (amount_ : number)
    (timestamp : JsDate.Date)
    (transactionSummary : TransactionSummary) (dailyAmounts : DailyAmounts)
    : option (TransactionSummary * DailyAmounts) :=
  let addressKey := if String.eqb from TARGET_ADDRESS then to_ else from in
  entry ←
    match transactionSummary !! addressKey with
    | Some e => Some e
    | None =>
        if inheritedKey addressKey then None
        else Some {| to := addressKey; hash := None; amount := zero;
                     count := zero;
                     firstDate := timestamp; lastDate := timestamp |}
    end;
  let entry' :=
    {| to := to entry; hash := hash entry;
       amount := add (amount entry) amount_;
       count := add (count entry) one;
       firstDate := JsDate.min (firstDate entry) timestamp;
       lastDate := JsDate.max (lastDate entry) timestamp |} in
  let transactionSummary' := <[addressKey := entry']> transactionSummary in
  dateKey ← JsDate.toISODay timestamp;
  Some (transactionSummary',
        <[dateKey := add (bucketOrZero dailyAmounts dateKey) amount_]> dailyAmounts).

(** The constants declared by the callback of [lines.forEach] for one
    line: [columns], [hash], [from], [to], the two [amount]s. *)
Definition rowColumns (line : string) : list string :=
  JsString.split ","%char (JsString.stripLinePrefix line).

Definition rowHash (columns : list string) : string :=
  JsString.stripQuotes (column columns 0).

Definition rowFrom (columns : list string) : string :=
  JsString.toLowerCase (JsString.stripQuotes (column columns 4)).

Definition rowTo (columns : list string) : string :=
  JsString.toLowerCase (JsString.stripQuotes (column columns 5)).

(** [parseFloat(columns[10].replace(...)) || 0] *)
Definition internalAmount (columns : list string) : number :=
  orElse (parseFloat (JsString.stripQuotes (column columns 10))) zero.

(** [parseFloat(columns[7]...) || parseFloat(columns[8]...) || 0] *)
Definition rowAmount (columns : list string) : number :=
  orElse (orElse (parseFloat (JsString.stripQuotes (column columns 7)))
                 (parseFloat (JsString.stripQuotes (column columns 8))))
         zero.

(** The summary entry written for a row of the internal file. *)
Definition internalEntry (hash_ : string) (amount_ : number)
    (timestamp : JsDate.Date) : Transaction :=
  {| to := EmptyString; hash := Some hash_; amount := amount_; count := one;
     firstDate := timestamp; lastDate := timestamp |}.

(** The order of [Array.prototype.sort] without a comparator: strings by
    code units. *)
Definition codeUnitLe (a b : string) : Prop := String.leb a b = true.

#[export] Instance codeUnitLe_dec : RelDecision codeUnitLe.
Proof. intros a b. unfold codeUnitLe. apply _. Defined.

Section Pipeline.
(** [new Date(s).getTime()], with [None] for NaN. *)
Variable dateParse : string → JsDate.Date.

(** [new Date(columns[3].replace(...))] *)
Definition rowTimestamp (columns : list string) : JsDate.Date :=
  dateParse (JsString.stripQuotes (column columns 3)).

(** The body of [lines.forEach]: one CSV line against the accumulators;
    [None] when the callback throws.  In the internal view the assignment
    [transactionSummary[transactionKey] = ...] under the key [__proto__],
    on an object without an own property of that name, calls the inherited
    setter: it replaces the prototype of the object and adds no entry. *)
Definition processLine (transactionType : TransactionType) (line : string)
    (st : TransactionSummary * DailyAmounts)
    : option (TransactionSummary * DailyAmounts) :=
  let (transactionSummary, dailyAmounts) := st in
  if negb (JsString.truthy (JsString.trim line)) then Some st
  else if isInternal transactionType then
    let columns := rowColumns line in
    if (length columns <? 11)%nat then Some st
    else
      let hash_ := rowHash columns in
      let amount_ := internalAmount columns in
      let timestamp := rowTimestamp columns in
      let transactionSummary' :=
        if String.eqb hash_ "__proto__"
           && negb (bool_decide (is_Some (transactionSummary !! hash_)))
        then transactionSummary
        else <[hash_ := internalEntry hash_ amount_ timestamp]>
               transactionSummary in
      dateKey ← JsDate.toISODay timestamp;
      Some (transactionSummary',
            <[dateKey := add (bucketOrZero dailyAmounts dateKey) amount_]>
              dailyAmounts)
  else
    let columns := rowColumns line in
    if (length columns <? 15)%nat then Some st
    else
      let from := rowFrom columns in
      let to_ := rowTo columns in
      let amount_ := rowAmount columns in
      let timestamp := rowTimestamp columns in
      if isSend transactionType && String.eqb from TARGET_ADDRESS
         && gt amount_ zero
      then processTransaction from to_ amount_ timestamp
             transactionSummary dailyAmounts
      else if isReceive transactionType && String.eqb to_ TARGET_ADDRESS
              && gt amount_ zero
      then processTransaction from to_ amount_ timestamp
             transactionSummary dailyAmounts
      else Some st.

(** [lines.forEach(...)]: left to right, stopping at the first throw. *)
Fixpoint processLines (transactionType : TransactionType) (lines : list string)
    (st : TransactionSummary * DailyAmounts)
    : option (TransactionSummary * DailyAmounts) :=
  match lines with
  | [] => Some st
  | line :: rest =>
      st' ← processLine transactionType line st;
      processLines transactionType rest st'
  end.

(** [csv.split('\n').slice(1)] *)
Definition dataLines (csv : string) : list string :=
  tail (JsString.split (ascii_of_N 10) csv).

(** [Object.keys(dailyAmounts).sort()] *)
Definition sortedDates (dailyAmounts : DailyAmounts) : list string :=
  merge_sort codeUnitLe (map_to_list dailyAmounts).*1.

(** [sortedDates.map(date => { cumulative += dailyAmounts[date]; ... })],
    the captured variable [cumulative] being threaded through. *)
Fixpoint cumulate (dailyAmounts : DailyAmounts) (cumulative_ : number)
    (dates : list string) : list DailyTotal :=
  match dates with
  | [] => []
  | date_ :: rest =>
      let a := default NaN (dailyAmounts !! date_) in
      let c := add cumulative_ a in
      {| date := date_; dayAmount := a; cumulative := c |}
        :: cumulate dailyAmounts c rest
  end.

Definition buildDailyTotals (dailyAmounts : DailyAmounts) : list DailyTotal :=
  cumulate dailyAmounts zero (sortedDates dailyAmounts).

(** The [then] callback of the effect: the new values of the [summary]
    and [dailyTotals] states, or [None] when the callback throws and the
    [catch] handler leaves both states as they were. *)
Definition flush (transactionType : TransactionType) (csv : string)
    : option (TransactionSummary * list DailyTotal) :=
  '(transactionSummary, dailyAmounts) ←
    processLines transactionType (dataLines csv) (∅, ∅);
  Some (transactionSummary, buildDailyTotals dailyAmounts).

End Pipeline.

(** *** Vocabulary of the statements about the pipeline *)

(** [amounts.reduce((sum, a) => sum + a, 0)]: the running sum from 0. *)
Definition total (amounts : list number) : number := fold_left add amounts zero.

(** The strict code-unit order of strings. *)
Definition codeUnitLt (a b : string) : Prop := String.ltb a b = true.

(** The guard under which a line of the send and receive views reaches
    [processTransaction]; a line with two columns or more is never blank. *)
Definition accepted (transactionType : TransactionType) (line : string) : bool :=
  let columns := rowColumns line in
  negb (length columns <? 15)%nat
  && ((isSend transactionType && String.eqb (rowFrom columns) TARGET_ADDRESS
       && gt (rowAmount columns) zero)
      || (isReceive transactionType && String.eqb (rowTo columns) TARGET_ADDRESS
          && gt (rowAmount columns) zero)).

(** The guard under which a line of the internal view is recorded. *)
Definition recorded (line : string) : bool :=
  negb (length (rowColumns line) <? 11)%nat.

(** The amount rule in the words of the specification: the first of the two
    candidates that is a positive number, if there is one. *)
Definition firstPositiveCandidate (columns : list string) : option number :=
  let a7 := parseFloat (JsString.stripQuotes (column columns 7)) in
  let a8 := parseFloat (JsString.stripQuotes (column columns 8)) in
  if gt a7 zero then Some a7 else if gt a8 zero then Some a8 else None.

(** Every day bucket holds a valid number other than -0. *)
Definition dailyClean (dailyAmounts : DailyAmounts) : Prop :=
  ∀ k v, dailyAmounts !! k = Some v → clean v.

(** Every day bucket holds a valid positive number. *)
Definition dailyPositive (dailyAmounts : DailyAmounts) : Prop :=
  ∀ k v, dailyAmounts !! k = Some v → valid v ∧ positive_ v.

(** Every group has valid, non-negative totals and valid dates. *)
Definition summaryNonneg (transactionSummary : TransactionSummary) : Prop :=
  ∀ k e, transactionSummary !! k = Some e →
    valid (amount e) ∧ nonneg (amount e) ∧ valid (count e) ∧ nonneg (count e).

(** The order of the series in the words of the specification: ascending
    by date, the date strings read as the days they denote. *)
Definition ascendingByDate (dateParse : string → JsDate.Date)
    (totals : list DailyTotal) : Prop :=
  ∀ i j a b, (i < j)%nat → totals !! i = Some a → totals !! j = Some b →
    ∃ x y, dateParse (date a) = Some x ∧ dateParse (date b) = Some y ∧ x < y.

(** The entry [u] is dated on or before the entry [t], the date strings
    read as the days they denote. *)
Definition onOrBefore (dateParse : string → JsDate.Date)
    (u t : DailyTotal) : bool :=
  match dateParse (date u), dateParse (date t) with
  | Some x, Some y => x <=? y
  | _, _ => false
  end.

(** The sum in the words of the specification: the amounts of the entries
    dated on or before [t]. *)
Definition sumOnOrBefore (dateParse : string → JsDate.Date)
    (totals : list DailyTotal) (t : DailyTotal) : number :=
  total (map dayAmount (List.filter (λ u, onOrBefore dateParse u t) totals)).

(** The cumulative field never decreases along the series. *)
Definition nonDecreasing (totals : list DailyTotal) : Prop :=
  ∀ i j a b, (i ≤ j)%nat → totals !! i = Some a → totals !! j = Some b →
    le (cumulative a) (cumulative b) = true.

(** [addressKey] of [processTransaction] for the columns of a line: the
    other party of the transfer. *)
Definition rowKey (columns : list string) : string :=
  if String.eqb (rowFrom columns) TARGET_ADDRESS
  then rowTo columns else rowFrom columns.

(** The timestamps, in the order of the lines, of the accepted lines whose
    group is [k]. *)
Definition groupTimes (dateParse : string → JsDate.Date)
    (transactionType : TransactionType) (k : string) (lines : list string)
    : list JsDate.Date :=
  List.map (λ line, rowTimestamp dateParse (rowColumns line))
    (List.filter (λ line, accepted transactionType line
                          && String.eqb (rowKey (rowColumns line)) k) lines).

(** The dates of a group bound the timestamps [times] seen for it, and are
    two of them. *)
Definition datesBound (e : Transaction) (times : list JsDate.Date) : Prop :=
  ∃ f l, firstDate e = Some f ∧ lastDate e = Some l
         ∧ (∀ t, In t times → ∃ ms, t = Some ms ∧ f ≤ ms ≤ l)
         ∧ In (Some f) times ∧ In (Some l) times.

(** The dates of every group bound the timestamps of the accepted lines of
    the group among [L], and a key without group has no such line. *)
Definition datesInv (dateParse : string → JsDate.Date)
    (ty : TransactionType) (L : list string)
    (s : TransactionSummary) : Prop :=
  ∀ k, match s !! k with
       | Some e => datesBound e (groupTimes dateParse ty k L)
       | None => groupTimes dateParse ty k L = []
       end.

(** The recorded lines of the internal view whose hash is [k]. *)
Definition hashRows (k : string) (lines : list string) : list string :=
  List.filter (λ line, recorded line && String.eqb (rowHash (rowColumns line)) k)
              lines.

(** The summary entry that the internal view writes for a line. *)
Definition lineEntry (dateParse : string → JsDate.Date) (line : string)
    : Transaction :=
  internalEntry (rowHash (rowColumns line)) (internalAmount (rowColumns line))
                (rowTimestamp dateParse (rowColumns line)).

(** No own key of the summary names an inherited member. *)
Definition ownKeys (s : TransactionSummary) : Prop :=
  ∀ k, inheritedKey k = true → s !! k = None.

(** The recorded lines of the internal view that leave an entry: all but
    those whose hash is [__proto__]. *)
Definition stored (line : string) : bool :=
  recorded line && negb (String.eqb (rowHash (rowColumns line)) "__proto__").

(** Every key but [__proto__] holds the entry of the last recorded line
    with that hash among [L], and [__proto__] holds none. *)
Definition internalInv (dateParse : string → JsDate.Date) (L : list string)
    (s : TransactionSummary) : Prop :=
  ∀ k, s !! k = if String.eqb k "__proto__" then None
                else lineEntry dateParse <$> last (hashRows k L).

(** Table sorting state and [toggleSort]. *)
Inductive SortBy := byAmount | byCount | byDate.
Inductive SortDirection := asc | desc.

Definition SortBy_eqb (a b : SortBy) : bool :=
  match a, b with
  | byAmount, byAmount | byCount, byCount | byDate, byDate => true
  | _, _ => false
  end.

Definition flip (d : SortDirection) : SortDirection :=
  match d with asc => desc | desc => asc end.

Definition toggleSort (field : SortBy) (st : SortBy * SortDirection)
    : SortBy * SortDirection :=
  let (sortBy, sortDirection) := st in
  if SortBy_eqb sortBy field then (sortBy, flip sortDirection)
  else (field, desc).

(** [abbreviateAddress]: the first six and the last four characters around
    an ellipsis. *)
Definition abbreviateAddress (address : string) : string :=
  JsString.slice address 0 (Some 6) ++ "..." ++ JsString.slice address (-4) None.

(** [d.getTime()] *)
Definition getTime (d : JsDate.Date) : number :=
  match d with
  | Some ms => ofZ ms
  | None => NaN
  end.

(** The comparator of [sortedTransactions]. *)
Definition compareTransactions (sortBy : SortBy) (sortDirection : SortDirection)
    (a b : Transaction) : number :=
  let multiplier := match sortDirection with asc => ofZ 1 | desc => ofZ (-1) end in
  match sortBy with
  | byDate => mul (sub (getTime (lastDate a)) (getTime (lastDate b))) multiplier
  | byAmount => mul (sub (amount a) (amount b)) multiplier
  | byCount => mul (sub (count a) (count b)) multiplier
  end.

(** [totalStats.addresses]: the length of [Object.values(summary)]. *)
Definition totalAddresses (summary : TransactionSummary) : nat := size summary.

(** *** Vocabulary of the statements about whole files *)

(** [a[sortBy]], or the time value of [a.lastDate] for the date column. *)
Definition sortValue (sortBy : SortBy) (a : Transaction) : number :=
  match sortBy with
  | byDate => getTime (lastDate a)
  | byAmount => amount a
  | byCount => count a
  end.

(** The guard under which a line is taken into the accumulators of a
    view. *)
Definition included (transactionType : TransactionType) (line : string) : bool :=
  if isInternal transactionType then recorded line
  else accepted transactionType line.

(** The amount that an included line contributes. *)
Definition lineAmount (transactionType : TransactionType) (line : string) : number :=
  if isInternal transactionType then internalAmount (rowColumns line)
  else rowAmount (rowColumns line).

(** The accepted lines of the group [k], in the order of the file. *)
Definition groupRows (transactionType : TransactionType) (k : string)
    (lines : list string) : list string :=
  List.filter (λ line, accepted transactionType line
                        && String.eqb (rowKey (rowColumns line)) k) lines.

(** The included lines whose timestamp falls on the UTC day [day], in the
    order of the file. *)
Definition dayRows (dateParse : string → JsDate.Date)
    (transactionType : TransactionType) (day : string) (lines : list string)
    : list string :=
  List.filter
    (λ line, included transactionType line
             && bool_decide (JsDate.toISODay (rowTimestamp dateParse (rowColumns line))
                             = Some day)) lines.

(** What a day bucket holds after a sequence of amounts: each step is
    [(bucket || 0) + amount]. *)
Definition bucketTotal (amounts : list number) : number :=
  fold_left (λ bucket a, add (orElse bucket zero) a) amounts zero.

(** Every group of the summary is the running total of the accepted lines
    of the group among [L], and a key without group has no such line. *)
Definition groupsInv (ty : TransactionType) (L : list string)
    (s : TransactionSummary) : Prop :=
  ∀ k, match s !! k with
       | Some e =>
           groupRows ty k L ≠ [] ∧ to e = k ∧ hash e = None
           ∧ amount e = total (List.map (λ line, rowAmount (rowColumns line))
                                        (groupRows ty k L))
           ∧ count e = total (List.map (λ _, one) (groupRows ty k L))
       | None => groupRows ty k L = []
       end.

(** Every day bucket holds the bucket total of the included lines of that
    day among [L], and a day without bucket has no such line. *)
Definition bucketsInv (dateParse : string → JsDate.Date)
    (ty : TransactionType) (L : list string) (d : DailyAmounts) : Prop :=
  ∀ day, d !! day =
         match dayRows dateParse ty day L with
         | [] => None
         | rows => Some (bucketTotal (List.map (lineAmount ty) rows))
         end.

End Flush.


(** ** The stakes component ([StakesPage]) *)
Module Stakes.
Import JsNumber.

(** The fields of the GraphQL records, all sent as strings. *)
Record StakeEnd := {
  endId : string;
  payout : string;
  penalty : string;
  servedDays : string;
  daysLate : string;
  daysEarly : string;
  endTimestamp : string;
  endTransactionHash : string
}.

Record StakeStart := {
  id : string;
  stakerAddr : string;
  stakeId : string;
  stakedHearts : string;
  stakeShares : string;
  stakeTShares : string;
  stakedDays : string;
  startDay : string;
  endDay : string;
  timestamp : string;
  isAutoStake : bool;
  transactionHash : string;
  stakeEnd : option StakeEnd
}.

Inductive SortField :=
| start | expEnd | days | hexStaked | tShares | stakeEnded
| yield | minted | roi | daysServed | earlyLate | penalty_.

Inductive SortDirection := asc | desc.

Definition SortField_eqb (a b : SortField) : bool :=
  match a, b with
  | start, start | expEnd, expEnd | days, days | hexStaked, hexStaked
  | tShares, tShares | stakeEnded, stakeEnded | yield, yield
  | minted, minted | roi, roi | daysServed, daysServed
  | earlyLate, earlyLate | penalty_, penalty_ => true
  | _, _ => false
  end.

Definition flip (d : SortDirection) : SortDirection :=
  match d with asc => desc | desc => asc end.

(** [handleSort] on the pair of states [sortField], [sortDirection]. *)
Definition handleSort (field : SortField) (st : SortField * SortDirection)
    : SortField * SortDirection :=
  let (sortField, sortDirection) := st in
  if SortField_eqb sortField field then (sortField, flip sortDirection)
  else (field, desc).

Definition HEX_LAUNCH_TIMESTAMP : number := ofZ 1575331200.
Definition SECONDS_PER_DAY : number := ofZ 86400.

Inductive StatusFilter := all | active | ended.

Record DateRange := { from : string; to : string }.

(** The filter states of the page. *)
Record Filters := {
  statusFilter : StatusFilter;
  searchAddress : string;
  startDateRange : DateRange;
  endDateRange : DateRange
}.

Definition isActive (f : StatusFilter) : bool :=
  match f with active => true | _ => false end.
Definition isEnded (f : StatusFilter) : bool :=
  match f with ended => true | _ => false end.

(** [Math.floor(d.getTime() / 1000)]: the quotient of an integral time value
    by 1000 is rounded to a binary64 value that lies strictly between the
    same two integers, so the floor is the integer quotient; NaN for an
    invalid date. *)
Definition floorSeconds (d : JsDate.Date) : number :=
  match d with
  | Some ms => ofZ (ms / 1000)
  | None => NaN
  end.

Section Filter.
(** [new Date(s).getTime()], with [None] for NaN. *)
Variable dateParse : string → JsDate.Date.

(** The status lines of the [filter] callback: [true] when one of the two
    [return false] statements fires. *)
Definition statusRejects (f : StatusFilter) (stake : StakeStart) : bool :=
  (isActive f && bool_decide (is_Some (stakeEnd stake)))
  || (isEnded f && negb (bool_decide (is_Some (stakeEnd stake)))).

(** The callback of [data.stakeStarts.filter] in [filteredStakes]. *)
Definition keepStake (fs : Filters) (stake : StakeStart) : bool :=
  if isActive (statusFilter fs) && bool_decide (is_Some (stakeEnd stake)) then false
  else if isEnded (statusFilter fs) && negb (bool_decide (is_Some (stakeEnd stake)))
  then false
  else if JsString.truthy (JsString.trim (searchAddress fs))
          && negb (JsString.includes (JsString.toLowerCase (searchAddress fs))
                                     (JsString.toLowerCase (stakerAddr stake)))
  then false
  else
    let startTimestamp := parseInt (timestamp stake) in
    let startFrom := floorSeconds (dateParse (from (startDateRange fs))) in
    let startTo := floorSeconds (dateParse (to (startDateRange fs))) in
    if lt startTimestamp startFrom || gt startTimestamp startTo then false
    else
      let endTimestamp_ :=
        add HEX_LAUNCH_TIMESTAMP (mul (parseInt (endDay stake)) SECONDS_PER_DAY) in
      let endFrom := floorSeconds (dateParse (from (endDateRange fs))) in
      let endTo := floorSeconds (dateParse (to (endDateRange fs))) in
      if lt endTimestamp_ endFrom || gt endTimestamp_ endTo then false
      else true.

(** [filteredStakes]: the fetched page, [None] while there is no data. *)
Definition filteredStakes (fs : Filters) (stakeStarts : option (list StakeStart))
    : list StakeStart :=
  match stakeStarts with
  | None => []
  | Some l => List.filter (keepStake fs) l
  end.

End Filter.

(** The same filter states with another status selection. *)
Definition withStatus (f : StatusFilter) (fs : Filters) : Filters :=
  {| statusFilter := f; searchAddress := searchAddress fs;
     startDateRange := startDateRange fs; endDateRange := endDateRange fs |}.

(** [aRoi] of the [roi] case of the sort comparator. *)
Definition sortRoi (a : StakeStart) : number :=
  let aStaked := parseFloat (stakedHearts a) in
  let roiMintedA :=
    match stakeEnd a with
    | Some e => add (parseFloat (payout e)) aStaked
    | None => zero
    end in
  match stakeEnd a with
  | Some _ => div (sub roiMintedA aStaked) aStaked
  | None => zero
  end.

(** The comparator of [sortedStakes] in the [roi] case. *)
Definition compareRoi (sortDirection : SortDirection) (a b : StakeStart) : number :=
  let direction := match sortDirection with asc => ofZ 1 | desc => ofZ (-1) end in
  mul (sub (sortRoi a) (sortRoi b)) direction.


(** The [onChange] handler of the page-size input: the value given to
    [setLimit], [Math.min(1000, Math.max(10, parseInt(value) || 10))]. *)
Definition limitChange (value : string) : number :=
  Math.min (ofZ 1000) (Math.max (ofZ 10) (orElse (parseInt value) (ofZ 10))).

(** The address lines of the [filter] callback: [true] when the
    [return false] statement fires. *)
Definition searchRejects (fs : Filters) (stake : StakeStart) : bool :=
  JsString.truthy (JsString.trim (searchAddress fs))
  && negb (JsString.includes (JsString.toLowerCase (searchAddress fs))
                             (JsString.toLowerCase (stakerAddr stake))).

(** The same filter states with another search string. *)
Definition withSearch (search : string) (fs : Filters) : Filters :=
  {| statusFilter := statusFilter fs; searchAddress := search;
     startDateRange := startDateRange fs; endDateRange := endDateRange fs |}.

(** The same stake with another staker address. *)
Definition withStaker (addr : string) (stake : StakeStart) : StakeStart :=
  {| id := id stake; stakerAddr := addr; stakeId := stakeId stake;
     stakedHearts := stakedHearts stake; stakeShares := stakeShares stake;
     stakeTShares := stakeTShares stake; stakedDays := stakedDays stake;
     startDay := startDay stake; endDay := endDay stake;
     timestamp := timestamp stake; isAutoStake := isAutoStake stake;
     transactionHash := transactionHash stake; stakeEnd := stakeEnd stake |}.

(** [a.stakeEnd?.field || '0']: the field of the end record, or the string
    0 when there is no end record or the field is empty. *)
Definition endField (field : StakeEnd → string) (a : StakeStart) : string :=
  match stakeEnd a with
  | Some e => if JsString.truthy (field e) then field e else "0"
  | None => "0"
  end.

(** [getEndTimestamp] of the [expEnd] case. *)
Definition getEndTimestamp (stake : StakeStart) : number :=
  add HEX_LAUNCH_TIMESTAMP (mul (parseInt (endDay stake)) SECONDS_PER_DAY).

(** Neither of the two comparisons of a range test, [x < lo] and [x > hi],
    is true. *)
Definition inRange (x lo hi : number) : bool := negb (lt x lo) && negb (gt x hi).

(** The criteria of the filter other than the status, in the words of the
    specification: the address search, the start timestamp within its range
    and the expected end within its range, both bounds included. *)
Definition passesOther (dateParse : string → JsDate.Date)
    (fs : Filters) (stake : StakeStart) : bool :=
  negb (searchRejects fs stake)
  && inRange (parseInt (timestamp stake))
             (floorSeconds (dateParse (from (startDateRange fs))))
             (floorSeconds (dateParse (to (startDateRange fs))))
  && inRange (getEndTimestamp stake)
             (floorSeconds (dateParse (from (endDateRange fs))))
             (floorSeconds (dateParse (to (endDateRange fs)))).

Section Sort.
(** [a.localeCompare(b)], which depends on the locale of the engine. *)
Variable localeCompare : string → string → number.

(** The comparator of [sortedStakes]. *)
Definition compareStakes (sortField : SortField) (sortDirection : SortDirection)
    (a b : StakeStart) : number :=
  let direction := match sortDirection with asc => ofZ 1 | desc => ofZ (-1) end in
  match sortField with
  | start =>
      mul (sub (parseInt (timestamp a)) (parseInt (timestamp b))) direction
  | expEnd =>
      mul (sub (getEndTimestamp a) (getEndTimestamp b)) direction
  | days =>
      mul (sub (parseInt (stakedDays a)) (parseInt (stakedDays b))) direction
  | hexStaked =>
      mul (sub (parseFloat (stakedHearts a)) (parseFloat (stakedHearts b))) direction
  | tShares =>
      mul (sub (parseFloat (stakeTShares a)) (parseFloat (stakeTShares b))) direction
  | stakeEnded =>
      mul (localeCompare (endField endTimestamp a) (endField endTimestamp b))
          direction
  | yield =>
      mul (sub (parseFloat (endField payout a)) (parseFloat (endField payout b)))
          direction
  | minted =>
      let mintedA := add (parseFloat (endField payout a)) (parseFloat (stakedHearts a)) in
      let mintedB := add (parseFloat (endField payout b)) (parseFloat (stakedHearts b)) in
      mul (sub mintedA mintedB) direction
  | roi =>
      mul (sub (sortRoi a) (sortRoi b)) direction
  | daysServed =>
      mul (sub (parseInt (endField servedDays a)) (parseInt (endField servedDays b)))
          direction
  | earlyLate =>
      let aEL := sub (parseInt (endField daysLate a)) (parseInt (endField daysEarly a)) in
      let bEL := sub (parseInt (endField daysLate b)) (parseInt (endField daysEarly b)) in
      mul (sub aEL bEL) direction
  | penalty_ =>
      mul (sub (parseFloat (endField penalty a)) (parseFloat (endField penalty b)))
          direction
  end.

End Sort.

(** The value that the comparator takes from a stake, for the fields
    whose case is a plain difference. *)
Definition sortKey (sortField : SortField) (a : StakeStart) : number :=
  match sortField with
  | start => parseInt (timestamp a)
  | expEnd => getEndTimestamp a
  | days => parseInt (stakedDays a)
  | hexStaked => parseFloat (stakedHearts a)
  | tShares => parseFloat (stakeTShares a)
  | yield => parseFloat (endField payout a)
  | minted => add (parseFloat (endField payout a)) (parseFloat (stakedHearts a))
  | roi => sortRoi a
  | daysServed => parseInt (endField servedDays a)
  | earlyLate =>
      sub (parseInt (endField daysLate a)) (parseInt (endField daysEarly a))
  | penalty_ => parseFloat (endField penalty a)
  | stakeEnded => NaN
  end.

End Stakes.

(** ** The lobby component ([XfLobbyEnters]) *)
Module Lobby.

(** The callback of [map]: [addr.trim().toLowerCase()]. *)
Definition normalize (addr : string) : string :=
  JsString.toLowerCase (JsString.trim addr).

(** The callback of [filter]. *)
Definition isValidAddress (addr : string) : bool :=
  (String.length addr =? 42)%nat && JsString.startsWith "0x" addr.

(** The memoised [addresses]. *)
Definition addresses (memberAddresses : string) : list string :=
  if negb (JsString.truthy memberAddresses) then []
  else List.filter isValidAddress
         (List.map normalize (JsString.split ","%char memberAddresses)).


(** [XfLobbyEnter], all fields sent as strings. *)
Record XfLobbyEnter := {
  enterId : string;
  enterDay : string;
  entryId : string;
  memberAddr : string;
  rawAmount : string;
  enterTimestamp : string;
  enterTransactionHash : string;
  referrerAddr : string
}.

(** [handleNextPage] and [handlePrevPage]: the new value of [skip]. *)
Definition handleNextPage (limit prev : JsNumber.number) : JsNumber.number :=
  JsNumber.add prev limit.

Definition handlePrevPage (limit prev : JsNumber.number) : JsNumber.number :=
  JsNumber.Math.max JsNumber.zero (JsNumber.sub prev limit).

(** The [onChange] handler of the page-size input, from the converted
    [value] on: the value given to [setLimit]. *)
Definition limitChange (value : JsNumber.number) : JsNumber.number :=
  if JsNumber.lt value (JsNumber.ofZ 10) then JsNumber.ofZ 10
  else if JsNumber.gt value (JsNumber.ofZ 1000) then JsNumber.ofZ 1000
  else value.

(** The [reduce] of [calculateTotalEth]: the sum in wei, [None] when
    [BigInt] throws. *)
Fixpoint sumWei (enters : list XfLobbyEnter) (sum : Z) : option Z :=
  match enters with
  | [] => Some sum
  | enter :: rest =>
      wei ← JsBigInt.BigInt (rawAmount enter);
      sumWei rest (sum + wei)
  end.

(** [calculateTotalEth]: [data] is [None] while there is no page;
    [Math.pow(10, 18)] is the binary64 value 10^18. *)
Definition calculateTotalEth (data : option (list XfLobbyEnter))
    : option JsNumber.number :=
  match data with
  | None => Some JsNumber.zero
  | Some enters =>
      totalWei ← sumWei enters 0;
      Some (JsNumber.div (JsNumber.ofZ totalWei) (JsNumber.ofZ (10 ^ 18)))
  end.

End Lobby.

(** ** Sample inputs

    Concrete CSV lines and stake records on which the statements of Part II
    are evaluated.  Dates are written in the date-only ISO form, which every
    JavaScript engine reads as midnight UTC ([JsDate.parseDateOnly]). *)
Module Samples.
Import JsNumber.

Definition newline : string := String (ascii_of_N 10) EmptyString.

(** A CSV text: a header line followed by the given data lines. *)
Definition csvOf (rows : list string) : string :=
  "Txhash,Blockno,UnixTimestamp,DateTime" ++ String.concat "" (map (λ r, newline ++ r) rows).

(** A transfer of 100.5 sent by the target address on 2024-01-05; the
    second candidate column holds 200.3. *)
Definition sendRow : string :=
  "0xa1,1,2,2024-01-05,0xDEC9f2793e3c17cd26eeFb21C4762fA5128E0399,0xB0B,,100.5,200.3,,,,,,".

(** A second transfer to the same address, a day earlier, with its amount
    in the second candidate column and a line prefix. *)
Definition sendRowBefore : string :=
  "17|0xa2,1,2,2024-01-04,0xdec9f2793e3c17cd26eefb21c4762fa5128e0399,0xb0b,,0,7,,,,,,".

(** A row sent by the target whose first candidate column is negative and
    whose second one is positive. *)
Definition negativeFirstRow : string :=
  "0xa3,1,2,2024-01-05,0xDEC9f2793e3c17cd26eeFb21C4762fA5128E0399,0xB0B,,-5,10,,,,,,".

(** The row [sendRow] with an empty timestamp column. *)
Definition undatedSendRow : string :=
  "0xa4,1,2,,0xDEC9f2793e3c17cd26eeFb21C4762fA5128E0399,0xB0B,,100.5,200.3,,,,,,".

(** The row [sendRow] sent to an address column that reads
    [Constructor]. *)
Definition constructorSendRow : string :=
  "0xa5,1,2,2024-01-05,0xDEC9f2793e3c17cd26eeFb21C4762fA5128E0399,Constructor,,100.5,200.3,,,,,,".

(** A transfer of 7 sent by the target address on the first day of the
    year 10000. *)
Definition farFutureRow : string :=
  "0xa6,1,2,+010000-01-01,0xDEC9f2793e3c17cd26eeFb21C4762fA5128E0399,0xB0B,,7,,,,,,,".

(** Rows of the internal file: hash, timestamp in column 3, amount in
    column 10. *)
Definition internalFive : string := "0xaaa,1,2,2024-01-05,a,b,c,d,e,f,5".
Definition internalMinusThree : string := "0xbbb,1,2,2024-01-06,a,b,c,d,e,f,-3".
Definition internalThreeAgain : string := "0xaaa,1,2,2024-01-06,a,b,c,d,e,f,3".
Definition internalNoAmount : string := "0xccc,1,2,2024-01-07,a,b,c,d,e,f,".
Definition internalUndated : string := "0xddd,1,2,,a,b,c,d,e,f,".
Definition internalProto : string := "__proto__,1,2,2024-01-07,a,b,c,d,e,f,4".
Definition internalProtoNoAmount : string :=
  "__proto__,1,2,2024-01-07,a,b,c,d,e,f,".

Definition sampleEnd (payout_ : string) : Stakes.StakeEnd :=
  {| Stakes.endId := "e1"; Stakes.payout := payout_; Stakes.penalty := "0";
     Stakes.servedDays := "10"; Stakes.daysLate := "0"; Stakes.daysEarly := "0";
     Stakes.endTimestamp := "1600000000"; Stakes.endTransactionHash := "0xe1" |}.

Definition sampleStake (stakedHearts_ : string) (end_ : option Stakes.StakeEnd)
    : Stakes.StakeStart :=
  {| Stakes.id := "s1"; Stakes.stakerAddr := "0xB0B"; Stakes.stakeId := "1";
     Stakes.stakedHearts := stakedHearts_; Stakes.stakeShares := "1";
     Stakes.stakeTShares := "1"; Stakes.stakedDays := "10";
     Stakes.startDay := "100"; Stakes.endDay := "110";
     Stakes.timestamp := "1590000000"; Stakes.isAutoStake := false;
     Stakes.transactionHash := "0xs1"; Stakes.stakeEnd := end_ |}.

Definition sampleFilters : Stakes.Filters :=
  {| Stakes.statusFilter := Stakes.all; Stakes.searchAddress := "0xb0";
     Stakes.startDateRange := {| Stakes.from := "2019-12-03"; Stakes.to := "2030-01-01" |};
     Stakes.endDateRange := {| Stakes.from := "2019-12-03"; Stakes.to := "2050-01-01" |} |}.

(** The send view of the two transfers to [0xb0b]: one group, two days. *)
Definition twoSends : string := csvOf [sendRow; sendRowBefore].

Definition twoSendsSummary : Flush.TransactionSummary :=
  {[ "0xb0b" :=
       {| Flush.to := "0xb0b"; Flush.hash := None;
          Flush.amount := parseFloat "107.5"; Flush.count := ofZ 2;
          Flush.firstDate := Some 1704326400000;
          Flush.lastDate := Some 1704412800000 |} ]}.

Definition twoSendsTotals : list Flush.DailyTotal :=
  [ {| Flush.date := "2024-01-04"; Flush.dayAmount := ofZ 7;
       Flush.cumulative := ofZ 7 |};
    {| Flush.date := "2024-01-05"; Flush.dayAmount := parseFloat "100.5";
       Flush.cumulative := parseFloat "107.5" |} ].

(** The send view of a transfer in 2024 and one in the year 10000. *)
Definition farFuture : string := csvOf [sendRow; farFutureRow].

Definition farFutureTotals : list Flush.DailyTotal :=
  [ {| Flush.date := "+010000-01-01"; Flush.dayAmount := ofZ 7;
       Flush.cumulative := ofZ 7 |};
    {| Flush.date := "2024-01-05"; Flush.dayAmount := parseFloat "100.5";
       Flush.cumulative := parseFloat "107.5" |} ].

(** The internal view of two transfers with distinct hashes, the second one
    negative. *)
Definition twoInternals : string := csvOf [internalFive; internalMinusThree].

Definition twoInternalsSummary : Flush.TransactionSummary :=
  <["0xbbb" := Flush.internalEntry "0xbbb" (ofZ (-3)) (Some 1704499200000)]>
    {[ "0xaaa" := Flush.internalEntry "0xaaa" (ofZ 5) (Some 1704412800000) ]}.

Definition twoInternalsTotals : list Flush.DailyTotal :=
  [ {| Flush.date := "2024-01-05"; Flush.dayAmount := ofZ 5;
       Flush.cumulative := ofZ 5 |};
    {| Flush.date := "2024-01-06"; Flush.dayAmount := ofZ (-3);
       Flush.cumulative := ofZ 2 |} ].

(** The internal view of two transfers with the same hash. *)
Definition sameHashTwice : string := csvOf [internalFive; internalThreeAgain].

Definition sameHashTwiceSummary : Flush.TransactionSummary :=
  {[ "0xaaa" := Flush.internalEntry "0xaaa" (ofZ 3) (Some 1704499200000) ]}.

Definition sameHashTwiceTotals : list Flush.DailyTotal :=
  [ {| Flush.date := "2024-01-05"; Flush.dayAmount := ofZ 5;
       Flush.cumulative := ofZ 5 |};
    {| Flush.date := "2024-01-06"; Flush.dayAmount := ofZ 3;
       Flush.cumulative := ofZ 8 |} ].

(** The internal view of a transfer followed by one whose hash column
    reads [__proto__], two days later. *)
Definition withProto : string := csvOf [internalFive; internalProto].

Definition withProtoTotals : list Flush.DailyTotal :=
  [ {| Flush.date := "2024-01-05"; Flush.dayAmount := ofZ 5;
       Flush.cumulative := ofZ 5 |};
    {| Flush.date := "2024-01-07"; Flush.dayAmount := ofZ 4;
       Flush.cumulative := ofZ 9 |} ].

(** The accumulators of the send view after [sendRow], and after
    [sendRowBefore] on top of it. *)
Definition afterSendRow : Flush.TransactionSummary * Flush.DailyAmounts :=
  ({[ "0xb0b" :=
        {| Flush.to := "0xb0b"; Flush.hash := None;
           Flush.amount := parseFloat "100.5"; Flush.count := one;
           Flush.firstDate := Some 1704412800000;
           Flush.lastDate := Some 1704412800000 |} ]},
   {[ "2024-01-05" := parseFloat "100.5" ]}).

Definition afterBothSends : Flush.TransactionSummary * Flush.DailyAmounts :=
  (twoSendsSummary,
   <["2024-01-04" := ofZ 7]> {[ "2024-01-05" := parseFloat "100.5" ]}).

(** The accumulators of the internal view after [internalFive], and after
    [internalThreeAgain] on top of it. *)
Definition afterInternalFive : Flush.TransactionSummary * Flush.DailyAmounts :=
  ({[ "0xaaa" := Flush.internalEntry "0xaaa" (ofZ 5) (Some 1704412800000) ]},
   {[ "2024-01-05" := ofZ 5 ]}).

Definition afterSameHash : Flush.TransactionSummary * Flush.DailyAmounts :=
  (sameHashTwiceSummary,
   <["2024-01-06" := ofZ 3]> {[ "2024-01-05" := ofZ 5 ]}).

(** Filter states whose date inputs are all empty. *)
Definition blankFilters : Stakes.Filters :=
  {| Stakes.statusFilter := Stakes.all; Stakes.searchAddress := "0xb0";
     Stakes.startDateRange := {| Stakes.from := ""; Stakes.to := "" |};
     Stakes.endDateRange := {| Stakes.from := ""; Stakes.to := "" |} |}.


(** Two stakes that have not ended, of 100 and of 200 hearts. *)
Definition activeHundred : Stakes.StakeStart := sampleStake "100" None.
Definition activeTwoHundred : Stakes.StakeStart := sampleStake "200" None.

(** A collation under which all strings are equal. *)
Definition flatCollation (a b : string) : number := zero.

(** The two entries of [twoInternalsSummary]. *)
Definition entryFive : Flush.Transaction :=
  Flush.internalEntry "0xaaa" (ofZ 5) (Some 1704412800000).
Definition entryMinusThree : Flush.Transaction :=
  Flush.internalEntry "0xbbb" (ofZ (-3)) (Some 1704499200000).

End Samples.


(* ===================================================================== *)
(** * Part II: properties                                                 *)
(* ===================================================================== *)

(** ** Strings *)
Module JsStringFacts.
Import JsString.

Lemma lowerChar_idem (c : ascii) : lowerChar (lowerChar c) = lowerChar c.
Proof. destruct c as [[] [] [] [] [] [] [] []]; reflexivity. Qed.

Lemma isWhiteSpace_lowerChar (c : ascii) :
  isWhiteSpace (lowerChar c) = isWhiteSpace c.
Proof. destruct c as [[] [] [] [] [] [] [] []]; reflexivity. Qed.

Lemma toLowerCase_idem (s : string) : toLowerCase (toLowerCase s) = toLowerCase s.
Proof.
  induction s as [|c s IH]; simpl; [reflexivity|].
  now rewrite lowerChar_idem, IH.
Qed.

Lemma toLowerCase_trimStart (s : string) :
  toLowerCase (trimStart s) = trimStart (toLowerCase s).
Proof.
  induction s as [|c s IH]; simpl; [reflexivity|].
  rewrite isWhiteSpace_lowerChar.
  destruct (isWhiteSpace c); [exact IH | reflexivity].
Qed.

Lemma toLowerCase_trimEnd (s : string) :
  toLowerCase (trimEnd s) = trimEnd (toLowerCase s).
Proof.
  induction s as [|c s IH]; simpl; [reflexivity|].
  rewrite <- IH, isWhiteSpace_lowerChar.
  destruct (trimEnd s) as [|d t]; simpl.
  - destruct (isWhiteSpace c); reflexivity.
  - reflexivity.
Qed.

Lemma toLowerCase_trim (s : string) : toLowerCase (trim s) = trim (toLowerCase s).
Proof. unfold trim. now rewrite toLowerCase_trimEnd, toLowerCase_trimStart. Qed.

Lemma trimEnd_idem (s : string) : trimEnd (trimEnd s) = trimEnd s.
Proof.
  induction s as [|c s IH]; simpl; [reflexivity|].
  destruct (trimEnd s) as [|d t] eqn:E.
  - destruct (isWhiteSpace c) eqn:W; simpl; [reflexivity|]. now rewrite W.
  - simpl in *. now rewrite IH.
Qed.

Lemma trimStart_headed (s : string) : headed (trimStart s).
Proof.
  induction s as [|c s IH]; simpl; [exact I|].
  destruct (isWhiteSpace c) eqn:W; [exact IH | exact W].
Qed.

Lemma trimStart_of_headed (s : string) : headed s → trimStart s = s.
Proof. destruct s as [|c s]; simpl; [reflexivity|]. now intros ->. Qed.

Lemma trimEnd_headed (s : string) : headed s → headed (trimEnd s).
Proof.
  destruct s as [|c s]; simpl; [trivial|]. intros W.
  destruct (trimEnd s); simpl; [now rewrite W | exact W].
Qed.

Lemma trim_idem (s : string) : trim (trim s) = trim s.
Proof.
  unfold trim.
  rewrite (trimStart_of_headed (trimEnd (trimStart s))).
  - apply trimEnd_idem.
  - apply trimEnd_headed, trimStart_headed.
Qed.

Lemma split_occurs (sep : ascii) (s : string) :
  (2 ≤ length (split sep s))%nat → occurs sep s.
Proof.
  induction s as [|a s IH]; simpl; [lia|].
  destruct (Ascii.eqb a sep) eqn:E.
  - intros _. left. now apply Ascii.eqb_eq.
  - destruct (split sep s) as [|h t] eqn:Es; simpl in *; [lia|]. auto.
Qed.

Lemma dropDigits_occurs (c : ascii) (s : string) :
  occurs c (dropDigits s) → occurs c s.
Proof.
  induction s as [|a s IH]; simpl; [trivial|].
  destruct (isDigit a); simpl; auto.
Qed.

Lemma stripLinePrefix_occurs (c : ascii) (s : string) :
  occurs c (stripLinePrefix s) → occurs c s.
Proof.
  unfold stripLinePrefix. destruct s as [|a s]; [trivial|].
  destruct (isDigit a); [|trivial].
  destruct (dropDigits (String a s)) as [|b r] eqn:E; [trivial|].
  destruct (Ascii.eqb_spec b "|"%char) as [->|Hb].
  - intros H. apply dropDigits_occurs. rewrite E. now right.
  - destruct b as [[] [] [] [] [] [] [] []]; trivial. now destruct Hb.
Qed.

Lemma trimStart_occurs (c : ascii) (s : string) :
  isWhiteSpace c = false → occurs c s → occurs c (trimStart s).
Proof.
  intros Hc. induction s as [|a s IH]; simpl; [trivial|].
  destruct (isWhiteSpace a) eqn:Ha; [|trivial].
  intros [->|H]; [congruence | auto].
Qed.

Lemma trimEnd_occurs (c : ascii) (s : string) :
  isWhiteSpace c = false → occurs c s → occurs c (trimEnd s).
Proof.
  intros Hc. induction s as [|a s IH]; simpl; [trivial|].
  intros [->|H].
  - destruct (trimEnd s); [rewrite Hc|]; now left.
  - specialize (IH H). destruct (trimEnd s); [destruct IH | now right].
Qed.

Lemma occurs_truthy (c : ascii) (s : string) : occurs c s → truthy s = true.
Proof. destruct s; [intros [] | reflexivity]. Qed.

(** A line that splits into two columns or more is not blank. *)
Lemma columns_not_blank (line : string) :
  (2 ≤ length (split ","%char (stripLinePrefix line)))%nat →
  truthy (trim line) = true.
Proof.
  intros H. apply (occurs_truthy ","%char). unfold trim.
  apply trimEnd_occurs; [reflexivity|]. apply trimStart_occurs; [reflexivity|].
  now apply stripLinePrefix_occurs, split_occurs.
Qed.

End JsStringFacts.

(** ** Binary64 arithmetic: rounding, validity and the order of sums *)
Module Binary64.
Import JsNumber.

Lemma digits2_pos_size (p : positive) : digits2_pos p = Pos.size p.
Proof. induction p as [p IH|p IH|]; simpl; now rewrite ?IH. Qed.

Lemma Zdigits2_log2 (m : Z) : 0 < m → Zdigits2 m = Z.log2 m + 1.
Proof.
  destruct m as [|p|p]; try lia. intros _. simpl.
  rewrite digits2_pos_size. destruct p; simpl; lia.
Qed.

Lemma Zdigits2_nonneg (m : Z) : 0 ≤ m → 0 ≤ Zdigits2 m.
Proof. destruct m; simpl; lia. Qed.

Lemma Zdigits2_pos (m : Z) : 0 < m → 0 < Zdigits2 m.
Proof. destruct m; simpl; lia. Qed.

Lemma Zdigits2_mono (m n : Z) : 0 ≤ m ≤ n → Zdigits2 m ≤ Zdigits2 n.
Proof.
  intros [H0 H]. destruct (Z.eq_dec m 0) as [->|Hm].
  - simpl. now apply Zdigits2_nonneg.
  - rewrite !Zdigits2_log2 by lia.
    pose proof (Z.log2_le_mono m n H). lia.
Qed.

Lemma Zdigits2_bounds (m : Z) :
  0 < m → 2 ^ (Zdigits2 m - 1) ≤ m < 2 ^ Zdigits2 m.
Proof.
  intros H. rewrite Zdigits2_log2 by assumption.
  replace (Z.log2 m + 1 - 1) with (Z.log2 m) by lia.
  replace (Z.log2 m + 1) with (Z.succ (Z.log2 m)) by lia.
  now apply Z.log2_spec.
Qed.

Lemma Zdigits2_mul_pow2 (m n : Z) :
  0 < m → 0 ≤ n → Zdigits2 (m * 2 ^ n) = Zdigits2 m + n.
Proof.
  intros Hm Hn.
  assert (0 < m * 2 ^ n)
    by (apply Z.mul_pos_pos; [assumption | now apply Z.pow_pos_nonneg]).
  rewrite !Zdigits2_log2 by assumption.
  rewrite Z.log2_mul_pow2; lia.
Qed.

Lemma Zdigits2_div_pow2 (m n : Z) :
  0 < m → 0 ≤ n → Zdigits2 (m / 2 ^ n) = Z.max 0 (Zdigits2 m - n).
Proof.
  intros Hm Hn. rewrite <- Z.shiftr_div_pow2 by assumption.
  destruct (Z.le_gt_cases (Zdigits2 m) n) as [Hle|Hgt].
  - rewrite Z.shiftr_eq_0; [simpl; lia | lia |].
    rewrite Zdigits2_log2 in Hle; lia.
  - assert (Hpos : 0 < Z.shiftr m n).
    { rewrite Z.shiftr_div_pow2 by assumption.
      apply Z.div_str_pos. split; [now apply Z.pow_pos_nonneg|].
      pose proof (Zdigits2_bounds m Hm) as [Hb _].
      eapply Z.le_trans; [|exact Hb].
      apply Z.pow_le_mono_r; lia. }
    rewrite (Zdigits2_log2 _ Hpos), Z.log2_shiftr by assumption.
    rewrite (Zdigits2_log2 m Hm) in *. lia.
Qed.

Lemma pos_iter_xO (m k : positive) : Zpos (Pos.iter xO m k) = Zpos m * 2 ^ Zpos k.
Proof.
  revert m. induction k as [|k IH] using Pos.peano_ind; intros m.
  - simpl. lia.
  - rewrite Pos.iter_succ, Pos2Z.inj_xO, IH, Pos2Z.inj_succ, Z.pow_succ_r by lia.
    lia.
Qed.

Lemma fexp_eq (e : Z) : fexp prec emax e = Z.max (e - 53) (-1074).
Proof. reflexivity. Qed.

Lemma fexp_mono (a b : Z) : a ≤ b → fexp prec emax a ≤ fexp prec emax b.
Proof. rewrite !fexp_eq. lia. Qed.

Lemma shr_1_div2 (r : shr_record) :
  0 ≤ shr_m r → shr_m (shr_1 r) = shr_m r / 2.
Proof.
  intros Hr. rewrite <- Z.div2_div.
  destruct r as [[|[p|p|]|p] rb sb]; simpl in *; try reflexivity; lia.
Qed.

Lemma iter_shr_1 (p : positive) (r : shr_record) :
  0 ≤ shr_m r → shr_m (SpecFloat.iter_pos shr_1 p r) = shr_m r / 2 ^ Zpos p.
Proof.
  revert r. induction p as [p IH|p IH|]; intros r Hr; simpl SpecFloat.iter_pos.
  - assert (H1 : 0 ≤ shr_m (shr_1 r))
      by (rewrite shr_1_div2 by assumption; apply Z.div_pos; lia).
    assert (H2 : 0 ≤ shr_m (SpecFloat.iter_pos shr_1 p (shr_1 r)))
      by (rewrite IH by assumption; apply Z.div_pos; lia).
    rewrite (IH _ H2), (IH _ H1), shr_1_div2 by assumption.
    rewrite !Z.div_div by lia. f_equal.
    replace (Zpos p~1) with (1 + Zpos p + Zpos p) by lia.
    rewrite !Z.pow_add_r by lia. change (2 ^ 1) with 2. lia.
  - assert (H2 : 0 ≤ shr_m (SpecFloat.iter_pos shr_1 p r))
      by (rewrite IH by assumption; apply Z.div_pos; lia).
    rewrite (IH _ H2), (IH _ Hr), Z.div_div by lia. f_equal.
    replace (Zpos p~0) with (Zpos p + Zpos p) by lia.
    rewrite Z.pow_add_r by lia. reflexivity.
  - now rewrite shr_1_div2.
Qed.

Lemma shr_m_of_loc (m : Z) (l : location) : shr_m (shr_record_of_loc m l) = m.
Proof. destruct l as [|[]]; reflexivity. Qed.

(** What [shr] leaves of the mantissa: the quotient by the power of two. *)
Lemma shr_spec (r : shr_record) (e n : Z) :
  0 ≤ shr_m r →
  shr_m (fst (shr r e n)) = shr_m r / 2 ^ Z.max 0 n
  ∧ snd (shr r e n) = e + Z.max 0 n.
Proof.
  intros Hr. destruct n as [|p|p]; simpl.
  - rewrite Z.div_1_r. split; [reflexivity | lia].
  - rewrite iter_shr_1 by assumption. split; reflexivity.
  - rewrite Z.div_1_r. split; [reflexivity | lia].
Qed.

(** The first component of [shr_fexp]: when the exponent is not above the
    canonical one, the mantissa is cut down to the canonical exponent. *)
Lemma shr_fexp_spec (m e : Z) (l : location) :
  0 < m → e ≤ fexp prec emax (Zdigits2 m + e) →
  let e' := fexp prec emax (Zdigits2 m + e) in
  let m' := m / 2 ^ (e' - e) in
  shr_m (fst (shr_fexp prec emax m e l)) = m'
  ∧ snd (shr_fexp prec emax m e l) = e'
  ∧ 0 ≤ m'
  ∧ (0 < m' → fexp prec emax (Zdigits2 m' + e') = e')
  ∧ (-1074 ≤ e → 0 < m').
Proof.
  intros Hm He. cbv zeta. unfold shr_fexp.
  remember (fexp prec emax (Zdigits2 m + e)) as e' eqn:Ee'.
  remember (m / 2 ^ (e' - e)) as m' eqn:Em'.
  destruct (shr_spec (shr_record_of_loc m l) e (e' - e)) as [H1 H2];
    [rewrite shr_m_of_loc; lia|].
  rewrite H1, H2, shr_m_of_loc.
  replace (Z.max 0 (e' - e)) with (e' - e) by lia. rewrite <- Em'.
  assert (Hd : Zdigits2 m' = Z.max 0 (Zdigits2 m - (e' - e)))
    by (rewrite Em'; apply Zdigits2_div_pow2; lia).
  pose proof (Zdigits2_pos m Hm) as Hdm.
  assert (H0 : 0 ≤ m')
    by (rewrite Em'; apply Z.div_pos; [lia | apply Z.pow_pos_nonneg; lia]).
  rewrite fexp_eq in Ee'.
  repeat split; try lia.
  - intros Hm'. pose proof (Zdigits2_pos m' Hm') as Hd'.
    rewrite fexp_eq. lia.
  - intros Hmin.
    assert (Hd' : 0 < Zdigits2 m') by lia.
    destruct m'; simpl in Hd'; lia.
Qed.

Lemma round_nearest_even_bounds (m : Z) (l : location) :
  m ≤ round_nearest_even m l ≤ m + 1.
Proof. destruct l as [|[]]; simpl; try destruct (Z.even m); lia. Qed.

Lemma shr_fexp_zero (e : Z) (l : location) :
  shr_m (fst (shr_fexp prec emax 0 e l)) = 0.
Proof.
  unfold shr_fexp.
  destruct (shr_spec (shr_record_of_loc 0 l) e
              (fexp prec emax (Zdigits2 0 + e) - e)) as [H _];
    [rewrite shr_m_of_loc; lia|].
  rewrite H, shr_m_of_loc. apply Z.div_0_l.
  apply Z.pow_nonzero; lia.
Qed.

(** [binary_round_aux] on a mantissa whose exponent is not above the
    canonical one: the result is rounded, vanishes only below the least
    exponent, and is not below the truncation of the input. *)
Lemma binary_round_aux_spec (s : bool) (m e : Z) (l : location) :
  0 < m → e ≤ fexp prec emax (Zdigits2 m + e) →
  match binary_round_aux prec emax s m e l with
  | S754_zero s' => s' = s ∧ e < -1074
  | S754_infinity s' => s' = s
  | S754_finite s' m' e' =>
      s' = s ∧ bounded prec emax m' e' = true
      ∧ fexp prec emax (Zdigits2 m + e) ≤ e'
      ∧ (e' = fexp prec emax (Zdigits2 m + e) →
         m / 2 ^ (e' - e) ≤ Zpos m')
  | S754_nan => False
  end.
Proof.
  intros Hm He. unfold binary_round_aux.
  pose proof (shr_fexp_spec m e l Hm He) as H1. cbv zeta in H1.
  destruct (shr_fexp prec emax m e l) as [r1 e1]. simpl fst in H1. simpl snd in H1.
  destruct H1 as (Hm1 & He1 & Hm1nn & Hcan1 & Hpos1).
  rewrite <- Hm1 in Hm1nn, Hcan1, Hpos1. rewrite <- He1 in Hm1, Hcan1.
  set (m2 := round_nearest_even (shr_m r1) (loc_of_shr_record r1)).
  pose proof (round_nearest_even_bounds (shr_m r1) (loc_of_shr_record r1)) as Hm2.
  fold m2 in Hm2. clearbody m2.
  destruct (Z.eq_dec m2 0) as [Hz|Hnz].
  - rewrite Hz.
    pose proof (shr_fexp_zero e1 loc_Exact) as H0.
    destruct (shr_fexp prec emax 0 e1 loc_Exact) as [r3 e3]. simpl in H0.
    rewrite H0. split; [reflexivity|].
    destruct (Z.le_gt_cases (-1074) e) as [Hle|Hgt]; [specialize (Hpos1 Hle)|];
      lia.
  - assert (Hm2pos : 0 < m2) by lia.
    assert (He1min : -1074 ≤ e1) by (rewrite He1, fexp_eq; lia).
    assert (He2 : e1 ≤ fexp prec emax (Zdigits2 m2 + e1)).
    { destruct (Z.eq_dec (shr_m r1) 0) as [Hz1|Hnz1].
      - assert (Hlt : m < 2 ^ (e1 - e)).
        { rewrite Hz1 in Hm1. symmetry in Hm1.
          apply Z.div_small_iff in Hm1; [lia|].
          apply Z.pow_nonzero; lia. }
        pose proof (Zdigits2_bounds m Hm) as [Hb _].
        assert (Zdigits2 m - 1 < e1 - e).
        { apply (Z.pow_lt_mono_r_iff 2); lia. }
        rewrite fexp_eq in He1 |- *. lia.
      - assert (Hc : fexp prec emax (Zdigits2 (shr_m r1) + e1) = e1)
          by (apply Hcan1; lia).
        rewrite <- Hc at 1. apply fexp_mono.
        pose proof (Zdigits2_mono (shr_m r1) m2). lia. }
    pose proof (shr_fexp_spec m2 e1 loc_Exact Hm2pos He2) as H3. cbv zeta in H3.
    destruct (shr_fexp prec emax m2 e1 loc_Exact) as [r3 e3].
    simpl fst in H3. simpl snd in H3.
    destruct H3 as (Hm3 & He3 & Hm3nn & Hcan3 & Hpos3).
    specialize (Hpos3 He1min). rewrite <- Hm3 in Hpos3, Hcan3.
    rewrite <- He3 in Hm3, Hcan3.
    destruct (shr_m r3) as [|p|p] eqn:Er3; try lia.
    destruct (e3 <=? emax - prec) eqn:Ele; [|reflexivity].
    split; [reflexivity|]. split.
    + unfold bounded, canonical_mantissa. rewrite Ele, andb_true_r.
      apply Z.eqb_eq. apply Hcan3. lia.
    + split; [lia|]. intros Heq.
      assert (E : e3 = e1) by lia. rewrite E in Hm3 |- *.
      rewrite Z.sub_diag, Z.pow_0_r, Z.div_1_r in Hm3.
      rewrite <- Hm1. lia.
Qed.

(** [binary_round] on any mantissa and exponent. *)
Lemma binary_round_spec (s : bool) (m : positive) (e : Z) :
  match binary_round prec emax s m e with
  | S754_zero s' => s' = s ∧ e < -1074
  | S754_infinity s' => s' = s
  | S754_finite s' m' e' =>
      s' = s ∧ bounded prec emax m' e' = true
      ∧ (e ≤ fexp prec emax (Zdigits2 (Zpos m) + e) →
         fexp prec emax (Zdigits2 (Zpos m) + e) ≤ e'
         ∧ (e' = fexp prec emax (Zdigits2 (Zpos m) + e) →
            Zpos m / 2 ^ (e' - e) ≤ Zpos m'))
  | S754_nan => False
  end.
Proof.
  unfold binary_round, shl_align.
  change (Zpos (digits2_pos m)) with (Zdigits2 (Zpos m)).
  remember (fexp prec emax (Zdigits2 (Zpos m) + e)) as f eqn:Ef.
  assert (Hf : -1074 ≤ f) by (rewrite Ef, fexp_eq; lia).
  destruct (f - e) as [|k|k] eqn:Ek.
  - pose proof (binary_round_aux_spec s (Zpos m) e loc_Exact) as H.
    rewrite <- Ef in H.
    destruct (binary_round_aux prec emax s (Zpos m) e loc_Exact);
      try (apply H; lia).
    destruct H as (? & ? & ?); [lia .. |]. auto.
  - pose proof (binary_round_aux_spec s (Zpos m) e loc_Exact) as H.
    rewrite <- Ef in H.
    destruct (binary_round_aux prec emax s (Zpos m) e loc_Exact);
      try (apply H; lia).
    destruct H as (? & ? & ?); [lia .. |]. auto.
  - pose proof (binary_round_aux_spec s (Zpos (Pos.iter xO m k)) f loc_Exact) as H.
    assert (Hd : Zdigits2 (Zpos (Pos.iter xO m k)) + f = Zdigits2 (Zpos m) + e).
    { rewrite pos_iter_xO, Zdigits2_mul_pow2 by lia. lia. }
    rewrite Hd, <- Ef in H.
    destruct (binary_round_aux prec emax s (Zpos (Pos.iter xO m k)) f loc_Exact).
    + destruct H; lia.
    + apply H; lia.
    + apply H; lia.
    + destruct H as (? & ? & ?); [lia .. |]. repeat split; auto; lia.
Qed.

Lemma rounded_valid (s : bool) (x : number) : rounded s x → valid x.
Proof. destruct x; simpl; unfold valid; simpl; tauto. Qed.

Lemma binary_round_rounded (s : bool) (m : positive) (e : Z) :
  rounded s (binary_round prec emax s m e).
Proof.
  pose proof (binary_round_spec s m e) as H.
  destruct (binary_round prec emax s m e); simpl; tauto.
Qed.

Lemma binary_normalize_valid (m e : Z) (sz : bool) :
  valid (binary_normalize prec emax m e sz).
Proof.
  destruct m; simpl; [reflexivity | |];
    eapply rounded_valid, binary_round_rounded.
Qed.

(** A bounded mantissa has the canonical exponent, which is at least -1074. *)
Lemma bounded_canonical (m : positive) (e : Z) :
  bounded prec emax m e = true →
  fexp prec emax (Zdigits2 (Zpos m) + e) = e ∧ -1074 ≤ e.
Proof.
  unfold bounded, canonical_mantissa. rewrite andb_true_iff, Z.eqb_eq.
  intros [H _]. split; [exact H|]. simpl in H. rewrite fexp_eq in H. lia.
Qed.

Lemma shl_align_fst (m : positive) (e ez : Z) :
  ez ≤ e → Zpos (fst (shl_align m e ez)) = Zpos m * 2 ^ (e - ez).
Proof.
  intros H. unfold shl_align. destruct (ez - e) as [|k|k] eqn:Ek; simpl.
  - replace (e - ez) with 0 by lia. lia.
  - lia.
  - rewrite pos_iter_xO. replace (e - ez) with (Zpos k) by lia. reflexivity.
Qed.

Lemma positive_nonneg (x : number) : positive_ x → nonneg x.
Proof. destruct x as [[]|[]| |[] ? ?]; simpl; tauto. Qed.

Lemma gt_zero_positive (x : number) : gt x zero = true ↔ positive_ x.
Proof. destruct x as [[]|[]| |[] ? ?]; simpl; intuition discriminate. Qed.

(** The sum of two positive finite numbers: positive, bounded and not below
    the first one. *)
Lemma add_finite_pos (mx my : positive) (ex ey : Z) :
  bounded prec emax mx ex = true → bounded prec emax my ey = true →
  match add (S754_finite false mx ex) (S754_finite false my ey) with
  | S754_infinity s => s = false
  | S754_finite s m e =>
      s = false ∧ bounded prec emax m e = true
      ∧ (ex < e ∨ (e = ex ∧ (mx <= m)%positive))
  | _ => False
  end.
Proof.
  intros Hbx Hby.
  destruct (bounded_canonical mx ex Hbx) as [Hcx Hminx].
  destruct (bounded_canonical my ey Hby) as [Hcy Hminy].
  unfold add, SFadd. simpl cond_Zopp.
  set (ez := Z.min ex ey).
  assert (Hzx : ez ≤ ex) by (unfold ez; lia).
  assert (Hzy : ez ≤ ey) by (unfold ez; lia).
  pose proof (shl_align_fst mx ex ez Hzx) as Ha.
  pose proof (shl_align_fst my ey ez Hzy) as Hb.
  set (a := fst (shl_align mx ex ez)) in *.
  set (b := fst (shl_align my ey ez)) in *.
  change (Zpos a + Zpos b) with (Zpos (a + b)).
  unfold binary_normalize.
  pose proof (binary_round_spec false (a + b) ez) as H.
  assert (Hd : Zdigits2 (Zpos mx) + ex ≤ Zdigits2 (Zpos (a + b)) + ez).
  { assert (Zdigits2 (Zpos a) ≤ Zdigits2 (Zpos (a + b)))
      by (apply Zdigits2_mono; lia).
    rewrite Ha, Zdigits2_mul_pow2 in H0 by lia. lia. }
  apply fexp_mono in Hd. rewrite Hcx in Hd.
  destruct (binary_round prec emax false (a + b) ez) as [sz|sz| |sz m e].
  - unfold ez in H. lia.
  - exact H.
  - exact H.
  - destruct H as (Hs & Hbd & Hord); split; [exact Hs|]. split; [exact Hbd|].
    destruct Hord as [Hle Hm]; [lia|].
    destruct (Z.eq_dec e ex) as [->|Hne]; [right | left; lia].
    split; [reflexivity|].
    assert (Heq : ex = fexp prec emax (Zdigits2 (Zpos (a + b)) + ez)) by lia.
    specialize (Hm Heq).
    assert (Hq : Zpos mx ≤ Zpos (a + b) / 2 ^ (ex - ez)).
    { rewrite <- (Z.div_mul (Zpos mx) (2 ^ (ex - ez))) at 1
        by (apply Z.pow_nonzero; lia).
      apply Z.div_le_mono; [apply Z.pow_pos_nonneg; lia | lia]. }
    lia.
Qed.

Lemma le_refl_nonneg (x : number) : nonneg x → le x x = true.
Proof.
  destruct x as [[]|[]| |[] m e]; simpl; try tauto; intros _; try reflexivity.
  unfold le, SFleb, SFcompare. rewrite Z.compare_refl.
  now rewrite Pos.compare_cont_refl.
Qed.

(** Adding a number that is not negative: the sum is valid, not negative
    and not below the first operand; it is positive when the addend is. *)
Lemma add_nonneg (x y : number) :
  valid x → nonneg x → valid y → nonneg y →
  valid (add x y) ∧ nonneg (add x y) ∧ le x (add x y) = true
  ∧ (positive_ y → positive_ (add x y)).
Proof.
  intros Vx Nx Vy Ny.
  destruct x as [[]|[]| |[] mx ex]; simpl in Nx; try tauto;
  destruct y as [[]|[]| |[] my ey]; simpl in Ny; try tauto;
    try (repeat split; solve [reflexivity | exact Vx | exact Vy | tauto
                              | apply le_refl_nonneg; exact I]).
  pose proof (add_finite_pos mx my ex ey Vx Vy) as H.
  destruct (add (S754_finite false mx ex) (S754_finite false my ey))
    as [sz|sz| |sz m e]; try tauto.
  - subst sz. repeat split.
  - destruct H as (-> & Hb & Hord). repeat split; [exact Hb|].
    unfold le, SFleb, SFcompare.
    destruct Hord as [Hlt|[-> Hle]].
    + now rewrite (proj2 (Z.compare_lt_iff _ _) Hlt).
    + rewrite Z.compare_refl. fold (Pos.compare mx m).
      unfold Pos.le in Hle. destruct (mx ?= m)%positive; tauto.
Qed.

(** The sum of two valid numbers is valid, and it is -0 only when both
    operands are. *)
Lemma add_valid (x y : number) :
  valid x → valid y →
  valid (add x y)
  ∧ (add x y = S754_zero true → x = S754_zero true ∧ y = S754_zero true).
Proof.
  intros Vx Vy.
  destruct x as [[]|[]| |sx mx ex]; destruct y as [[]|[]| |sy my ey];
    try (split; [first [reflexivity | exact Vx | exact Vy]
                | simpl; intros; first [discriminate | tauto]]).
  destruct (bounded_canonical mx ex Vx) as [_ Hminx].
  destruct (bounded_canonical my ey Vy) as [_ Hminy].
  unfold add, SFadd.
  set (M := cond_Zopp sx _ + cond_Zopp sy _).
  destruct M as [|p|p]; simpl binary_normalize.
  - split; [reflexivity | discriminate].
  - pose proof (binary_round_spec false p (Z.min ex ey)) as H.
    destruct (binary_round prec emax false p (Z.min ex ey)).
    + lia.
    + split; [reflexivity | discriminate].
    + tauto.
    + split; [apply H | discriminate].
  - pose proof (binary_round_spec true p (Z.min ex ey)) as H.
    destruct (binary_round prec emax true p (Z.min ex ey)).
    + lia.
    + split; [reflexivity | discriminate].
    + tauto.
    + split; [apply H | discriminate].
Qed.

Lemma add_clean (x y : number) : clean x → clean y → clean (add x y).
Proof.
  intros [Vx Nx] [Vy Ny]. destruct (add_valid x y Vx Vy) as [V Z].
  split; [exact V|]. intros E. destruct (Z E). contradiction.
Qed.

(** [0 + x] is [x] itself, -0 apart. *)
Lemma add_zero_l (x : number) : x ≠ S754_zero true → add zero x = x.
Proof. destruct x as [[]|[]| |[] m e]; intros H; try reflexivity. now destruct H. Qed.

Lemma le_trans_nonneg (x y z : number) :
  nonneg x → nonneg y → nonneg z →
  le x y = true → le y z = true → le x z = true.
Proof.
  destruct x as [[]|[]| |[] mx ex]; simpl; try tauto; intros _;
  destruct y as [[]|[]| |[] my ey]; simpl; try tauto; intros _;
  destruct z as [[]|[]| |[] mz ez]; simpl; try tauto; intros _;
    try reflexivity; try discriminate.
  unfold le, SFleb, SFcompare. fold (Pos.compare mx my).
  fold (Pos.compare my mz). fold (Pos.compare mx mz).
  destruct (Z.compare_spec ex ey), (Z.compare_spec ey ez),
    (Z.compare_spec ex ez); try lia; try discriminate; try reflexivity.
  destruct (Pos.compare_spec mx my), (Pos.compare_spec my mz),
    (Pos.compare_spec mx mz); try lia; try discriminate; reflexivity.
Qed.

Lemma ofDecimal_valid (neg : bool) (m e10 : Z) : valid (ofDecimal neg m e10).
Proof.
  unfold ofDecimal. destruct (m =? 0); [reflexivity|].
  destruct (0 <=? e10); [apply binary_normalize_valid|].
  destruct (Z.div_eucl _ _). apply binary_normalize_valid.
Qed.

Lemma parseFloat_valid (s : string) : valid (parseFloat s).
Proof.
  unfold parseFloat.
  destruct (readSign (JsString.trimStart s)) as [neg t].
  destruct (JsString.startsWith "Infinity" t); [reflexivity|].
  destruct (readDigits t 0 0) as [[iv inum] t1].
  set (r := match t1 with String _ _ => _ | EmptyString => _ end).
  destruct r as [[mv fnum] t2].
  destruct ((inum =? 0) && (fnum =? 0)); [reflexivity|].
  apply ofDecimal_valid.
Qed.

(** [x || 0] is a valid number other than NaN and -0. *)
Lemma orElse_zero_clean (x : number) :
  valid x → clean (orElse x zero) ∧ orElse x zero ≠ NaN.
Proof.
  intros V. unfold orElse, clean.
  destruct x as [[]|[]| |[] m e]; simpl; repeat split; auto; discriminate.
Qed.

Lemma orElse_valid (x y : number) : valid x → valid y → valid (orElse x y).
Proof. intros. unfold orElse. now destruct (truthy x). Qed.

End Binary64.

(** ** The lobby component *)
Module LobbyFacts.
Import Lobby.

Lemma normalize_idem (s : string) : normalize (normalize s) = normalize s.
Proof.
  unfold normalize.
  rewrite <- JsStringFacts.toLowerCase_trim, JsStringFacts.toLowerCase_idem.
  now rewrite JsStringFacts.trim_idem.
Qed.

Lemma addresses_filter (input : string) :
  addresses input =
  List.filter isValidAddress (List.map normalize (JsString.split ","%char input)).
Proof.
  unfold addresses. destruct input as [|c s]; reflexivity.
Qed.


End LobbyFacts.

(** ** The flush transaction component *)
Module FlushFacts.
Import JsNumber Flush Binary64.
Local Open Scope list_scope.

(** *** The code-unit order *)

Lemma string_compare_trans (c : comparison) (s1 s2 s3 : string) :
  String.compare s1 s2 = c → String.compare s2 s3 = c → String.compare s1 s3 = c.
Proof.
  revert s2 s3. induction s1 as [|a s1 IH]; intros [|b s2] [|d s3]; simpl;
    try congruence.
  unfold Ascii.compare.
  destruct (N.compare_spec (N_of_ascii a) (N_of_ascii b)) as [E1|L1|L1];
  destruct (N.compare_spec (N_of_ascii b) (N_of_ascii d)) as [E2|L2|L2];
  destruct (N.compare_spec (N_of_ascii a) (N_of_ascii d)) as [E3|L3|L3];
    try congruence; try lia; eauto.
Qed.

Lemma string_compare_eq_l (s1 s2 s3 : string) :
  String.compare s1 s2 = Eq → String.compare s1 s3 = String.compare s2 s3.
Proof. intros H. apply String.compare_eq_iff in H. now subst. Qed.

#[local] Instance codeUnitLe_trans : Transitive codeUnitLe.
Proof.
  intros s1 s2 s3. unfold codeUnitLe, String.leb.
  destruct (String.compare s1 s2) eqn:E1; try discriminate;
  destruct (String.compare s2 s3) eqn:E2; try discriminate; intros _ _.
  - now rewrite (string_compare_eq_l _ _ _ E1), E2.
  - now rewrite (string_compare_eq_l _ _ _ E1), E2.
  - apply String.compare_eq_iff in E2. subst. now rewrite E1.
  - now rewrite (string_compare_trans Lt _ _ _ E1 E2).
Qed.

#[local] Instance codeUnitLe_total : Total codeUnitLe.
Proof. intros s1 s2. apply String.leb_total. Qed.

Lemma codeUnitLe_lt (a b : string) : codeUnitLe a b → a ≠ b → codeUnitLt a b.
Proof.
  unfold codeUnitLe, codeUnitLt, String.leb, String.ltb. intros H Hne.
  destruct (String.compare a b) eqn:E; try discriminate; [|reflexivity].
  apply String.compare_eq_iff in E. contradiction.
Qed.

Lemma codeUnitLt_le (a b : string) : codeUnitLt a b → codeUnitLe a b.
Proof.
  unfold codeUnitLe, codeUnitLt, String.leb, String.ltb.
  destruct (String.compare a b); congruence.
Qed.

(** *** The sorted keys *)

Lemma sortedDates_perm (d : DailyAmounts) :
  sortedDates d ≡ₚ (map_to_list d).*1.
Proof. apply merge_sort_Permutation. Qed.

Lemma sortedDates_elem (d : DailyAmounts) (k : string) :
  k ∈ sortedDates d ↔ is_Some (d !! k).
Proof.
  rewrite sortedDates_perm, list_elem_of_fmap. split.
  - intros [[k' v] [-> H]]. apply elem_of_map_to_list in H. eauto.
  - intros [v H]. exists (k, v). split; [reflexivity|].
    now apply elem_of_map_to_list.
Qed.

Lemma sortedDates_NoDup (d : DailyAmounts) : NoDup (sortedDates d).
Proof. rewrite sortedDates_perm. apply NoDup_fst_map_to_list. Qed.

Lemma sortedDates_sorted (d : DailyAmounts) :
  StronglySorted codeUnitLt (sortedDates d).
Proof.
  pose proof (StronglySorted_merge_sort codeUnitLe (map_to_list d).*1) as H.
  pose proof (sortedDates_NoDup d) as N. unfold sortedDates in *.
  induction H as [|x l Hl IH Hx]; [constructor|].
  apply NoDup_cons in N as [Nx Nl].
  constructor; [auto|].
  rewrite Forall_forall in Hx |- *. intros y Hy.
  apply codeUnitLe_lt; [auto|]. intros ->. contradiction.
Qed.

(** *** The running sum *)

Lemma cumulate_dates (d : DailyAmounts) (c : number) (l : list string) :
  map date (cumulate d c l) = l.
Proof. revert c. induction l as [|k l IH]; intros c; simpl; [|rewrite IH]; reflexivity. Qed.

Lemma cumulate_amount (d : DailyAmounts) (c : number) (l : list string) (t : DailyTotal) :
  t ∈ cumulate d c l → dayAmount t = default NaN (d !! date t).
Proof.
  revert c. induction l as [|k l IH]; intros c; simpl.
  - intros H. inversion H.
  - rewrite elem_of_cons. intros [->|H]; [reflexivity | eauto].
Qed.

Lemma cumulate_step (d : DailyAmounts) (c : number) (l : list string)
    (i : nat) (a b : DailyTotal) :
  cumulate d c l !! i = Some a → cumulate d c l !! S i = Some b →
  cumulative b = add (cumulative a) (dayAmount b).
Proof.
  revert c i. induction l as [|k l IH]; intros c i; simpl; [discriminate|].
  destruct i as [|i]; simpl.
  - intros [= <-]. destruct l as [|k' l]; simpl; [discriminate|].
    now intros [= <-].
  - apply IH.
Qed.

Lemma cumulate_prefix (d : DailyAmounts) (c : number) (l : list string)
    (i : nat) (t : DailyTotal) :
  cumulate d c l !! i = Some t →
  cumulative t = fold_left add (map dayAmount (take (S i) (cumulate d c l))) c.
Proof.
  revert c i. induction l as [|k l IH]; intros c i; simpl; [discriminate|].
  destruct i as [|i]; simpl.
  - now intros [= <-].
  - intros H. now rewrite (IH _ _ H).
Qed.

Lemma last_lookup_length {A} (l : list A) (x : A) :
  last l = Some x → l !! pred (length l) = Some x ∧ take (S (pred (length l))) l = l.
Proof.
  intros H. rewrite last_lookup in H. split; [exact H|].
  apply take_ge. lia.
Qed.

(** *** Validity of the parsed amounts and of the day buckets *)

Lemma internalAmount_clean (columns : list string) : clean (internalAmount columns).
Proof. apply orElse_zero_clean, parseFloat_valid. Qed.

Lemma rowAmount_clean (columns : list string) : clean (rowAmount columns).
Proof. apply orElse_zero_clean, orElse_valid; apply parseFloat_valid. Qed.

Lemma zero_clean : clean zero.
Proof. split; [reflexivity | discriminate]. Qed.

Lemma bucketOrZero_clean (d : DailyAmounts) (k : string) :
  dailyClean d → clean (bucketOrZero d k).
Proof.
  intros H. unfold bucketOrZero. destruct (d !! k) as [v|] eqn:E.
  - apply orElse_zero_clean, (H k v E).
  - apply zero_clean.
Qed.

Lemma dailyClean_insert (d : DailyAmounts) (k : string) (v : number) :
  dailyClean d → clean v → dailyClean (<[k := v]> d).
Proof.
  intros H Hv k' v'. rewrite lookup_insert. case_decide.
  - now intros [= <-].
  - apply H.
Qed.

(** Open a call of [processTransaction] that succeeded: the entry was
    found or created. *)
Ltac transactionEntry :=
  unfold processTransaction;
  destruct (match _ !! _ with Some e => Some e | None => _ end)
    as [?entry|] eqn:?Hentry; simpl; [|discriminate].

Lemma processTransaction_dailyClean (from to_ : string) (a : number)
    (ts : JsDate.Date) (s s' : TransactionSummary) (d d' : DailyAmounts) :
  processTransaction from to_ a ts s d = Some (s', d') →
  clean a → dailyClean d → dailyClean d'.
Proof.
  transactionEntry. destruct (JsDate.toISODay ts) as [k|]; simpl;
    [|discriminate].
  intros [= _ <-] Ha Hd.
  apply dailyClean_insert; [exact Hd|]. apply add_clean; [|exact Ha].
  now apply bucketOrZero_clean.
Qed.

(** *** Sums of positive buckets *)

Lemma codeUnitLe_refl (a : string) : String.leb a a = true.
Proof.
  unfold String.leb. destruct (String.compare a a) eqn:E; try reflexivity.
  pose proof (String.compare_antisym a a) as H. rewrite E in H. discriminate.
Qed.

Lemma codeUnitLt_not_ge (a b : string) : codeUnitLt a b → String.leb b a = false.
Proof.
  unfold codeUnitLt, String.ltb, String.leb. rewrite (String.compare_antisym a b).
  destruct (String.compare b a); simpl; congruence.
Qed.

(** In a series in strictly ascending date order, the entries dated up to
    the date of the entry at index [i] are the first [i + 1] entries. *)
Lemma filter_upto_take (l : list DailyTotal) (i : nat) (t : DailyTotal) :
  StronglySorted (λ a b, codeUnitLt (date a) (date b)) l →
  l !! i = Some t →
  List.filter (λ u, String.leb (date u) (date t)) l = take (S i) l.
Proof.
  intros H. revert i. induction H as [|x l Hl IH Hx]; intros i; [discriminate|].
  rewrite Forall_forall in Hx. destruct i as [|i]; simpl.
  - intros [= ->]. rewrite codeUnitLe_refl. f_equal.
    rewrite take_0. clear IH Hl. induction l as [|y l IHl]; [reflexivity|].
    simpl. rewrite (codeUnitLt_not_ge (date t) (date y)) by (apply Hx; left).
    apply IHl. intros z Hz. apply Hx. now right.
  - intros Hi.
    assert (Ht : t ∈ l) by (eapply list_elem_of_lookup_2; eauto).
    rewrite (codeUnitLt_le _ _ (Hx _ Ht)). f_equal. now apply IH.
Qed.

Lemma cumulate_mono (d : DailyAmounts) (c : number) (l : list string) :
  (∀ k, k ∈ l → ∃ v, d !! k = Some v ∧ valid v ∧ nonneg v) →
  valid c → nonneg c →
  Forall (λ t, valid (cumulative t) ∧ nonneg (cumulative t)
               ∧ le c (cumulative t) = true) (cumulate d c l)
  ∧ StronglySorted (λ a b, le (cumulative a) (cumulative b) = true)
      (cumulate d c l).
Proof.
  revert c. induction l as [|k l IH]; intros c Hl Vc Nc; simpl.
  - split; constructor.
  - destruct (Hl k) as (v & Hv & Vv & Nv); [left|]. rewrite Hv. simpl.
    destruct (add_nonneg c v Vc Nc Vv Nv) as (V1 & N1 & L1 & _).
    destruct (IH (add c v)) as [F S]; [intros; apply Hl; now right | auto ..].
    split.
    + constructor; [simpl; repeat split; assumption|].
      eapply Forall_impl; [exact F|]. simpl.
      intros t (Vt & Nt & Lt). repeat split; auto.
      eapply (le_trans_nonneg c (add c v)); eauto.
    + constructor; [exact S|]. eapply Forall_impl; [exact F|]. simpl. tauto.
Qed.

Lemma StronglySorted_lookup_le {A} (R : A → A → Prop) (l : list A)
    (i j : nat) (a b : A) :
  StronglySorted R l → (i < j)%nat → l !! i = Some a → l !! j = Some b → R a b.
Proof.
  intros H. revert i j. induction H as [|x l Hl IH Hx]; intros i j Hij;
    [discriminate|].
  destruct j as [|j]; [lia|]. destruct i as [|i]; simpl.
  - intros [= ->] Hb. rewrite Forall_forall in Hx. apply Hx.
    eapply list_elem_of_lookup_2; eauto.
  - apply IH. lia.
Qed.

Lemma bucketOrZero_nonneg (d : DailyAmounts) (k : string) :
  dailyPositive d → valid (bucketOrZero d k) ∧ nonneg (bucketOrZero d k).
Proof.
  intros H. unfold bucketOrZero. destruct (d !! k) as [v|] eqn:E.
  - destruct (H k v E) as [V P]. unfold orElse.
    destruct v as [[]|[]| |[] m e]; simpl in *; tauto.
  - split; [reflexivity | exact I].
Qed.

Lemma dailyPositive_insert (d : DailyAmounts) (k : string) (v : number) :
  dailyPositive d → valid v → positive_ v → dailyPositive (<[k := v]> d).
Proof.
  intros H Vv Pv k' v'. rewrite lookup_insert. case_decide.
  - now intros [= <-].
  - apply H.
Qed.

Lemma processTransaction_dailyPositive (from to_ : string) (a : number)
    (ts : JsDate.Date) (s s' : TransactionSummary) (d d' : DailyAmounts) :
  processTransaction from to_ a ts s d = Some (s', d') →
  valid a → positive_ a → dailyPositive d → dailyPositive d'.
Proof.
  transactionEntry. destruct (JsDate.toISODay ts) as [k|]; simpl;
    [|discriminate].
  intros [= _ <-] Va Pa Hd.
  destruct (bucketOrZero_nonneg d k Hd) as [Vb Nb].
  destruct (add_nonneg _ a Vb Nb Va (positive_nonneg _ Pa)) as (V & _ & _ & P).
  apply dailyPositive_insert; auto.
Qed.

Section Lines.
Variable dateParse : string → JsDate.Date.

(** A line of the send and receive views is handed to
    [processTransaction] under the guard [accepted], and is skipped
    otherwise. *)
Lemma processLine_accepted (ty : TransactionType) (line : string)
    (s : TransactionSummary) (d : DailyAmounts) :
  isInternal ty = false →
  processLine dateParse ty line (s, d) =
  if accepted ty line
  then processTransaction (rowFrom (rowColumns line)) (rowTo (rowColumns line))
         (rowAmount (rowColumns line)) (rowTimestamp dateParse (rowColumns line))
         s d
  else Some (s, d).
Proof.
  intros Hty. unfold processLine, accepted. rewrite Hty.
  destruct (length (rowColumns line) <? 15)%nat eqn:El; simpl.
  { now destruct (negb _). }
  rewrite JsStringFacts.columns_not_blank
    by (apply Nat.ltb_ge in El; unfold rowColumns in El; lia).
  simpl.
  destruct (isSend ty && _ && _); simpl; [reflexivity|].
  destruct (isReceive ty && _ && _); reflexivity.
Qed.

Lemma accepted_positive (ty : TransactionType) (line : string) :
  accepted ty line = true →
  valid (rowAmount (rowColumns line)) ∧ positive_ (rowAmount (rowColumns line)).
Proof.
  intros H. split; [apply rowAmount_clean|]. apply gt_zero_positive.
  unfold accepted in H. cbv zeta in H.
  apply andb_true_iff in H as [_ H].
  apply orb_true_iff in H as [H|H]; apply andb_true_iff in H as [_ H]; exact H.
Qed.

Lemma processLine_dailyPositive (ty : TransactionType) (line : string)
    (st st' : TransactionSummary * DailyAmounts) :
  isInternal ty = false →
  processLine dateParse ty line st = Some st' →
  dailyPositive st.2 → dailyPositive st'.2.
Proof.
  destruct st as [s d], st' as [s' d']. intros Hty.
  rewrite (processLine_accepted _ _ _ _ Hty).
  destruct (accepted ty line) eqn:Ha; [|now intros [= <- <-]].
  destruct (accepted_positive _ _ Ha) as [Va Pa]. simpl.
  intros Hp. eapply processTransaction_dailyPositive; eauto.
Qed.

Lemma processLines_dailyPositive (ty : TransactionType) (lines : list string)
    (st st' : TransactionSummary * DailyAmounts) :
  isInternal ty = false →
  processLines dateParse ty lines st = Some st' →
  dailyPositive st.2 → dailyPositive st'.2.
Proof.
  intros Hty. revert st. induction lines as [|line lines IH]; intros st; simpl.
  - now intros [= <-].
  - destruct (processLine dateParse ty line st) as [st1|] eqn:E; simpl;
      [|discriminate].
    intros H Hd. apply (IH _ H). eapply processLine_dailyPositive; eauto.
Qed.

Lemma dailyPositive_empty : dailyPositive ∅.
Proof. intros k v. rewrite lookup_empty. discriminate. Qed.

Lemma processLine_dailyClean (ty : TransactionType) (line : string)
    (st st' : TransactionSummary * DailyAmounts) :
  processLine dateParse ty line st = Some st' →
  dailyClean st.2 → dailyClean st'.2.
Proof.
  destruct st as [s d], st' as [s' d']. unfold processLine. simpl.
  destruct (negb _); [now intros [= <- <-]|].
  destruct (isInternal ty).
  - destruct (_ <? 11)%nat; [now intros [= <- <-]|].
    destruct (JsDate.toISODay _) as [k|]; simpl; [|discriminate].
    intros [= _ <-] Hd. apply dailyClean_insert; [exact Hd|].
    apply add_clean; [now apply bucketOrZero_clean | apply internalAmount_clean].
  - destruct (_ <? 15)%nat; [now intros [= <- <-]|].
    destruct (_ && _ && _).
    { intros H. eapply processTransaction_dailyClean; [exact H|].
      apply rowAmount_clean. }
    destruct (_ && _ && _).
    { intros H. eapply processTransaction_dailyClean; [exact H|].
      apply rowAmount_clean. }
    now intros [= <- <-].
Qed.

Lemma processLines_dailyClean (ty : TransactionType) (lines : list string)
    (st st' : TransactionSummary * DailyAmounts) :
  processLines dateParse ty lines st = Some st' →
  dailyClean st.2 → dailyClean st'.2.
Proof.
  revert st. induction lines as [|line lines IH]; intros st; simpl.
  - now intros [= <-].
  - destruct (processLine dateParse ty line st) as [st1|] eqn:E; simpl;
      [|discriminate].
    intros H Hd. apply (IH _ H). eapply processLine_dailyClean; eauto.
Qed.

Lemma dailyClean_empty : dailyClean ∅.
Proof. intros k v. rewrite lookup_empty. discriminate. Qed.

Lemma flush_inv (ty : TransactionType) (csv : string)
    (summary : TransactionSummary) (totals : list DailyTotal) :
  flush dateParse ty csv = Some (summary, totals) →
  ∃ d, processLines dateParse ty (dataLines csv) (∅, ∅) = Some (summary, d)
       ∧ totals = buildDailyTotals d.
Proof.
  unfold flush.
  destruct (processLines dateParse ty (dataLines csv) (∅, ∅)) as [[s d]|];
    simpl; [|discriminate].
  intros [= <- <-]. eauto.
Qed.

Lemma buildDailyTotals_sorted (d : DailyAmounts) :
  StronglySorted (λ a b, codeUnitLt (date a) (date b)) (buildDailyTotals d).
Proof.
  unfold buildDailyTotals.
  pose proof (sortedDates_sorted d) as H.
  rewrite <- (cumulate_dates d zero (sortedDates d)) in H.
  induction (cumulate d zero (sortedDates d)) as [|x l IH]; [constructor|].
  simpl in H. apply StronglySorted_inv in H as [H1 H2].
  constructor; [auto|]. now rewrite Forall_fmap in H2.
Qed.

(** C2, as amended. Every series of daily totals that the pipeline
    produces, for any CSV text and any transaction type, is in strictly
    ascending order of its date strings compared by code units; the
    cumulative field of the first entry is its amount, each later one is the
    previous cumulative plus the amount of the entry, and the last one is
    the sum of all the amounts. *)
Theorem daily_totals_running_sum (ty : TransactionType) (csv : string)
    (summary : TransactionSummary) (totals : list DailyTotal) :
  flush dateParse ty csv = Some (summary, totals) →
  StronglySorted (λ a b, codeUnitLt (date a) (date b)) totals
  ∧ (∀ t, head totals = Some t → cumulative t = dayAmount t)
  ∧ (∀ i a b, totals !! i = Some a → totals !! S i = Some b →
       cumulative b = add (cumulative a) (dayAmount b))
  ∧ (∀ t, last totals = Some t → cumulative t = total (map dayAmount totals)).
Proof.
  intros Hf. apply flush_inv in Hf as (d & E & ->).
  pose proof (processLines_dailyClean _ _ _ _ E dailyClean_empty) as Hd.
  simpl in Hd. split; [apply buildDailyTotals_sorted|].
  unfold buildDailyTotals. repeat split.
  - intros t Ht.
    assert (Hin : t ∈ cumulate d zero (sortedDates d))
      by (destruct (cumulate d zero (sortedDates d)); simplify_eq/=; left).
    pose proof (cumulate_amount _ _ _ _ Hin) as Ha.
    assert (Hk : date t ∈ sortedDates d).
    { rewrite <- (cumulate_dates d zero (sortedDates d)).
      now apply list_elem_of_fmap_2. }
    apply sortedDates_elem in Hk as [v Hv]. rewrite Hv in Ha. simpl in Ha.
    destruct (sortedDates d) as [|k l]; simpl in Ht; [discriminate|].
    injection Ht as <-. simpl in *. rewrite Hv. simpl.
    apply add_zero_l. apply (Hd _ _ Hv).
  - intros i a b. apply cumulate_step.
  - intros t Ht. apply last_lookup_length in Ht as [Hl Htake].
    rewrite (cumulate_prefix _ _ _ _ _ Hl), Htake. reflexivity.
Qed.

(** C3, as amended. Every series of daily totals that the pipeline
    produces satisfies, for any transaction type: the cumulative field of an
    entry is the sum of the amounts of the entries up to and including it in
    the series, which are the entries whose date string is not greater than
    its own in the order of code units; and for the types send and receive
    the cumulative field is non-decreasing along the series. *)
Theorem daily_totals_cumulative (ty : TransactionType) (csv : string)
    (summary : TransactionSummary) (totals : list DailyTotal) :
  flush dateParse ty csv = Some (summary, totals) →
  (∀ i t, totals !! i = Some t →
     cumulative t = total (map dayAmount (take (S i) totals)))
  ∧ (∀ t, t ∈ totals →
       cumulative t =
       total (map dayAmount
                (List.filter (λ u, String.leb (date u) (date t)) totals)))
  ∧ (isInternal ty = false → nonDecreasing totals).
Proof.
  intros Hf. apply flush_inv in Hf as (d & E & ->).
  pose proof (buildDailyTotals_sorted d) as Hs.
  unfold buildDailyTotals in *. split; [|split].
  - intros i t Hi. apply (cumulate_prefix _ _ _ _ _ Hi).
  - intros t Ht. apply list_elem_of_lookup in Ht as [i Hi].
    rewrite (filter_upto_take _ _ _ Hs Hi).
    apply (cumulate_prefix _ _ _ _ _ Hi).
  - intros Hty.
    pose proof (processLines_dailyPositive _ _ _ _ Hty E dailyPositive_empty)
      as Hd. simpl in Hd.
    destruct (cumulate_mono d zero (sortedDates d)) as [F S];
      [|reflexivity|exact I|].
    { intros k Hk. apply sortedDates_elem in Hk as [v Hv].
      destruct (Hd _ _ Hv) as [V P]. eauto using positive_nonneg. }
    intros i j a b Hij Ha Hb.
    destruct (decide (i = j)) as [->|Hne].
    + rewrite Ha in Hb. injection Hb as <-. apply le_refl_nonneg.
      rewrite Forall_forall in F. apply F.
      eapply list_elem_of_lookup_2; eauto.
    + apply (StronglySorted_lookup_le _ _ i j a b S); [lia | exact Ha | exact Hb].
Qed.

(** *** Groups of the send and receive views *)

Lemma one_valid : valid one ∧ positive_ one.
Proof. split; [reflexivity | exact I]. Qed.

(** What a successful call of [processTransaction] writes. *)
Lemma processTransaction_Some (from to_ : string) (a : number)
    (ts : JsDate.Date) (s s' : TransactionSummary) (d d' : DailyAmounts) :
  processTransaction from to_ a ts s d = Some (s', d') →
  ∃ ms, ts = Some ms
    ∧ s' = <[(if String.eqb from TARGET_ADDRESS then to_ else from) :=
              match s !! (if String.eqb from TARGET_ADDRESS then to_ else from) with
              | Some e =>
                  {| to := to e; hash := hash e;
                     amount := add (amount e) a; count := add (count e) one;
                     firstDate := JsDate.min (firstDate e) (Some ms);
                     lastDate := JsDate.max (lastDate e) (Some ms) |}
              | None =>
                  {| to := if String.eqb from TARGET_ADDRESS then to_ else from;
                     hash := None;
                     amount := add zero a; count := add zero one;
                     firstDate := Some ms; lastDate := Some ms |}
              end]> s
    ∧ d' = <[JsDate.isoDay ms := add (bucketOrZero d (JsDate.isoDay ms)) a]> d.
Proof.
  transactionEntry. destruct ts as [ms|]; simpl; [|discriminate].
  intros [= <- <-]. exists ms. split; [reflexivity|]. split; [|reflexivity].
  f_equal. destruct (s !! _).
  - now injection Hentry as <-.
  - destruct (inheritedKey _); [discriminate|]. injection Hentry as <-. simpl.
    now rewrite Z.min_id, Z.max_id.
Qed.

(** A call of [processTransaction] that succeeds found an own entry, or a
    key that names no inherited member. *)
Lemma processTransaction_inherited (from to_ : string) (a : number)
    (ts : JsDate.Date) (s : TransactionSummary) (d : DailyAmounts) :
  is_Some (processTransaction from to_ a ts s d) →
  is_Some (s !! (if String.eqb from TARGET_ADDRESS then to_ else from))
  ∨ inheritedKey (if String.eqb from TARGET_ADDRESS then to_ else from) = false.
Proof.
  intros [r H]. revert H. transactionEntry. intros _.
  destruct (s !! _); [left; eauto|].
  destruct (inheritedKey _); [discriminate | now right].
Qed.

Lemma processTransaction_mono (from to_ : string) (a : number)
    (ts : JsDate.Date) (s s' : TransactionSummary) (d d' : DailyAmounts) :
  processTransaction from to_ a ts s d = Some (s', d') →
  valid a → positive_ a → summaryNonneg s →
  summaryNonneg s'
  ∧ (∀ k e, s !! k = Some e →
       ∃ e', s' !! k = Some e' ∧ le (amount e) (amount e') = true
             ∧ le (count e) (count e') = true).
Proof.
  intros H Va Pa Hs. apply processTransaction_Some in H as (ms & _ & -> & _).
  set (k0 := if String.eqb from TARGET_ADDRESS then to_ else from).
  destruct one_valid as [V1 P1].
  assert (Hnew : ∀ x, valid x → nonneg x →
            (valid (add x a) ∧ nonneg (add x a) ∧ le x (add x a) = true)
            ∧ (valid (add x one) ∧ nonneg (add x one) ∧ le x (add x one) = true)).
  { intros x Vx Nx.
    destruct (add_nonneg x a Vx Nx Va (positive_nonneg _ Pa)) as (? & ? & ? & _).
    destruct (add_nonneg x one Vx Nx V1 (positive_nonneg _ P1)) as (? & ? & ? & _).
    tauto. }
  split.
  - intros k e. rewrite lookup_insert. case_decide as Hk; [|apply Hs].
    intros [= <-]. destruct (s !! k0) as [e0|] eqn:E0; simpl.
    + destruct (Hs _ _ E0) as (Va0 & Na0 & Vc0 & Nc0).
      destruct (Hnew _ Va0 Na0) as [? _]. destruct (Hnew _ Vc0 Nc0) as [_ ?].
      tauto.
    + destruct (Hnew zero) as [? ?]; [reflexivity | exact I | tauto].
  - intros k e Hk. rewrite lookup_insert. case_decide as Hk0.
    + subst k. rewrite Hk. eexists; split; [reflexivity|]. simpl.
      destruct (Hs _ _ Hk) as (Va0 & Na0 & Vc0 & Nc0).
      destruct (Hnew _ Va0 Na0) as [? _]. destruct (Hnew _ Vc0 Nc0) as [_ ?].
      tauto.
    + exists e. destruct (Hs _ _ Hk) as (Va0 & Na0 & Vc0 & Nc0).
      split; [exact Hk|]. split; now apply le_refl_nonneg.
Qed.

Lemma summaryNonneg_empty : summaryNonneg ∅.
Proof. intros k e. rewrite lookup_empty. discriminate. Qed.

Lemma processLine_mono (ty : TransactionType) (line : string)
    (st st' : TransactionSummary * DailyAmounts) :
  isInternal ty = false →
  processLine dateParse ty line st = Some st' →
  summaryNonneg st.1 →
  summaryNonneg st'.1
  ∧ (∀ k e, st.1 !! k = Some e →
       ∃ e', st'.1 !! k = Some e' ∧ le (amount e) (amount e') = true
             ∧ le (count e) (count e') = true).
Proof.
  destruct st as [s d], st' as [s' d']. intros Hty.
  rewrite (processLine_accepted _ _ _ _ Hty).
  destruct (accepted ty line) eqn:Ha.
  - destruct (accepted_positive _ _ Ha) as [Va Pa]. simpl.
    intros Hp Hs. eapply processTransaction_mono; eauto.
  - intros [= <- <-] Hs. simpl. split; [exact Hs|].
    intros k e Hk. exists e. destruct (Hs _ _ Hk) as (? & ? & ? & ?).
    split; [exact Hk|]. split; now apply le_refl_nonneg.
Qed.

Lemma processLines_mono (ty : TransactionType) (lines : list string)
    (st st' : TransactionSummary * DailyAmounts) :
  isInternal ty = false →
  processLines dateParse ty lines st = Some st' →
  summaryNonneg st.1 →
  summaryNonneg st'.1
  ∧ (∀ k e, st.1 !! k = Some e →
       ∃ e', st'.1 !! k = Some e' ∧ le (amount e) (amount e') = true
             ∧ le (count e) (count e') = true).
Proof.
  intros Hty. revert st. induction lines as [|line lines IH]; intros st; simpl.
  - intros [= <-] Hs. split; [exact Hs|].
    intros k e Hk. exists e. destruct (Hs _ _ Hk) as (? & ? & ? & ?).
    split; [exact Hk|]. split; now apply le_refl_nonneg.
  - destruct (processLine dateParse ty line st) as [st1|] eqn:E; simpl;
      [|discriminate].
    intros H Hs.
    destruct (processLine_mono _ _ _ _ Hty E Hs) as [Hs1 M1].
    destruct (IH _ H Hs1) as [Hs' M2]. split; [exact Hs'|].
    intros k e Hk. destruct (M1 _ _ Hk) as (e1 & Hk1 & La1 & Lc1).
    destruct (M2 _ _ Hk1) as (e2 & Hk2 & La2 & Lc2).
    exists e2. split; [exact Hk2|].
    destruct (Hs _ _ Hk) as (? & ? & ? & ?).
    destruct (Hs1 _ _ Hk1) as (? & ? & ? & ?).
    destruct (Hs' _ _ Hk2) as (? & ? & ? & ?).
    split;
      [apply (le_trans_nonneg (amount e) (amount e1) (amount e2))
      |apply (le_trans_nonneg (count e) (count e1) (count e2))]; assumption.
Qed.

Lemma groupTimes_snoc (ty : TransactionType) (k : string) (L : list string)
    (line : string) :
  groupTimes dateParse ty k (L ++ [line]) =
  groupTimes dateParse ty k L
  ++ (if accepted ty line && String.eqb (rowKey (rowColumns line)) k
      then [rowTimestamp dateParse (rowColumns line)] else []).
Proof.
  unfold groupTimes. rewrite List.filter_app, List.map_app. simpl.
  now destruct (accepted ty line && _).
Qed.

Lemma datesBound_first (k : string) (a c : number) (ms : Z) :
  datesBound {| to := k; hash := None; amount := a; count := c;
                firstDate := Some ms; lastDate := Some ms |} [Some ms].
Proof.
  exists ms, ms. simpl. repeat split; auto.
  intros t [<-|[]]. exists ms. split; [reflexivity | lia].
Qed.

Lemma datesBound_next (e : Transaction) (a c : number)
    (times : list JsDate.Date) (ms : Z) :
  datesBound e times →
  datesBound {| to := to e; hash := hash e; amount := a; count := c;
                firstDate := JsDate.min (firstDate e) (Some ms);
                lastDate := JsDate.max (lastDate e) (Some ms) |}
             (times ++ [Some ms]).
Proof.
  intros (f & l & -> & -> & Hb & Hf & Hl). simpl.
  exists (Z.min f ms), (Z.max l ms). split; [reflexivity|].
  split; [reflexivity|]. split; [|split].
  - intros t Ht. apply in_app_or in Ht as [Ht|[<-|[]]].
    + destruct (Hb _ Ht) as (x & -> & ?). exists x. split; [reflexivity | lia].
    + exists ms. split; [reflexivity | lia].
  - apply in_or_app.
    destruct (Z.min_spec f ms) as [[_ ->]|[_ ->]]; [left | right; left]; auto.
  - apply in_or_app.
    destruct (Z.max_spec l ms) as [[_ ->]|[_ ->]]; [right; left | left]; auto.
Qed.

Lemma processLine_dates (ty : TransactionType) (L : list string) (line : string)
    (st st' : TransactionSummary * DailyAmounts) :
  isInternal ty = false →
  processLine dateParse ty line st = Some st' →
  datesInv dateParse ty L st.1 → datesInv dateParse ty (L ++ [line]) st'.1.
Proof.
  destruct st as [s d], st' as [s' d']. intros Hty.
  rewrite (processLine_accepted _ _ _ _ Hty). simpl.
  destruct (accepted ty line) eqn:Ha.
  - intros H Hinv k. apply processTransaction_Some in H as (ms & Hts & -> & _).
    fold (rowKey (rowColumns line)). rewrite groupTimes_snoc, Ha, Hts. simpl.
    specialize (Hinv k). rewrite lookup_insert. case_decide as Hk.
    + subst k. rewrite String.eqb_refl.
      destruct (s !! rowKey (rowColumns line)) as [e|].
      * now apply datesBound_next.
      * rewrite Hinv. apply datesBound_first.
    + apply String.eqb_neq in Hk. rewrite Hk, app_nil_r. exact Hinv.
  - intros [= <- <-] Hinv k. rewrite groupTimes_snoc, Ha. simpl.
    rewrite app_nil_r. apply Hinv.
Qed.

Lemma processLines_dates (ty : TransactionType) (lines L : list string)
    (st st' : TransactionSummary * DailyAmounts) :
  isInternal ty = false →
  processLines dateParse ty lines st = Some st' →
  datesInv dateParse ty L st.1 → datesInv dateParse ty (L ++ lines) st'.1.
Proof.
  intros Hty. revert L st. induction lines as [|line lines IH]; intros L st; simpl.
  - intros [= <-]. now rewrite app_nil_r.
  - destruct (processLine dateParse ty line st) as [st1|] eqn:E; simpl;
      [|discriminate].
    intros H Hinv.
    replace (L ++ line :: lines) with ((L ++ [line]) ++ lines)
      by (now rewrite <- app_assoc).
    apply (IH _ _ H). eapply processLine_dates; eauto.
Qed.

Lemma datesInv_empty (ty : TransactionType) : datesInv dateParse ty [] ∅.
Proof. intros k. now rewrite lookup_empty. Qed.

(** C5, as amended. In the send and the receive view, during one pass over
    the lines of any CSV text: the amount and the count of every group never
    decrease as further lines are processed, and at every point the first
    and last dates of a group are the least and the greatest of the
    timestamps of the lines processed so far for that group. *)
Theorem summary_groups_monotone (ty : TransactionType) (lines : list string)
    (st : TransactionSummary * DailyAmounts) :
  isInternal ty = false →
  processLines dateParse ty lines (∅, ∅) = Some st →
  (∀ more st', processLines dateParse ty more st = Some st' →
     ∀ k e, st.1 !! k = Some e →
       ∃ e', st'.1 !! k = Some e'
             ∧ le (amount e) (amount e') = true
             ∧ le (count e) (count e') = true)
  ∧ (∀ k e, st.1 !! k = Some e →
       ∃ f l, firstDate e = Some f ∧ lastDate e = Some l
              ∧ (∀ t, In t (groupTimes dateParse ty k lines) →
                   ∃ ms, t = Some ms ∧ f ≤ ms ≤ l)
              ∧ In (Some f) (groupTimes dateParse ty k lines)
              ∧ In (Some l) (groupTimes dateParse ty k lines)).
Proof.
  intros Hty H.
  destruct (processLines_mono _ _ _ _ Hty H summaryNonneg_empty) as [Hs _].
  split.
  - intros more st' H'. apply (processLines_mono _ _ _ _ Hty H' Hs).
  - intros k e Hk.
    pose proof (processLines_dates ty lines [] _ _ Hty H (datesInv_empty ty) k)
      as Hd.
    simpl in Hd. rewrite Hk in Hd. exact Hd.
Qed.

(** *** The internal view *)

Lemma processLine_internal (line : string)
    (s : TransactionSummary) (d : DailyAmounts) :
  processLine dateParse internal line (s, d) =
  if recorded line then
    dateKey ← JsDate.toISODay (rowTimestamp dateParse (rowColumns line));
    Some (if String.eqb (rowHash (rowColumns line)) "__proto__"
             && negb (bool_decide (is_Some (s !! rowHash (rowColumns line))))
          then s
          else <[rowHash (rowColumns line) := lineEntry dateParse line]> s,
          <[dateKey := add (bucketOrZero d dateKey)
                           (internalAmount (rowColumns line))]> d)
  else Some (s, d).
Proof.
  unfold processLine, recorded. simpl.
  destruct (length (rowColumns line) <? 11)%nat eqn:El; simpl.
  { now destruct (negb _). }
  rewrite JsStringFacts.columns_not_blank
    by (apply Nat.ltb_ge in El; unfold rowColumns in El; lia).
  reflexivity.
Qed.

Lemma hashRows_snoc (k : string) (L : list string) (line : string) :
  hashRows k (L ++ [line]) =
  hashRows k L
  ++ (if recorded line && String.eqb (rowHash (rowColumns line)) k
      then [line] else []).
Proof.
  unfold hashRows. rewrite List.filter_app. simpl.
  now destruct (recorded line && _).
Qed.

Lemma processLine_internalInv (L : list string) (line : string)
    (st st' : TransactionSummary * DailyAmounts) :
  processLine dateParse internal line st = Some st' →
  internalInv dateParse L st.1 → internalInv dateParse (L ++ [line]) st'.1.
Proof.
  destruct st as [s d], st' as [s' d']. rewrite processLine_internal. simpl.
  destruct (recorded line) eqn:Hr.
  - destruct (JsDate.toISODay _) as [dk|]; simpl; [|discriminate].
    intros [= <- <-] Hinv k. rewrite hashRows_snoc, Hr. simpl.
    destruct (String.eqb (rowHash (rowColumns line)) "__proto__") eqn:Hp.
    + apply String.eqb_eq in Hp. pose proof (Hinv "__proto__") as Hn.
      rewrite String.eqb_refl in Hn. rewrite Hp, Hn.
      rewrite bool_decide_eq_false_2 by (intros [? [=]]). cbn [negb andb].
      destruct (String.eqb k "__proto__") eqn:Hk.
      * apply String.eqb_eq in Hk. subst k. exact Hn.
      * rewrite (String.eqb_sym "__proto__" k), Hk, app_nil_r.
        specialize (Hinv k).
        now rewrite Hk in Hinv.
    + simpl. rewrite lookup_insert. case_decide as Hk.
      * subst k. now rewrite Hp, String.eqb_refl, last_snoc.
      * apply String.eqb_neq in Hk. rewrite Hk, app_nil_r. apply Hinv.
  - intros [= <- <-] Hinv k. rewrite hashRows_snoc, Hr. simpl.
    rewrite app_nil_r. apply Hinv.
Qed.

Lemma processLines_internalInv (lines L : list string)
    (st st' : TransactionSummary * DailyAmounts) :
  processLines dateParse internal lines st = Some st' →
  internalInv dateParse L st.1 → internalInv dateParse (L ++ lines) st'.1.
Proof.
  revert L st. induction lines as [|line lines IH]; intros L st; simpl.
  - intros [= <-]. now rewrite app_nil_r.
  - destruct (processLine dateParse internal line st) as [st1|] eqn:E; simpl;
      [|discriminate].
    intros H Hinv.
    replace (L ++ line :: lines) with ((L ++ [line]) ++ lines)
      by (now rewrite <- app_assoc).
    apply (IH _ _ H). eapply processLine_internalInv; eauto.
Qed.

(** The pass over the internal file completes exactly when the timestamp of
    every recorded line is a valid date. *)
Lemma processLines_internal_Some (lines : list string)
    (st : TransactionSummary * DailyAmounts) :
  is_Some (processLines dateParse internal lines st) ↔
  ∀ line, In line (List.filter recorded lines) →
    is_Some (rowTimestamp dateParse (rowColumns line)).
Proof.
  revert st. induction lines as [|line lines IH]; intros [s d].
  - simpl. split; [intros _ ? [] | eauto].
  - cbn [processLines List.filter]. rewrite processLine_internal.
    destruct (recorded line) eqn:Hr; simpl.
    + destruct (rowTimestamp dateParse (rowColumns line)) as [ms|] eqn:Ets;
        simpl.
      * rewrite IH. split.
        -- intros H l [<-|Hl]; [rewrite Ets; eauto | auto].
        -- intros H l Hl. apply H. now right.
      * split; [intros [? [=]]|]. intros H.
        destruct (H line) as [? [=]]; [now left|]. congruence.
    + apply IH.
Qed.

Lemma internalInv_dom (L : list string) (s : TransactionSummary) (k : string) :
  internalInv dateParse L s →
  is_Some (s !! k) ↔
  k ∈ List.map (λ line, rowHash (rowColumns line)) (List.filter stored L).
Proof.
  intros Hinv. rewrite (Hinv k), list_elem_of_In, in_map_iff.
  unfold hashRows, stored. split.
  - destruct (String.eqb k "__proto__") eqn:Hp; [intros [? [=]]|].
    intros [e He]. destruct (last _) as [line|] eqn:El; [|discriminate].
    apply last_Some_elem_of, list_elem_of_In, filter_In in El as [Hin Hc].
    apply andb_true_iff in Hc as [Hr Hk]. apply String.eqb_eq in Hk.
    exists line. split; [exact Hk|]. apply filter_In.
    split; [exact Hin|]. now rewrite Hr, Hk, Hp.
  - intros (line & Hk & Hin). apply filter_In in Hin as [Hin Hr].
    apply andb_true_iff in Hr as [Hr Hp]. apply negb_true_iff in Hp.
    rewrite Hk in Hp. rewrite Hp.
    destruct (last _) as [x|] eqn:El; [eauto|].
    apply last_None in El.
    assert (Hx : In line (List.filter
                (λ l, recorded l && String.eqb (rowHash (rowColumns l)) k) L)).
    { apply filter_In. split; [exact Hin|]. rewrite Hr. simpl.
      now apply String.eqb_eq. }
    rewrite El in Hx. destruct Hx.
Qed.

Lemma internalInv_size (L : list string) (s : TransactionSummary) :
  internalInv dateParse L s →
  size s = length (remove_dups (List.map (λ line, rowHash (rowColumns line))
                                         (List.filter stored L))).
Proof.
  intros Hinv.
  set (hs := List.map _ _).
  rewrite <- (size_dom (D := gset string)).
  rewrite <- (size_list_to_set (C := gset string) (remove_dups hs))
    by apply NoDup_remove_dups.
  f_equal. apply set_eq. intros k.
  rewrite elem_of_dom, elem_of_list_to_set, elem_of_remove_dups.
  now apply internalInv_dom.
Qed.

Lemma internalInv_empty : internalInv dateParse [] ∅.
Proof. intros k. rewrite lookup_empty. now destruct (String.eqb _ _). Qed.

(** C4, as amended. In the internal view the pass completes exactly when
    every line with at least 11 columns has a timestamp that is a valid
    date. A line whose hash is [__proto__] leaves no entry: the summary has
    no key [__proto__]. Every other key of the summary is the hash of a line
    with at least 11 columns and holds the entry written for the last such
    line with that hash: its amount, the count 1 and its timestamp as first
    and last date. The number of entries is the number of distinct hashes
    other than [__proto__], which is the number of the lines that carry them
    when these hashes are pairwise distinct. *)
Theorem internal_rows_by_hash (csv : string) :
  let rows := List.filter recorded (dataLines csv) in
  let kept := List.filter stored (dataLines csv) in
  let hashes := List.map (λ line, rowHash (rowColumns line)) kept in
  (is_Some (flush dateParse internal csv) ↔
   ∀ line, In line rows → is_Some (rowTimestamp dateParse (rowColumns line)))
  ∧ (∀ summary totals,
       flush dateParse internal csv = Some (summary, totals) →
       summary !! "__proto__" = None
       ∧ (∀ k, k ≠ "__proto__" →
            summary !! k =
             (λ line, {| to := EmptyString; hash := Some k;
                         amount := internalAmount (rowColumns line);
                         count := one;
                         firstDate := rowTimestamp dateParse (rowColumns line);
                         lastDate := rowTimestamp dateParse (rowColumns line) |})
             <$> last (hashRows k (dataLines csv)))
       ∧ size summary = length (remove_dups hashes)
       ∧ (NoDup hashes → size summary = length kept)).
Proof.
  intros rows kept hashes. split.
  - unfold rows. rewrite <- (processLines_internal_Some (dataLines csv) (∅, ∅)).
    unfold flush.
    destruct (processLines dateParse internal (dataLines csv) (∅, ∅))
      as [[s d]|]; simpl; split; intros [x Hx]; eauto; discriminate.
  - intros summary totals Hf. apply flush_inv in Hf as (d & E & _).
    pose proof (processLines_internalInv _ [] _ _ E internalInv_empty) as Hinv.
    simpl in Hinv. split; [|split; [|split]].
    + now rewrite (Hinv "__proto__").
    + intros k Hk. rewrite (Hinv k). apply String.eqb_neq in Hk. rewrite Hk.
      destruct (last (hashRows k (dataLines csv))) as [line|] eqn:El;
        [|reflexivity].
      simpl. f_equal. unfold lineEntry, internalEntry.
      apply last_Some_elem_of, list_elem_of_In, filter_In in El as [_ Hc].
      apply andb_true_iff in Hc as [_ Hh]. apply String.eqb_eq in Hh.
      now rewrite Hh.
    + now apply internalInv_size.
    + intros Hnd. rewrite (internalInv_size _ _ Hinv).
      fold kept. fold hashes.
      rewrite <- (length_map (λ line, rowHash (rowColumns line)) kept).
      fold hashes. f_equal. clear -Hnd.
      induction hashes as [|h hs IH]; [reflexivity|].
      apply NoDup_cons in Hnd as [Hh Hnd]. simpl.
      destruct (decide_rel elem_of h hs); [contradiction|]. f_equal. auto.
Qed.

(** *** Single lines *)

Lemma rowAmount_first_truthy (columns : list string) :
  rowAmount columns =
  let a7 := parseFloat (JsString.stripQuotes (column columns 7)) in
  let a8 := parseFloat (JsString.stripQuotes (column columns 8)) in
  if truthy a7 then a7 else if truthy a8 then a8 else zero.
Proof.
  unfold rowAmount, orElse. cbv zeta.
  destruct (truthy (parseFloat (JsString.stripQuotes (column columns 7)))) eqn:E7.
  - now rewrite E7.
  - now destruct (truthy (parseFloat (JsString.stripQuotes (column columns 8)))).
Qed.

Lemma accepted_iff (ty : TransactionType) (line : string) :
  isInternal ty = false →
  accepted ty line = true ↔
  (15 ≤ length (rowColumns line))%nat
  ∧ (if isSend ty then rowFrom (rowColumns line) else rowTo (rowColumns line))
    = TARGET_ADDRESS
  ∧ gt (rowAmount (rowColumns line)) zero = true.
Proof.
  intros Hty. unfold accepted. cbv zeta.
  rewrite andb_true_iff, negb_true_iff, Nat.ltb_ge, orb_true_iff,
    !andb_true_iff, !String.eqb_eq.
  destruct ty; simpl in *; try discriminate; intuition discriminate.
Qed.

Lemma processTransaction_empty (from to_ : string) (a : number) (ms : Z) :
  inheritedKey (if String.eqb from TARGET_ADDRESS then to_ else from) = false →
  processTransaction from to_ a (Some ms) ∅ ∅ =
  Some ({[ (if String.eqb from TARGET_ADDRESS then to_ else from) :=
             {| to := if String.eqb from TARGET_ADDRESS then to_ else from;
                hash := None; amount := add zero a; count := add zero one;
                firstDate := Some ms; lastDate := Some ms |} ]},
        {[ JsDate.isoDay ms := add zero a ]}).
Proof.
  intros Hk. unfold processTransaction, bucketOrZero.
  rewrite !lookup_empty, Hk.
  cbn [JsDate.toISODay fmap option_fmap option_map mbind
    option_bind JsDate.min JsDate.max firstDate lastDate to hash amount count].
  now rewrite Z.min_id, Z.max_id.
Qed.

(** Both ends of a transfer are lower-cased, and so is the key of its
    group. *)
Lemma rowKey_lower (columns : list string) :
  JsString.toLowerCase (rowKey columns) = rowKey columns.
Proof.
  unfold rowKey, rowFrom, rowTo.
  destruct (String.eqb _ _); apply JsStringFacts.toLowerCase_idem.
Qed.

(** Of the inherited member names only two are lower-case. *)
Lemma inheritedKey_lower (k : string) :
  JsString.toLowerCase k = k →
  inheritedKey k = true ↔ k = "constructor" ∨ k = "__proto__".
Proof.
  intros Hl. split.
  - unfold inheritedKey. rewrite existsb_exists. intros (x & Hin & Hx).
    apply String.eqb_eq in Hx. subst x.
    repeat (destruct Hin as [<-|Hin];
            [first [now left | now right | discriminate Hl]|]).
    destruct Hin.
  - now intros [->| ->].
Qed.

(** C1, as amended. For a line of the send or receive view that splits into
    at least 15 columns: the amount of the row is the first of the two
    candidate columns 7 and 8 whose [parseFloat] is neither NaN nor zero,
    and 0 when there is none; the row is skipped unless its lower-cased
    from column (send) or to column (receive) is the target address and that
    amount is greater than 0. The key of its group, the lower-cased address
    of the other party, names a member that every object inherits exactly
    when it is [constructor] or [__proto__]; a row that is not skipped and
    has such a key without a group of that key makes the pass throw.
    Otherwise, when its timestamp is a valid date, the row adds its amount
    and 1 to the amount and count of the group of the other party and its
    amount to the bucket of its day. In particular a send row from the
    target whose columns 7 and 8 hold 100.5 and 200.3 and whose to address
    is neither of the two names turns the empty summary into the single
    group of its to address with amount 100.5 and count 1. *)
Theorem send_receive_row (ty : TransactionType) (line : string)
    (s : TransactionSummary) (d : DailyAmounts) :
  isInternal ty = false →
  (15 ≤ length (rowColumns line))%nat →
  let columns := rowColumns line in
  let a7 := parseFloat (JsString.stripQuotes (column columns 7)) in
  let a8 := parseFloat (JsString.stripQuotes (column columns 8)) in
  let party := if isSend ty then rowFrom columns else rowTo columns in
  rowAmount columns = (if truthy a7 then a7 else if truthy a8 then a8 else zero)
  ∧ (¬ (party = TARGET_ADDRESS ∧ gt (rowAmount columns) zero = true) →
     processLine dateParse ty line (s, d) = Some (s, d))
  ∧ (inheritedKey (rowKey columns) = true ↔
     rowKey columns = "constructor" ∨ rowKey columns = "__proto__")
  ∧ (party = TARGET_ADDRESS → gt (rowAmount columns) zero = true →
     s !! rowKey columns = None → inheritedKey (rowKey columns) = true →
     processLine dateParse ty line (s, d) = None)
  ∧ (party = TARGET_ADDRESS → gt (rowAmount columns) zero = true →
     is_Some (s !! rowKey columns) ∨ inheritedKey (rowKey columns) = false →
     ∀ ms, rowTimestamp dateParse columns = Some ms →
     ∃ e, processLine dateParse ty line (s, d)
          = Some (<[rowKey columns := e]> s,
                  <[JsDate.isoDay ms :=
                      add (bucketOrZero d (JsDate.isoDay ms)) (rowAmount columns)]> d)
          ∧ amount e = add (from_option amount zero (s !! rowKey columns))
                           (rowAmount columns)
          ∧ count e = add (from_option count zero (s !! rowKey columns)) one)
  ∧ (ty = send → rowFrom columns = TARGET_ADDRESS →
     JsString.stripQuotes (column columns 7) = "100.5" →
     JsString.stripQuotes (column columns 8) = "200.3" →
     inheritedKey (rowTo columns) = false →
     ∀ ms, rowTimestamp dateParse columns = Some ms →
     parseFloat "100.5" = S754_finite false 7072058789855232 (-46)
     ∧ processLine dateParse ty line (∅, ∅)
       = Some ({[ rowTo columns :=
                    {| to := rowTo columns; hash := None;
                       amount := parseFloat "100.5"; count := one;
                       firstDate := Some ms; lastDate := Some ms |} ]},
               {[ JsDate.isoDay ms := parseFloat "100.5" ]})).
Proof.
  intros Hty Hlen columns a7 a8 party.
  pose proof (accepted_iff ty line Hty) as Hacc. fold columns party in Hacc.
  split; [apply rowAmount_first_truthy|]. split; [|split; [|split; [|split]]].
  - intros Hn. rewrite (processLine_accepted _ _ _ _ Hty).
    destruct (accepted ty line); [|reflexivity].
    destruct Hn. now apply Hacc.
  - apply inheritedKey_lower, rowKey_lower.
  - intros Hp Hgt Hnone Hinh. rewrite (processLine_accepted _ _ _ _ Hty).
    replace (accepted ty line) with true by (symmetry; apply Hacc; auto).
    fold columns. unfold processTransaction. fold (rowKey columns).
    now rewrite Hnone, Hinh.
  - intros Hp Hgt Hkey ms Hts. rewrite (processLine_accepted _ _ _ _ Hty).
    replace (accepted ty line) with true by (symmetry; apply Hacc; auto).
    fold columns. rewrite Hts. unfold processTransaction.
    fold (rowKey columns).
    destruct (s !! rowKey columns) as [e0|] eqn:E0.
    + simpl. eexists. split; [reflexivity|]. simpl. split; reflexivity.
    + destruct Hkey as [[? [=]]|Hkey]. rewrite Hkey. simpl.
      eexists. split; [reflexivity|]. simpl. split; reflexivity.
  - intros -> Hfrom H7 H8 Hkey ms Hts.
    split; [vm_compute; reflexivity|].
    assert (Ha : rowAmount columns = parseFloat "100.5").
    { rewrite rowAmount_first_truthy. cbv zeta. fold columns. now rewrite H7. }
    rewrite (processLine_accepted _ _ _ _ Hty).
    replace (accepted send line) with true.
    2:{ symmetry. apply Hacc. repeat split; auto. now rewrite Ha. }
    fold columns. rewrite Hts, Ha, Hfrom, processTransaction_empty
      by (now rewrite String.eqb_refl).
    rewrite String.eqb_refl.
    assert (Hadd : add zero (parseFloat "100.5") = parseFloat "100.5")
      by (vm_compute; reflexivity).
    assert (Hone : add zero one = one) by (vm_compute; reflexivity).
    now rewrite Hadd, Hone.
Qed.

(** C10, as amended. In the internal view a line with at least 11 columns
    whose amount column is empty, unparseable or zero (its [parseFloat] is
    NaN or a zero) and whose timestamp is a valid date is recorded with the
    amount 0: it adds 0 to the bucket of its day and, unless its hash is
    [__proto__], writes the entry of its hash with amount 0 and count 1;
    under the hash [__proto__] it leaves the summary, which has no key of
    that name at any point of a pass, as it was. In the send and receive
    views a line whose amount is not greater than 0 leaves both accumulators
    as they were. *)
Theorem internal_zero_amount_row (line : string)
    (s : TransactionSummary) (d : DailyAmounts) (ms : Z) :
  (11 ≤ length (rowColumns line))%nat →
  truthy (parseFloat (JsString.stripQuotes (column (rowColumns line) 10))) = false →
  rowTimestamp dateParse (rowColumns line) = Some ms →
  let entry :=
    {| to := EmptyString; hash := Some (rowHash (rowColumns line));
       amount := zero; count := one;
       firstDate := Some ms; lastDate := Some ms |} in
  let bucket :=
    <[JsDate.isoDay ms := add (bucketOrZero d (JsDate.isoDay ms)) zero]> d in
  truthy (parseFloat EmptyString) = false
  ∧ (rowHash (rowColumns line) ≠ "__proto__"
     ∨ is_Some (s !! rowHash (rowColumns line)) →
     processLine dateParse internal line (s, d)
     = Some (<[rowHash (rowColumns line) := entry]> s, bucket))
  ∧ (rowHash (rowColumns line) = "__proto__" → s !! "__proto__" = None →
     processLine dateParse internal line (s, d) = Some (s, bucket))
  ∧ (∀ ty line' st, isInternal ty = false →
       gt (rowAmount (rowColumns line')) zero = false →
       processLine dateParse ty line' st = Some st)
  ∧ (∀ lines st, processLines dateParse internal lines (∅, ∅) = Some st →
       st.1 !! "__proto__" = None).
Proof.
  intros Hlen Hz Hts entry bucket. split; [reflexivity|].
  assert (Hline : processLine dateParse internal line (s, d) =
            Some (if String.eqb (rowHash (rowColumns line)) "__proto__"
                     && negb (bool_decide
                                (is_Some (s !! rowHash (rowColumns line))))
                  then s else <[rowHash (rowColumns line) := entry]> s,
                  bucket)).
  { rewrite processLine_internal. unfold recorded.
    replace (length (rowColumns line) <? 11)%nat with false
      by (symmetry; apply Nat.ltb_ge; lia).
    cbn [negb]. rewrite Hts.
    cbn [JsDate.toISODay fmap option_fmap option_map mbind option_bind].
    unfold lineEntry, internalEntry, internalAmount.
    rewrite Hts. unfold orElse. rewrite Hz. reflexivity. }
  split; [|split; [|split]].
  - intros [Hh|Hh]; rewrite Hline.
    + apply String.eqb_neq in Hh. now rewrite Hh.
    + rewrite (bool_decide_eq_true_2 _ Hh). now rewrite andb_false_r.
  - intros Hh Hn. rewrite Hline, Hh, Hn.
    now rewrite bool_decide_eq_false_2 by (intros [? [=]]).
  - intros ty line' [s' d'] Hty Hgt.
    rewrite (processLine_accepted _ _ _ _ Hty).
    destruct (accepted ty line') eqn:Ha; [|reflexivity].
    apply (accepted_iff _ _ Hty) in Ha as (_ & _ & Hpos). congruence.
  - intros lines st H.
    now rewrite (processLines_internalInv _ [] _ _ H internalInv_empty
                   "__proto__").
Qed.

End Lines.

End FlushFacts.

(** ** The stakes component *)
Module StakesFacts.
Import JsNumber Stakes.

Lemma keepStake_status (dateParse : string → JsDate.Date) (f : StatusFilter)
    (fs : Filters) (stake : StakeStart) :
  keepStake dateParse (withStatus f fs) stake =
  negb (statusRejects f stake) && keepStake dateParse (withStatus all fs) stake.
Proof.
  unfold keepStake, statusRejects, withStatus. simpl.
  destruct (isActive f && _); [reflexivity|].
  destruct (isEnded f && _); reflexivity.
Qed.

Lemma statusRejects_cases (stake : StakeStart) :
  statusRejects all stake = false
  ∧ (statusRejects active stake = false ↔ stakeEnd stake = None)
  ∧ (statusRejects ended stake = false ↔ ∃ e, stakeEnd stake = Some e).
Proof.
  unfold statusRejects. destruct (stakeEnd stake) as [e|]; simpl.
  - intuition (eauto; discriminate).
  - intuition (eauto; try discriminate). destruct H as [? [=]].
Qed.

Lemma statusRejects_bool (stake : StakeStart) :
  negb (statusRejects active stake) = bool_decide (stakeEnd stake = None)
  ∧ negb (statusRejects ended stake) = bool_decide (is_Some (stakeEnd stake))
  ∧ negb (statusRejects all stake) = true.
Proof.
  destruct (statusRejects_cases stake) as (Hall & Hact & Hend).
  split; [|split].
  - destruct (statusRejects active stake); case_bool_decide as H;
      try reflexivity.
    + apply Hact in H. discriminate.
    + destruct H. now apply Hact.
  - destruct (statusRejects ended stake); case_bool_decide as H;
      try reflexivity.
    + apply Hend in H. discriminate.
    + destruct H. now apply Hend.
  - now rewrite Hall.
Qed.

Lemma keepStake_passesOther (dateParse : string → JsDate.Date)
    (fs : Filters) (stake : StakeStart) :
  keepStake dateParse (withStatus all fs) stake = passesOther dateParse fs stake.
Proof.
  unfold keepStake, passesOther, searchRejects, inRange, getEndTimestamp,
    withStatus.
  cbn [statusFilter searchAddress startDateRange endDateRange isActive isEnded
       andb].
  destruct (JsString.truthy (JsString.trim (searchAddress fs)) && _);
    [reflexivity|].
  cbv zeta.
  destruct (lt (parseInt (timestamp stake)) _); [reflexivity|].
  destruct (gt (parseInt (timestamp stake)) _); [reflexivity|].
  destruct (lt _ _); [reflexivity|].
  destruct (gt _ _); reflexivity.
Qed.

Lemma filter_keepStake (dateParse : string → JsDate.Date) (f : StatusFilter)
    (fs : Filters) (page : list StakeStart) :
  filteredStakes dateParse (withStatus f fs) (Some page) =
  List.filter (λ st, negb (statusRejects f st) && passesOther dateParse fs st)
    page.
Proof.
  simpl. apply filter_ext. intros st.
  now rewrite keepStake_status, keepStake_passesOther.
Qed.

(** C6. With the other filter states fixed, the status selection active
    keeps a stake exactly when it has no stake end and passes the other
    criteria, the selection ended exactly when it has a stake end and passes
    them, and the selection all rejects no stake on its status. The other
    criteria are the address search and the two date ranges, and the
    filtered list is the fetched page, in its order, without the stakes that
    the selection or one of these criteria rejects: every stake of the page
    that they accept is in it. Without fetched data the list is empty. *)
Theorem status_filter_by_stake_end (dateParse : string → JsDate.Date)
    (fs : Filters) (stake : StakeStart) :
  (keepStake dateParse (withStatus active fs) stake = true ↔
   stakeEnd stake = None ∧ keepStake dateParse (withStatus all fs) stake = true)
  ∧ (keepStake dateParse (withStatus ended fs) stake = true ↔
     (∃ e, stakeEnd stake = Some e)
     ∧ keepStake dateParse (withStatus all fs) stake = true)
  ∧ statusRejects all stake = false
  ∧ (∀ page,
       filteredStakes dateParse (withStatus active fs) (Some page) =
       List.filter (λ st, bool_decide (stakeEnd st = None))
         (filteredStakes dateParse (withStatus all fs) (Some page)))
  ∧ keepStake dateParse (withStatus all fs) stake
    = passesOther dateParse fs stake
  ∧ (∀ page,
       filteredStakes dateParse (withStatus active fs) (Some page)
       = List.filter (λ st, bool_decide (stakeEnd st = None)
                            && passesOther dateParse fs st) page
       ∧ filteredStakes dateParse (withStatus ended fs) (Some page)
         = List.filter (λ st, bool_decide (is_Some (stakeEnd st))
                              && passesOther dateParse fs st) page
       ∧ filteredStakes dateParse (withStatus all fs) (Some page)
         = List.filter (passesOther dateParse fs) page)
  ∧ (∀ page,
       In stake page → passesOther dateParse fs stake = true →
       In stake (filteredStakes dateParse (withStatus all fs) (Some page))
       ∧ (stakeEnd stake = None →
          In stake (filteredStakes dateParse (withStatus active fs) (Some page)))
       ∧ (is_Some (stakeEnd stake) →
          In stake (filteredStakes dateParse (withStatus ended fs) (Some page))))
  ∧ filteredStakes dateParse fs None = [].
Proof.
  destruct (statusRejects_cases stake) as (Hall & Hact & Hend).
  split; [|split; [|split; [exact Hall|split; [|split; [|split; [|split]]]]]].
  - rewrite (keepStake_status _ active), andb_true_iff, negb_true_iff.
    now rewrite Hact.
  - rewrite (keepStake_status _ ended), andb_true_iff, negb_true_iff.
    now rewrite Hend.
  - intros page. simpl. induction page as [|st page IH]; [reflexivity|].
    simpl. rewrite (keepStake_status _ active).
    destruct (statusRejects_cases st) as (_ & Ha & _).
    destruct (keepStake dateParse (withStatus all fs) st); simpl.
    + destruct (statusRejects active st) eqn:E; simpl.
      * rewrite bool_decide_false, IH; [reflexivity|].
        intros Hn. apply Ha in Hn. discriminate.
      * rewrite bool_decide_true, IH by now apply Ha. reflexivity.
    + rewrite andb_false_r. exact IH.
  - apply keepStake_passesOther.
  - intros page. rewrite !filter_keepStake. repeat split; apply filter_ext;
      intros st; destruct (statusRejects_bool st) as (Ea & Ee & El).
    + now rewrite Ea.
    + now rewrite Ee.
  - intros page Hin Hp. rewrite !filter_keepStake. repeat split.
    + apply filter_In. split; [exact Hin|]. now rewrite Hall.
    + intros Hn. apply filter_In. split; [exact Hin|].
      apply Hact in Hn. now rewrite Hn.
    + intros [e He]. apply filter_In. split; [exact Hin|].
      assert (Hn : statusRejects ended stake = false) by (apply Hend; eauto).
      now rewrite Hn.
  - reflexivity.
Qed.

(** C7. In the stakes table and in the flush table alike: the sort handler
    applied to the active field flips the direction, so that two
    applications to the same field restore the state; applied to another
    field it makes that field active with the descending direction,
    whatever the direction was. *)
Theorem sort_handlers_toggle :
  (∀ f, handleSort f (f, asc) = (f, desc) ∧ handleSort f (f, desc) = (f, asc))
  ∧ (∀ f d, handleSort f (handleSort f (f, d)) = (f, d))
  ∧ (∀ f g d, f ≠ g → handleSort g (f, d) = (g, desc))
  ∧ (∀ f, Flush.toggleSort f (f, Flush.asc) = (f, Flush.desc)
          ∧ Flush.toggleSort f (f, Flush.desc) = (f, Flush.asc))
  ∧ (∀ f d, Flush.toggleSort f (Flush.toggleSort f (f, d)) = (f, d))
  ∧ (∀ f g d, f ≠ g → Flush.toggleSort g (f, d) = (g, Flush.desc)).
Proof.
  repeat split.
  - now destruct f.
  - now destruct f.
  - now destruct f, d.
  - intros f g d Hne. destruct f, g; try reflexivity; now destruct Hne.
  - now destruct f.
  - now destruct f.
  - now destruct f, d.
  - intros f g d Hne. destruct f, g; try reflexivity; now destruct Hne.
Qed.



End StakesFacts.

(** ** The statements on the sample inputs *)
Module Scenarios.
Import JsNumber Flush Samples.
Local Open Scope list_scope.

(** The send row of 100.5 against the empty accumulators, and the same row
    sent to [Constructor]. *)
Lemma send_receive_row_witness :
  processLine JsDate.parseDateOnly send sendRow (∅, ∅)
  = Some ({[ "0xb0b" :=
               {| to := "0xb0b"; hash := None;
                  amount := parseFloat "100.5"; count := one;
                  firstDate := Some 1704412800000;
                  lastDate := Some 1704412800000 |} ]},
          {[ "2024-01-05" := parseFloat "100.5" ]})
  ∧ rowKey (rowColumns constructorSendRow) = "constructor"
  ∧ processLine JsDate.parseDateOnly send constructorSendRow (∅, ∅) = None.
Proof.
  split; [|split; [reflexivity|]].
  - destruct (FlushFacts.send_receive_row JsDate.parseDateOnly send sendRow ∅ ∅)
      as (_ & _ & _ & _ & _ & H); [reflexivity | vm_compute; lia |].
    destruct (H eq_refl eq_refl eq_refl eq_refl eq_refl 1704412800000 eq_refl)
      as [_ H'].
    exact H'.
  - destruct (FlushFacts.send_receive_row JsDate.parseDateOnly send
                constructorSendRow ∅ ∅)
      as (_ & _ & _ & H & _); [reflexivity | vm_compute; lia |].
    exact (H eq_refl eq_refl eq_refl eq_refl).
Defined.

(** C1 fails as stated: on the row whose candidate columns hold -5 and 10
    the first positive candidate is 10, but the amount of the row is -5 and
    the row, sent by the target, leaves the accumulators empty; a row that
    passes the guard with an empty timestamp column makes the callback
    throw, and so does one sent to [Constructor]. *)
Lemma first_positive_candidate_counterexample :
  ¬ (∀ line a, (15 ≤ length (rowColumns line))%nat →
       firstPositiveCandidate (rowColumns line) = Some a →
       rowAmount (rowColumns line) = a)
  ∧ (rowFrom (rowColumns negativeFirstRow) = TARGET_ADDRESS
     ∧ firstPositiveCandidate (rowColumns negativeFirstRow) = Some (ofZ 10)
     ∧ rowAmount (rowColumns negativeFirstRow) = ofZ (-5)
     ∧ processLine JsDate.parseDateOnly send negativeFirstRow (∅, ∅)
       = Some (∅, ∅))
  ∧ (accepted send undatedSendRow = true
     ∧ processLine JsDate.parseDateOnly send undatedSendRow (∅, ∅) = None)
  ∧ (accepted send constructorSendRow = true
     ∧ rowTimestamp JsDate.parseDateOnly (rowColumns constructorSendRow)
       = Some 1704412800000
     ∧ processLine JsDate.parseDateOnly send constructorSendRow (∅, ∅) = None).
Proof.
  split; [|split; [|split]].
  - intros H.
    specialize (H negativeFirstRow (ofZ 10)).
    assert (E : rowAmount (rowColumns negativeFirstRow) = ofZ 10)
      by (apply H; [vm_compute; lia | vm_compute; reflexivity]).
    vm_compute in E. discriminate.
  - repeat split; vm_compute; reflexivity.
  - split; vm_compute; reflexivity.
  - repeat split; vm_compute; reflexivity.
Qed.

Lemma twoInternals_flush :
  flush JsDate.parseDateOnly internal twoInternals
  = Some (twoInternalsSummary, twoInternalsTotals).
Proof. vm_compute. reflexivity. Qed.

Lemma sameHashTwice_flush :
  flush JsDate.parseDateOnly internal sameHashTwice
  = Some (sameHashTwiceSummary, sameHashTwiceTotals).
Proof. vm_compute. reflexivity. Qed.

(** The two sends: the last cumulative value, 107.5, is the sum 7 + 100.5. *)
Lemma daily_totals_running_sum_witness :
  flush JsDate.parseDateOnly send twoSends = Some (twoSendsSummary, twoSendsTotals)
  ∧ ∀ t, last twoSendsTotals = Some t →
      cumulative t = total (map dayAmount twoSendsTotals).
Proof.
  assert (E : flush JsDate.parseDateOnly send twoSends
              = Some (twoSendsSummary, twoSendsTotals))
    by (vm_compute; reflexivity).
  split; [exact E|].
  exact (proj2 (proj2 (proj2
    (FlushFacts.daily_totals_running_sum JsDate.parseDateOnly send twoSends
       twoSendsSummary twoSendsTotals E)))).
Defined.

(** The two sends: the cumulative values 7 and 107.5 do not decrease. *)
Lemma daily_totals_cumulative_witness :
  flush JsDate.parseDateOnly send twoSends = Some (twoSendsSummary, twoSendsTotals)
  ∧ nonDecreasing twoSendsTotals.
Proof.
  assert (E : flush JsDate.parseDateOnly send twoSends
              = Some (twoSendsSummary, twoSendsTotals))
    by (vm_compute; reflexivity).
  split; [exact E|].
  exact (proj2 (proj2
    (FlushFacts.daily_totals_cumulative JsDate.parseDateOnly send twoSends
       twoSendsSummary twoSendsTotals E)) eq_refl).
Defined.

(** The send view of the transfers of 2024 and of the year 10000: the day
    of the year 10000 comes first. *)
Lemma farFuture_flush :
  snd <$> flush JsDate.parseDateExpanded send farFuture = Some farFutureTotals.
Proof. vm_compute. reflexivity. Qed.

(** C2 fails as stated: the series of a transfer on 2024-01-05 and of one
    on the first day of the year 10000 has the later day first, its date
    string, +010000-01-01, being the smaller one by code units. *)
Lemma date_order_counterexample :
  ¬ (∀ ty csv summary totals,
       flush JsDate.parseDateExpanded ty csv = Some (summary, totals) →
       ascendingByDate JsDate.parseDateExpanded totals)
  ∧ (snd <$> flush JsDate.parseDateExpanded send farFuture
     = Some farFutureTotals
     ∧ map date farFutureTotals = ["+010000-01-01"; "2024-01-05"]
     ∧ JsDate.parseDateExpanded "+010000-01-01" = Some 253402300800000
     ∧ JsDate.parseDateExpanded "2024-01-05" = Some 1704412800000
     ∧ JsDate.isoDay 253402300800000 = "+010000-01-01").
Proof.
  split.
  - intros H. pose proof farFuture_flush as E.
    destruct (flush JsDate.parseDateExpanded send farFuture) as [[s t]|] eqn:F;
      [|discriminate].
    injection E as ->.
    destruct (H _ _ _ _ F 0%nat 1%nat _ _ (Nat.lt_succ_diag_r 0)
                eq_refl eq_refl) as (x & y & Hx & Hy & Hlt).
    vm_compute in Hx, Hy. injection Hx as <-. injection Hy as <-. lia.
  - repeat split; vm_compute; reflexivity.
Qed.

(** C3 fails as stated: in the internal view the amounts 5 and -3 on two
    consecutive days give the cumulative values 5 and 2; and in the series
    of a transfer of 100.5 on 2024-01-05 and of one of 7 in the year 10000
    the cumulative value of 2024-01-05 is 107.5, whereas the amounts dated
    on or before that day sum to 100.5. *)
Lemma cumulative_internal_counterexample :
  ¬ (∀ ty csv summary totals,
       flush JsDate.parseDateOnly ty csv = Some (summary, totals) →
       nonDecreasing totals)
  ∧ ¬ (∀ ty csv summary totals t,
         flush JsDate.parseDateExpanded ty csv = Some (summary, totals) →
         t ∈ totals →
         cumulative t = sumOnOrBefore JsDate.parseDateExpanded totals t)
  ∧ (∀ t, farFutureTotals !! 1%nat = Some t →
       cumulative t = parseFloat "107.5"
       ∧ sumOnOrBefore JsDate.parseDateExpanded farFutureTotals t
         = parseFloat "100.5").
Proof.
  split; [|split].
  - intros H.
    pose proof (H internal twoInternals _ _ twoInternals_flush 0%nat 1%nat
                  _ _ (Nat.le_succ_diag_r 0) eq_refl eq_refl) as Hle.
    vm_compute in Hle. discriminate.
  - intros H. pose proof farFuture_flush as E.
    destruct (flush JsDate.parseDateExpanded send farFuture) as [[s t]|] eqn:F;
      [|discriminate].
    injection E as ->.
    specialize (H _ _ _ _
      {| date := "2024-01-05"; dayAmount := parseFloat "100.5";
         cumulative := parseFloat "107.5" |} F).
    assert (Hc : parseFloat "107.5" = parseFloat "100.5").
    { apply H. right. left. }
    vm_compute in Hc. discriminate.
  - intros t [= <-]. split; vm_compute; reflexivity.
Qed.

Lemma withProto_flush :
  flush JsDate.parseDateOnly internal withProto
  = Some (afterInternalFive.1, withProtoTotals).
Proof. vm_compute. reflexivity. Qed.

(** The two internal transfers with distinct hashes: two entries; the
    transfer followed by one under the hash [__proto__]: one entry. *)
Lemma internal_rows_by_hash_witness :
  (flush JsDate.parseDateOnly internal twoInternals
   = Some (twoInternalsSummary, twoInternalsTotals)
   ∧ size twoInternalsSummary = 2%nat)
  ∧ (flush JsDate.parseDateOnly internal withProto
     = Some (afterInternalFive.1, withProtoTotals)
     ∧ afterInternalFive.1 !! "__proto__" = None
     ∧ size afterInternalFive.1 = 1%nat).
Proof.
  split.
  - split; [exact twoInternals_flush|].
    destruct (FlushFacts.internal_rows_by_hash JsDate.parseDateOnly twoInternals)
      as [_ H].
    destruct (H _ _ twoInternals_flush) as (_ & _ & _ & Hn).
    rewrite Hn; [reflexivity|].
    apply (bool_decide_eq_true_1 _). vm_compute. reflexivity.
  - split; [exact withProto_flush|].
    destruct (FlushFacts.internal_rows_by_hash JsDate.parseDateOnly withProto)
      as [_ H].
    destruct (H _ _ withProto_flush) as (Hp & _ & _ & Hn).
    split; [exact Hp|]. rewrite Hn; [reflexivity|].
    apply (bool_decide_eq_true_1 _). vm_compute. reflexivity.
Defined.

(** C4 fails as stated: two lines of the internal file with the same hash
    leave one summary entry; a line with 11 columns and an empty timestamp
    column leaves no summary at all; and a line with 11 columns, a valid
    date and the hash [__proto__] leaves no entry. *)
Lemma internal_duplicate_hash_counterexample :
  ¬ (∀ csv summary totals,
       flush JsDate.parseDateOnly internal csv = Some (summary, totals) →
       size summary = length (List.filter recorded (dataLines csv)))
  ∧ (recorded internalUndated = true
     ∧ flush JsDate.parseDateOnly internal (csvOf [internalUndated]) = None)
  ∧ (List.filter recorded (dataLines withProto) = [internalFive; internalProto]
     ∧ flush JsDate.parseDateOnly internal withProto
       = Some ({[ "0xaaa" := entryFive ]}, withProtoTotals)).
Proof.
  split; [|split].
  - intros H. specialize (H sameHashTwice _ _ sameHashTwice_flush).
    vm_compute in H. discriminate.
  - split; vm_compute; reflexivity.
  - split; vm_compute; reflexivity.
Qed.

Lemma afterInternalFive_reached :
  processLines JsDate.parseDateOnly internal [internalFive] (∅, ∅)
  = Some afterInternalFive.
Proof. vm_compute. reflexivity. Qed.

Lemma afterSameHash_reached :
  processLines JsDate.parseDateOnly internal [internalThreeAgain] afterInternalFive
  = Some afterSameHash.
Proof. vm_compute. reflexivity. Qed.

(** The two sends, one line after the other: the group of [0xb0b] grows
    from amount 100.5 and count 1 to amount 107.5 and count 2. *)
Lemma summary_groups_monotone_witness :
  processLines JsDate.parseDateOnly send [sendRow] (∅, ∅) = Some afterSendRow
  ∧ processLines JsDate.parseDateOnly send [sendRowBefore] afterSendRow
    = Some afterBothSends
  ∧ ∀ k e, afterSendRow.1 !! k = Some e →
      ∃ e', afterBothSends.1 !! k = Some e'
            ∧ le (amount e) (amount e') = true
            ∧ le (count e) (count e') = true.
Proof.
  assert (E : processLines JsDate.parseDateOnly send [sendRow] (∅, ∅)
              = Some afterSendRow) by (vm_compute; reflexivity).
  assert (E' : processLines JsDate.parseDateOnly send [sendRowBefore] afterSendRow
               = Some afterBothSends) by (vm_compute; reflexivity).
  split; [exact E|]. split; [exact E'|].
  exact (proj1 (FlushFacts.summary_groups_monotone JsDate.parseDateOnly send
                  [sendRow] afterSendRow eq_refl E)
           [sendRowBefore] afterBothSends E').
Defined.

(** C5 fails as stated: in the internal view a second line with the hash of
    an earlier one replaces its entry, so that the amount of the key falls
    from 5 to 3 and its first date moves from 2024-01-05 to 2024-01-06. *)
Lemma internal_overwrite_counterexample :
  ¬ (∀ ty lines more st st' k e,
       processLines JsDate.parseDateOnly ty lines (∅, ∅) = Some st →
       processLines JsDate.parseDateOnly ty more st = Some st' →
       st.1 !! k = Some e →
       ∃ e', st'.1 !! k = Some e'
             ∧ le (amount e) (amount e') = true
             ∧ ∃ f f', firstDate e = Some f ∧ firstDate e' = Some f' ∧ f' ≤ f).
Proof.
  intros H.
  destruct (H internal _ _ _ _ "0xaaa"
              (internalEntry "0xaaa" (ofZ 5) (Some 1704412800000))
              afterInternalFive_reached afterSameHash_reached)
    as (e' & He' & Hle & _); [vm_compute; reflexivity|].
  assert (Ee : e' = internalEntry "0xaaa" (ofZ 3) (Some 1704499200000)).
  { vm_compute in He'. injection He' as <-. vm_compute. reflexivity. }
  subst e'. vm_compute in Hle. discriminate.
Qed.

(** The internal line with an empty amount column, on 2024-01-07, under
    the hash [0xccc] and under the hash [__proto__]. *)
Lemma internal_zero_amount_row_witness :
  processLine JsDate.parseDateOnly internal internalNoAmount (∅, ∅)
  = Some ({[ "0xccc" := internalEntry "0xccc" zero (Some 1704585600000) ]},
          {[ "2024-01-07" := zero ]})
  ∧ processLine JsDate.parseDateOnly internal internalProtoNoAmount (∅, ∅)
    = Some (∅, {[ "2024-01-07" := zero ]}).
Proof.
  split.
  - destruct (FlushFacts.internal_zero_amount_row JsDate.parseDateOnly
                internalNoAmount ∅ ∅ 1704585600000) as (_ & H & _);
      [vm_compute; lia | vm_compute; reflexivity | vm_compute; reflexivity |].
    apply H. left. discriminate.
  - destruct (FlushFacts.internal_zero_amount_row JsDate.parseDateOnly
                internalProtoNoAmount ∅ ∅ 1704585600000) as (_ & _ & H & _);
      [vm_compute; lia | vm_compute; reflexivity | vm_compute; reflexivity |].
    exact (H eq_refl eq_refl).
Defined.

(** C10 fails as stated: a line of the internal file with 11 columns, an
    empty amount column and an empty timestamp column is not recorded; the
    callback throws on it.  And such a line with a valid date and the hash
    [__proto__] leaves the summary empty. *)
Lemma internal_undated_row_counterexample :
  ¬ (∀ line s d,
       (11 ≤ length (rowColumns line))%nat →
       truthy (parseFloat (JsString.stripQuotes (column (rowColumns line) 10)))
       = false →
       is_Some (processLine JsDate.parseDateOnly internal line (s, d)))
  ∧ (recorded internalProtoNoAmount = true
     ∧ ∃ d, processLine JsDate.parseDateOnly internal internalProtoNoAmount
              (∅, ∅) = Some (∅, d)).
Proof.
  split.
  - intros H.
    destruct (H internalUndated ∅ ∅) as [st Hst];
      [vm_compute; lia | vm_compute; reflexivity |].
    vm_compute in Hst. discriminate.
  - split; [reflexivity|]. eexists. vm_compute. reflexivity.
Qed.

(** An ended stake and a running stake under the three status selections,
    and the page of the two under the selection active. *)
Lemma status_filter_by_stake_end_witness :
  Stakes.keepStake JsDate.parseDateOnly
    (Stakes.withStatus Stakes.active sampleFilters) (sampleStake "100" None) = true
  ∧ Stakes.keepStake JsDate.parseDateOnly
      (Stakes.withStatus Stakes.ended sampleFilters)
      (sampleStake "100" (Some (sampleEnd "5"))) = true
  ∧ Stakes.filteredStakes JsDate.parseDateOnly
      (Stakes.withStatus Stakes.active sampleFilters)
      (Some [sampleStake "100" (Some (sampleEnd "5")); sampleStake "100" None])
    = [sampleStake "100" None].
Proof.
  split; [|split].
  - apply (proj1 (StakesFacts.status_filter_by_stake_end JsDate.parseDateOnly
                    sampleFilters (sampleStake "100" None))).
    split; [reflexivity | vm_compute; reflexivity].
  - apply (proj1 (proj2 (StakesFacts.status_filter_by_stake_end
                    JsDate.parseDateOnly sampleFilters
                    (sampleStake "100" (Some (sampleEnd "5")))))).
    split; [eexists; reflexivity | vm_compute; reflexivity].
  - destruct (StakesFacts.status_filter_by_stake_end JsDate.parseDateOnly
                sampleFilters (sampleStake "100" None))
      as (_ & _ & _ & _ & _ & H & _).
    rewrite (proj1 (H _)). vm_compute. reflexivity.
Defined.

(** Selecting the ROI column while the table is sorted by start, ascending. *)
Lemma sort_handlers_toggle_witness :
  Stakes.start ≠ Stakes.roi
  ∧ Stakes.handleSort Stakes.roi (Stakes.start, Stakes.asc)
    = (Stakes.roi, Stakes.desc)
  ∧ byAmount ≠ byDate
  ∧ toggleSort byDate (byAmount, asc) = (byDate, desc).
Proof.
  assert (H1 : Stakes.start ≠ Stakes.roi) by discriminate.
  assert (H2 : byAmount ≠ byDate) by discriminate.
  destruct StakesFacts.sort_handlers_toggle as (_ & _ & Hs & _ & _ & Hf).
  split; [exact H1|]. split; [exact (Hs _ _ _ H1)|].
  split; [exact H2 | exact (Hf _ _ _ H2)].
Defined.



End Scenarios.

(** ** Exact integer arithmetic in binary64 *)
Module Exact64.
Import JsNumber Binary64.

Lemma shr_1_exact (m : Z) :
  0 ≤ m →
  shr_1 (Build_shr_record (m * 2) false false) = Build_shr_record m false false.
Proof.
  intros Hm. destruct m as [|q|q]; [reflexivity| |lia].
  rewrite Z.mul_comm. reflexivity.
Qed.

(** Shifting out bits that are all zero leaves an exact location. *)
Lemma iter_shr_1_exact (p : positive) (m : Z) :
  0 ≤ m →
  SpecFloat.iter_pos shr_1 p (Build_shr_record (m * 2 ^ Zpos p) false false)
  = Build_shr_record m false false.
Proof.
  revert m. induction p as [p IH|p IH|]; intros m Hm.
  - replace (m * 2 ^ Z.pos p~1) with (((m * 2 ^ Zpos p) * 2 ^ Zpos p) * 2).
    2:{ replace (Z.pos p~1) with (1 + Zpos p + Zpos p) by lia.
        rewrite !Z.pow_add_r by lia. change (2 ^ 1) with 2. lia. }
    cbn [SpecFloat.iter_pos].
    rewrite shr_1_exact by nia. rewrite IH by nia. apply IH. exact Hm.
  - replace (m * 2 ^ Z.pos p~0) with ((m * 2 ^ Zpos p) * 2 ^ Zpos p).
    2:{ replace (Z.pos p~0) with (Zpos p + Zpos p) by lia.
        rewrite !Z.pow_add_r by lia. lia. }
    cbn [SpecFloat.iter_pos].
    rewrite IH by nia. apply IH. exact Hm.
  - change (2 ^ 1) with 2. apply shr_1_exact. exact Hm.
Qed.

Lemma shr_exact (m e n : Z) :
  0 ≤ m → 0 ≤ n →
  shr (Build_shr_record (m * 2 ^ n) false false) e n
  = (Build_shr_record m false false, e + n).
Proof.
  intros Hm Hn. destruct n as [|p|p]; [| |lia].
  - simpl. rewrite Z.mul_1_r, Z.add_0_r. reflexivity.
  - unfold shr. rewrite iter_shr_1_exact by exact Hm. reflexivity.
Qed.

(** A canonical mantissa scaled by a power of two rounds to itself. *)
Lemma binary_round_aux_exact (s : bool) (m : positive) (e k : Z) :
  bounded prec emax m e = true → 0 ≤ k →
  binary_round_aux prec emax s (Zpos m * 2 ^ k) (e - k) loc_Exact
  = S754_finite s m e.
Proof.
  intros Hb Hk.
  destruct (bounded_canonical m e Hb) as [Hcan Hmin].
  assert (He : e ≤ emax - prec).
  { unfold bounded in Hb. apply andb_true_iff in Hb as [_ Hb].
    apply Z.leb_le in Hb. exact Hb. }
  unfold binary_round_aux.
  assert (Hsh : shr_fexp prec emax (Zpos m * 2 ^ k) (e - k) loc_Exact
                = (Build_shr_record (Zpos m) false false, e)).
  { unfold shr_fexp. rewrite Zdigits2_mul_pow2 by lia.
    replace (Zdigits2 (Z.pos m) + k + (e - k)) with (Zdigits2 (Zpos m) + e) by lia.
    rewrite Hcan. replace (e - (e - k)) with k by lia.
    change (shr_record_of_loc (Z.pos m * 2 ^ k) loc_Exact)
      with (Build_shr_record (Z.pos m * 2 ^ k) false false).
    rewrite shr_exact by lia. f_equal. lia. }
  rewrite Hsh.
  cbn [shr_record_of_loc loc_of_shr_record round_nearest_even shr_m shr_r
       shr_s].
  assert (Hsh0 : shr_fexp prec emax (Zpos m) e loc_Exact
                 = (shr_record_of_loc (Zpos m) loc_Exact, e)).
  { unfold shr_fexp. rewrite Hcan. rewrite Z.sub_diag. reflexivity. }
  rewrite Hsh0. cbn [shr_record_of_loc shr_m].
  apply Z.leb_le in He. rewrite He. reflexivity.
Qed.

Lemma shl_align_snd (m : positive) (e ez : Z) :
  ez ≤ e → snd (shl_align m e ez) = ez.
Proof.
  intros H. unfold shl_align. destruct (ez - e) eqn:E; simpl; lia.
Qed.

Lemma shl_align_above (m : positive) (e ez : Z) :
  e ≤ ez → shl_align m e ez = (m, e).
Proof.
  intros H. unfold shl_align. destruct (ez - e) eqn:E; try reflexivity; lia.
Qed.

(** [binary_round] returns the canonical representation of a value that
    has one. *)
Lemma binary_round_exact (s : bool) (m M : positive) (e E : Z) :
  bounded prec emax M E = true →
  (E ≤ e ∧ Zpos m * 2 ^ (e - E) = Zpos M)
  ∨ (e ≤ E ∧ Zpos m = Zpos M * 2 ^ (E - e)) →
  binary_round prec emax s m e = S754_finite s M E.
Proof.
  intros Hb Hv.
  destruct (bounded_canonical M E Hb) as [Hcan Hmin].
  assert (Hf : fexp prec emax (Zdigits2 (Zpos m) + e) = E).
  { transitivity (fexp prec emax (Zdigits2 (Zpos M) + E)); [|exact Hcan].
    f_equal. destruct Hv as [[Hle Hv]|[Hle Hv]].
    - rewrite <- Hv. rewrite Zdigits2_mul_pow2 by lia. lia.
    - rewrite Hv. rewrite Zdigits2_mul_pow2 by lia. lia. }
  unfold binary_round. change (Z.pos (digits2_pos m)) with (Zdigits2 (Zpos m)).
  rewrite Hf.
  destruct Hv as [[Hle Hv]|[Hle Hv]].
  - pose proof (shl_align_fst m e E Hle) as H1.
    pose proof (shl_align_snd m e E Hle) as H2.
    destruct (shl_align m e E) as [mz ez]. simpl in H1, H2. subst ez.
    rewrite H1, Hv.
    pose proof (binary_round_aux_exact s M E 0 Hb) as H.
    rewrite Z.mul_1_r, Z.sub_0_r in H. apply H. lia.
  - rewrite shl_align_above by exact Hle.
    rewrite Hv. replace e with (E - (E - e)) at 2 by lia.
    apply binary_round_aux_exact; [exact Hb | lia].
Qed.

Lemma canon_spec (z : Z) :
  0 < Z.abs z < 2 ^ 53 →
  canonE z ≤ 0
  ∧ Zpos (canonM z) = Z.abs z * 2 ^ (- canonE z)
  ∧ bounded prec emax (canonM z) (canonE z) = true.
Proof.
  intros Hz. unfold canonM, canonE.
  pose proof (Zdigits2_bounds (Z.abs z) ltac:(lia)) as Hd.
  pose proof (Zdigits2_pos (Z.abs z) ltac:(lia)) as Hp.
  assert (Hd53 : Zdigits2 (Z.abs z) ≤ 53).
  { destruct (Z_le_gt_dec (Zdigits2 (Z.abs z)) 53) as [H|H]; [exact H|].
    assert (2 ^ 53 ≤ 2 ^ (Zdigits2 (Z.abs z) - 1)) by (apply Z.pow_le_mono_r; lia).
    lia. }
  assert (Hpos : 0 < Z.abs z * 2 ^ (- (Zdigits2 (Z.abs z) - 53))).
  { apply Z.mul_pos_pos; [lia | apply Z.pow_pos_nonneg; lia]. }
  pose proof (Z2Pos.id _ Hpos) as Hid.
  set (M := Z.to_pos (Z.abs z * 2 ^ (- (Zdigits2 (Z.abs z) - 53)))) in *.
  split; [lia|]. split; [exact Hid|].
  unfold bounded, canonical_mantissa.
  change (Z.pos (digits2_pos M)) with (Zdigits2 (Z.pos M)). rewrite Hid.
  rewrite Zdigits2_mul_pow2 by lia. rewrite fexp_eq.
  apply andb_true_iff. split.
  - apply Z.eqb_eq. lia.
  - apply Z.leb_le. unfold emax, prec. lia.
Qed.

Lemma round_int (s : bool) (m : positive) (e c : Z) :
  0 < c < 2 ^ 53 → e ≤ 0 → Zpos m = c * 2 ^ (- e) →
  binary_round prec emax s m e = S754_finite s (canonM c) (canonE c).
Proof.
  intros Hc He Hm.
  destruct (canon_spec c) as (HE & HM & Hb); [lia|].
  rewrite Z.abs_eq in HM by lia.
  apply binary_round_exact; [exact Hb|].
  destruct (Z_le_gt_dec (canonE c) e) as [H|H]; [left|right]; split; try lia.
  - rewrite Hm, HM. rewrite <- Z.mul_assoc, <- Z.pow_add_r by lia.
    f_equal. f_equal. lia.
  - rewrite Hm, HM. rewrite <- Z.mul_assoc, <- Z.pow_add_r by lia.
    f_equal. f_equal. lia.
Qed.

(** The binary64 value of a non-zero integer below 2^53 in absolute value:
    the integer itself, in canonical form. *)
Lemma ofZ_finite (z : Z) :
  0 < Z.abs z < 2 ^ 53 →
  ofZ z = S754_finite (z <? 0) (canonM z) (canonE z).
Proof.
  intros Hz. unfold ofZ, binary_normalize.
  destruct z as [|p|p]; [lia| |].
  - change (Z.pos p <? 0) with false.
    apply round_int; [lia|lia|]. rewrite Z.mul_1_r. reflexivity.
  - change (Z.neg p <? 0) with true.
    change (canonM (Z.neg p)) with (canonM (Z.pos p)).
    change (canonE (Z.neg p)) with (canonE (Z.pos p)).
    apply round_int; [lia|lia|]. rewrite Z.mul_1_r. reflexivity.
Qed.

Lemma normalize_int (m e c : Z) :
  Z.abs c < 2 ^ 53 → e ≤ 0 → m = c * 2 ^ (- e) →
  binary_normalize prec emax m e false = ofZ c.
Proof.
  intros Hc He Hm.
  assert (Hp : 0 < 2 ^ (- e)) by (apply Z.pow_pos_nonneg; lia).
  destruct (Z.eq_dec c 0) as [->|Hne].
  { subst m. reflexivity. }
  rewrite ofZ_finite by lia.
  unfold binary_normalize. destruct m as [|p|p].
  - nia.
  - assert (0 < c) by nia.
    replace (c <? 0) with false by (symmetry; apply Z.ltb_ge; lia).
    apply round_int; [lia|lia|exact Hm].
  - assert (c < 0) by nia.
    replace (c <? 0) with true by (symmetry; apply Z.ltb_lt; lia).
    replace (canonM c) with (canonM (- c))
      by (unfold canonM, canonE; rewrite Z.abs_opp; reflexivity).
    replace (canonE c) with (canonE (- c))
      by (unfold canonE; rewrite Z.abs_opp; reflexivity).
    apply round_int; [lia|lia|].
    assert (Z.pos p = - Z.neg p) by reflexivity. nia.
Qed.

Lemma aligned_int (z : Z) (ez : Z) :
  0 < Z.abs z < 2 ^ 53 → ez ≤ canonE z →
  cond_Zopp (z <? 0) (Zpos (fst (shl_align (canonM z) (canonE z) ez)))
  = z * 2 ^ (- ez).
Proof.
  intros Hz Hez. destruct (canon_spec z Hz) as (HE & HM & Hb).
  rewrite shl_align_fst by exact Hez. rewrite HM.
  rewrite <- Z.mul_assoc, <- Z.pow_add_r by lia.
  replace (- canonE z + (canonE z - ez)) with (- ez) by lia.
  destruct (Z.ltb_spec z 0); simpl; lia.
Qed.

(** Addition and subtraction of integers are exact below 2^53. *)
Lemma add_ofZ (a b : Z) :
  Z.abs a < 2 ^ 53 → Z.abs b < 2 ^ 53 → Z.abs (a + b) < 2 ^ 53 →
  add (ofZ a) (ofZ b) = ofZ (a + b).
Proof.
  intros Ha Hb Hab.
  destruct (Z.eq_dec a 0) as [->|Hane].
  { destruct (Z.eq_dec b 0) as [->|Hbne]; [reflexivity|].
    rewrite Z.add_0_l. rewrite (ofZ_finite b) by lia. reflexivity. }
  destruct (Z.eq_dec b 0) as [->|Hbne].
  { rewrite Z.add_0_r. rewrite (ofZ_finite a) by lia. reflexivity. }
  rewrite (ofZ_finite a), (ofZ_finite b) by lia.
  destruct (canon_spec a) as (HEa & _ & _); [lia|].
  destruct (canon_spec b) as (HEb & _ & _); [lia|].
  unfold add, SFadd.
  rewrite !aligned_int by lia.
  apply normalize_int; [exact Hab | lia | lia].
Qed.

Lemma sub_ofZ (a b : Z) :
  Z.abs a < 2 ^ 53 → Z.abs b < 2 ^ 53 → Z.abs (a - b) < 2 ^ 53 →
  sub (ofZ a) (ofZ b) = ofZ (a - b).
Proof.
  intros Ha Hb Hab.
  destruct (Z.eq_dec b 0) as [->|Hbne].
  { rewrite Z.sub_0_r. destruct (Z.eq_dec a 0) as [->|Hane]; [reflexivity|].
    rewrite (ofZ_finite a) by lia. reflexivity. }
  destruct (Z.eq_dec a 0) as [->|Hane].
  { rewrite Z.sub_0_l. rewrite (ofZ_finite b), (ofZ_finite (- b)) by lia.
    unfold canonM, canonE. rewrite Z.abs_opp. simpl.
    f_equal. destruct (Z.ltb_spec b 0), (Z.ltb_spec (- b) 0); try reflexivity; lia. }
  rewrite (ofZ_finite a), (ofZ_finite b) by lia.
  destruct (canon_spec a) as (HEa & _ & _); [lia|].
  destruct (canon_spec b) as (HEb & _ & _); [lia|].
  unfold sub, SFsub.
  rewrite !aligned_int by lia.
  apply normalize_int; [exact Hab | lia | lia].
Qed.

End Exact64.

(** ** The order of binary64 numbers *)
Module Order64.
Import JsNumber Binary64 Exact64.

(** *** Comparison *)

Lemma compare_antisym (x y : number) :
  SFcompare y x = option_map CompOpp (SFcompare x y).
Proof.
  destruct x as [sx|sx| |sx mx ex], y as [sy|sy| |sy my ey]; simpl;
    try (destruct sx); try (destruct sy); try reflexivity.
  all: rewrite (Z.compare_antisym ey ex).
  all: change (PosDef.Pos.compare_cont Eq) with Pos.compare.
  all: rewrite (Pos.compare_antisym my mx).
  all: destruct (ey ?= ex); simpl; try reflexivity.
  all: now destruct (my ?= mx)%positive.
Qed.

Lemma lt_le (x y : number) : lt x y = true → le x y = true.
Proof.
  unfold lt, le, SFltb, SFleb. now destruct (SFcompare x y) as [[]|].
Qed.

Lemma not_lt_le (x y : number) :
  x ≠ NaN → y ≠ NaN → lt x y = false → le y x = true.
Proof.
  intros Hx Hy. unfold lt, le, SFltb, SFleb. rewrite (compare_antisym x y).
  destruct (SFcompare x y) as [[]|] eqn:E; simpl; try easy.
  destruct x as [sx|sx| |sx mx ex], y as [sy|sy| |sy my ey]; try easy.
Qed.

Lemma compare_Eq_finite (s1 s2 : bool) (m1 m2 : positive) (e1 e2 : Z) :
  SFcompare (S754_finite s1 m1 e1) (S754_finite s2 m2 e2) = Some Eq →
  S754_finite s1 m1 e1 = S754_finite s2 m2 e2.
Proof.
  simpl. destruct s1, s2; try discriminate;
    destruct (Z.compare_spec e1 e2) as [->| |]; try discriminate;
    intros [= H].
  - apply (f_equal CompOpp) in H. rewrite CompOpp_involutive in H. simpl in H.
    apply Pos.compare_eq in H. now subst.
  - apply Pos.compare_eq in H. now subst.
Qed.

Lemma le_not_lt_eq (s1 s2 : bool) (m1 m2 : positive) (e1 e2 : Z) :
  le (S754_finite s1 m1 e1) (S754_finite s2 m2 e2) = true →
  lt (S754_finite s1 m1 e1) (S754_finite s2 m2 e2) = false →
  S754_finite s1 m1 e1 = S754_finite s2 m2 e2.
Proof.
  unfold le, lt, SFleb, SFltb. intros H1 H2. apply compare_Eq_finite.
  now destruct (SFcompare _ _) as [[]|].
Qed.

(** *** The sign of a product with 1 or -1 *)

Lemma ofZ_one : ofZ 1 = S754_finite false 4503599627370496 (-52).
Proof. vm_compute. reflexivity. Qed.

Lemma ofZ_minus_one : ofZ (-1) = S754_finite true 4503599627370496 (-52).
Proof. vm_compute. reflexivity. Qed.

Lemma binary_round_aux_opp (s : bool) (m e : Z) (l : location) :
  binary_round_aux prec emax (negb s) m e l
  = SFopp (binary_round_aux prec emax s m e l).
Proof.
  unfold binary_round_aux.
  destruct (shr_fexp prec emax m e l) as [r1 e1].
  destruct (shr_fexp prec emax _ e1 loc_Exact) as [r2 e2].
  destruct (shr_m r2); try reflexivity.
  now destruct (e2 <=? emax - prec).
Qed.

Lemma mul_minus_one (v : number) : mul v (ofZ (-1)) = neg (mul v (ofZ 1)).
Proof.
  rewrite ofZ_one, ofZ_minus_one. unfold mul, neg.
  destruct v as [s|s| |s m e]; try reflexivity; try (now destruct s).
  destruct s; cbn [SFmul xorb].
  - apply (binary_round_aux_opp true).
  - apply (binary_round_aux_opp false).
Qed.

Lemma mul_one (v : number) : valid v → mul v (ofZ 1) = v.
Proof.
  rewrite ofZ_one. unfold mul.
  destruct v as [s|s| |s m e]; try reflexivity; try (now destruct s).
  intros Hv. cbn [SFmul]. rewrite xorb_false_r.
  rewrite Pos2Z.inj_mul. change (Z.pos 4503599627370496) with (2 ^ 52).
  change (e + -52) with (e - 52).
  apply binary_round_aux_exact; [exact Hv | lia].
Qed.

Lemma lt_neg_zero (v : number) : lt (neg v) zero = gt v zero.
Proof. now destruct v as [[]|[]| |[] m e]. Qed.

Lemma gt_neg_zero (v : number) : gt (neg v) zero = lt v zero.
Proof. now destruct v as [[]|[]| |[] m e]. Qed.

Lemma truthy_neg (v : number) : truthy (neg v) = truthy v.
Proof. now destruct v. Qed.

Lemma mul_one_falsy (v : number) :
  truthy v = false → truthy (mul v (ofZ 1)) = false.
Proof. rewrite ofZ_one. now destruct v. Qed.

(** *** Subtraction *)

Lemma sub_add_opp (x y : number) : sub x y = add x (SFopp y).
Proof.
  destruct x as [sx|sx| |sx mx ex], y as [sy|sy| |sy my ey]; simpl;
    try (destruct sx); try (destruct sy); try reflexivity;
    unfold sub, add, SFsub, SFadd; cbn [negb cond_Zopp]; f_equal;
    unfold Z.sub; try reflexivity; now rewrite Z.opp_involutive.
Qed.

Lemma opp_valid (x : number) : valid x → valid (SFopp x).
Proof. now destruct x. Qed.

Lemma sub_valid (x y : number) : valid x → valid y → valid (sub x y).
Proof.
  intros Hx Hy. rewrite sub_add_opp.
  apply add_valid; [exact Hx | now apply opp_valid].
Qed.

Lemma sub_diag_falsy (x : number) : truthy (sub x x) = false.
Proof.
  destruct x as [[]|[]| |s m e]; try reflexivity.
  unfold sub, SFsub. rewrite Z.sub_diag. reflexivity.
Qed.

(** The magnitudes of two canonical numbers, brought to the same exponent,
    compare as their exponents and then their mantissas do. *)
Lemma mag_compare (mx my : positive) (ex ey : Z) :
  bounded prec emax mx ex = true → bounded prec emax my ey = true →
  (Zpos (fst (shl_align mx ex (Z.min ex ey)))
   ?= Zpos (fst (shl_align my ey (Z.min ex ey))))
  = match ex ?= ey with
    | Eq => Pos.compare mx my
    | Lt => Lt
    | Gt => Gt
    end.
Proof.
  intros Hx Hy.
  destruct (bounded_canonical mx ex Hx) as [Hcx _].
  destruct (bounded_canonical my ey Hy) as [Hcy _].
  rewrite !shl_align_fst by lia.
  pose proof (Zdigits2_bounds (Zpos mx) ltac:(lia)) as Bx.
  pose proof (Zdigits2_bounds (Zpos my) ltac:(lia)) as By.
  destruct (Z.compare_spec ex ey) as [->|Hlt|Hgt].
  - rewrite Z.min_id, Z.sub_diag, !Z.mul_1_r. reflexivity.
  - rewrite Z.min_l by lia. rewrite Z.sub_diag, Z.mul_1_r.
    apply Z.compare_lt_iff.
    assert (Hd : Zdigits2 (Zpos mx) + ex < Zdigits2 (Zpos my) + ey).
    { destruct (Z_lt_ge_dec (Zdigits2 (Zpos mx) + ex) (Zdigits2 (Zpos my) + ey))
        as [H|H]; [exact H|].
      pose proof (fexp_mono (Zdigits2 (Zpos my) + ey) (Zdigits2 (Zpos mx) + ex)
                    ltac:(lia)). lia. }
    assert (H2 : 2 ^ Zdigits2 (Zpos mx)
                 ≤ 2 ^ (Zdigits2 (Zpos my) - 1) * 2 ^ (ey - ex)).
    { rewrite <- Z.pow_add_r by (pose proof (Zdigits2_pos (Zpos my)); lia).
      apply Z.pow_le_mono_r; lia. }
    assert (0 < 2 ^ (ey - ex)) by (apply Z.pow_pos_nonneg; lia).
    nia.
  - rewrite Z.min_r by lia. rewrite Z.sub_diag, Z.mul_1_r.
    apply Z.compare_gt_iff.
    assert (Hd : Zdigits2 (Zpos my) + ey < Zdigits2 (Zpos mx) + ex).
    { destruct (Z_lt_ge_dec (Zdigits2 (Zpos my) + ey) (Zdigits2 (Zpos mx) + ex))
        as [H|H]; [exact H|].
      pose proof (fexp_mono (Zdigits2 (Zpos mx) + ex) (Zdigits2 (Zpos my) + ey)
                    ltac:(lia)). lia. }
    assert (H2 : 2 ^ Zdigits2 (Zpos my)
                 ≤ 2 ^ (Zdigits2 (Zpos mx) - 1) * 2 ^ (ex - ey)).
    { rewrite <- Z.pow_add_r by (pose proof (Zdigits2_pos (Zpos mx)); lia).
      apply Z.pow_le_mono_r; lia. }
    assert (0 < 2 ^ (ex - ey)) by (apply Z.pow_pos_nonneg; lia).
    nia.
Qed.

Lemma compare_aligned (sx sy : bool) (mx my : positive) (ex ey : Z) :
  bounded prec emax mx ex = true → bounded prec emax my ey = true →
  SFcompare (S754_finite sx mx ex) (S754_finite sy my ey)
  = Some (cond_Zopp sx (Zpos (fst (shl_align mx ex (Z.min ex ey))))
          ?= cond_Zopp sy (Zpos (fst (shl_align my ey (Z.min ex ey))))).
Proof.
  intros Hx Hy. pose proof (mag_compare mx my ex ey Hx Hy) as H.
  simpl SFcompare. f_equal.
  destruct sx, sy; cbn [cond_Zopp]; try reflexivity.
  - rewrite Z.compare_opp.
    rewrite (Z.compare_antisym (Zpos (fst (shl_align mx ex (Z.min ex ey))))), H.
    now destruct (ex ?= ey).
  - rewrite H. reflexivity.
Qed.

(** The sign of a rounded non-zero number above the least exponent. *)
Lemma normalize_sign (d e : Z) :
  -1074 ≤ e →
  lt (binary_normalize prec emax d e false) zero = (d <? 0)
  ∧ gt (binary_normalize prec emax d e false) zero = (0 <? d).
Proof.
  intros He. unfold binary_normalize. destruct d as [|p|p].
  - split; reflexivity.
  - pose proof (binary_round_spec false p e) as H.
    destruct (binary_round prec emax false p e) as [s|s| |s m' e'];
      [lia | subst s; now split | destruct H | destruct H as [-> _]; now split].
  - pose proof (binary_round_spec true p e) as H.
    destruct (binary_round prec emax true p e) as [s|s| |s m' e'];
      [lia | subst s; now split | destruct H | destruct H as [-> _]; now split].
Qed.

(** The sign of a difference is the order of its terms. *)
Lemma sub_sign (x y : number) :
  valid x → valid y →
  lt (sub x y) zero = lt x y ∧ gt (sub x y) zero = gt x y.
Proof.
  intros Hx Hy.
  destruct x as [sx|sx| |sx mx ex], y as [sy|sy| |sy my ey];
    try (destruct sx); try (destruct sy); try (split; reflexivity).
  all: destruct (bounded_canonical mx ex Hx) as [_ Hex].
  all: destruct (bounded_canonical my ey Hy) as [_ Hey].
  all: unfold sub, SFsub.
  all: match goal with
       | |- context [binary_normalize _ _ ?d ?e _] =>
           destruct (normalize_sign d e ltac:(lia)) as [-> ->]
       end.
  all: unfold lt, gt, SFltb.
  all: rewrite (compare_aligned _ _ mx my ex ey Hx Hy).
  all: rewrite (compare_aligned _ _ my mx ey ex Hy Hx).
  all: rewrite (Z.min_comm ey ex).
  all: split.
  all: repeat match goal with
       | |- context [(?a ?= ?b)] => destruct (Z.compare_spec a b)
       | |- context [(?a <? ?b)] => destruct (Z.ltb_spec a b)
       end; try reflexivity; try lia.
Qed.

(** *** Constants *)

Lemma ofZ_10 : ofZ 10 = S754_finite false 5629499534213120 (-49).
Proof. vm_compute. reflexivity. Qed.

Lemma ofZ_1000 : ofZ 1000 = S754_finite false 8796093022208000 (-43).
Proof. vm_compute. reflexivity. Qed.

Lemma le_not_lt (x y : number) : le x y = true → lt y x = false.
Proof.
  unfold le, lt, SFleb, SFltb. rewrite (compare_antisym x y).
  now destruct (SFcompare x y) as [[]|].
Qed.

End Order64.

(** ** More on strings *)
Module JsStringMore.
Import JsString.

(** *** Substrings and [slice] *)

Lemma substring_0_app (p r : string) :
  String.substring 0 (String.length p) (p ++ r) = p.
Proof.
  induction p as [|c p IH]; simpl.
  - now destruct r.
  - now rewrite IH.
Qed.

Lemma substring_skip_app (p r : string) (m : nat) :
  String.substring (String.length p) m (p ++ r) = String.substring 0 m r.
Proof. induction p as [|c p IH]; simpl; [reflexivity | exact IH]. Qed.

Lemma substring_0_all (s : string) (m : nat) :
  (String.length s ≤ m)%nat → String.substring 0 m s = s.
Proof.
  revert m. induction s as [|c s IH]; intros m H; simpl in *.
  - now destruct m.
  - destruct m as [|m]; [lia|]. rewrite IH by lia. reflexivity.
Qed.

Lemma substring_length (s : string) (a m : nat) :
  String.length (String.substring a m s) = Nat.min m (String.length s - a).
Proof.
  revert a m. induction s as [|c s IH]; intros a m; simpl.
  - destruct a, m; reflexivity.
  - destruct a as [|a].
    + destruct m as [|m]; simpl; [reflexivity|]. rewrite IH. lia.
    + rewrite IH. reflexivity.
Qed.

Lemma append_length (a b : string) :
  String.length (a ++ b) = (String.length a + String.length b)%nat.
Proof.
  induction a as [|c a IH]; [reflexivity|].
  change (S (String.length (a ++ b)) = S (String.length a + String.length b)).
  now rewrite IH.
Qed.

Lemma append_assoc (a b c : string) : (a ++ b) ++ c = a ++ (b ++ c).
Proof.
  induction a as [|x a IH]; [reflexivity|].
  change (String x ((a ++ b) ++ c) = String x (a ++ (b ++ c))). now rewrite IH.
Qed.

Lemma slice_head (s : string) (n : nat) :
  slice s 0 (Some (Z.of_nat n)) = String.substring 0 n s.
Proof.
  unfold slice. cbn [Z.ltb Z.compare].
  replace (Z.of_nat n <? 0) with false by (symmetry; apply Z.ltb_ge; lia).
  rewrite Z.min_l by lia. rewrite Z.sub_0_r. change (Z.to_nat 0) with 0%nat.
  destruct (Nat.le_ge_cases n (String.length s)) as [H|H].
  - f_equal. lia.
  - rewrite !substring_0_all by lia. reflexivity.
Qed.

Lemma slice_tail (s : string) (n : nat) :
  (0 < n)%nat →
  slice s (- Z.of_nat n) None
  = String.substring (String.length s - n) n s.
Proof.
  intros Hn. unfold slice.
  replace (- Z.of_nat n <? 0) with true by (symmetry; apply Z.ltb_lt; lia).
  destruct (Nat.le_ge_cases n (String.length s)) as [H|H].
  - f_equal; lia.
  - replace (Z.to_nat (Z.max (Z.of_nat (String.length s) + - Z.of_nat n) 0))
      with 0%nat by lia.
    replace (String.length s - n)%nat with 0%nat by lia.
    rewrite !substring_0_all by lia. reflexivity.
Qed.

(** *** Splitting and joining *)

Lemma split_app_sep (sep : ascii) (h b : string) :
  includes (String sep EmptyString) h = false →
  split sep (h ++ String sep b) = h :: split sep b.
Proof.
  induction h as [|c h IH]; simpl.
  - intros _. rewrite Ascii.eqb_refl. reflexivity.
  - intros H. apply orb_false_iff in H as [H1 H2].
    rewrite andb_true_r in H1. rewrite Ascii.eqb_sym in H1. rewrite H1.
    now rewrite IH.
Qed.

Lemma split_no_sep (sep : ascii) (h : string) :
  includes (String sep EmptyString) h = false →
  split sep h = [h].
Proof.
  induction h as [|c h IH]; simpl; [reflexivity|].
  intros H. apply orb_false_iff in H as [H1 H2].
  rewrite andb_true_r in H1. rewrite Ascii.eqb_sym in H1. rewrite H1.
  now rewrite IH.
Qed.

Lemma split_not_nil (sep : ascii) (s : string) : split sep s ≠ [].
Proof.
  destruct s as [|c s]; simpl; [discriminate|].
  destruct (Ascii.eqb c sep); [discriminate|].
  destruct (split sep s); discriminate.
Qed.

Lemma concat_cons (sep x : string) (l : list string) :
  l ≠ [] → String.concat sep (x :: l) = (x ++ sep ++ String.concat sep l)%string.
Proof. destruct l; [congruence | reflexivity]. Qed.

(** Joining the fields of a split gives the string back. *)
Lemma concat_split (sep : ascii) (s : string) :
  String.concat (String sep EmptyString) (split sep s) = s.
Proof.
  induction s as [|c s IH]; [reflexivity|]. simpl split.
  destruct (Ascii.eqb_spec c sep) as [->|Hne].
  - rewrite concat_cons by apply split_not_nil. now rewrite IH.
  - pose proof (split_not_nil sep s) as Hn.
    destruct (split sep s) as [|h t]; [congruence|].
    destruct t as [|h' t].
    + simpl in *. now rewrite IH.
    + rewrite concat_cons by discriminate.
      rewrite concat_cons in IH by discriminate.
      change ((String c h ++ String sep EmptyString
               ++ String.concat (String sep EmptyString) (h' :: t))%string)
        with (String c (h ++ String sep EmptyString
                        ++ String.concat (String sep EmptyString) (h' :: t))%string).
      now rewrite IH.
Qed.

Lemma includes_single (c : ascii) (s : string) :
  includes (String c EmptyString) s = true ↔ occurs c s.
Proof.
  induction s as [|a s IH]; simpl.
  - split; [discriminate | tauto].
  - rewrite orb_true_iff, andb_true_r, IH, Ascii.eqb_eq.
    split; intros [H|H]; auto.
Qed.

Lemma split_fields (sep : ascii) (s col : string) :
  In col (split sep s) → ¬ occurs sep col.
Proof.
  revert col. induction s as [|c s IH]; intros col; simpl.
  - intros [<-|[]]. tauto.
  - destruct (Ascii.eqb_spec c sep) as [->|Hne].
    + intros [<-|H]; [simpl; tauto | now apply IH].
    + pose proof (split_not_nil sep s) as Hn.
      destruct (split sep s) as [|h t]; [congruence|].
      intros [<-|H].
      * simpl. intros [E|E]; [congruence|]. apply (IH h); [now left | exact E].
      * apply IH. now right.
Qed.

Lemma split_concat (sep : ascii) (l : list string) :
  l ≠ [] → (∀ x, In x l → ¬ occurs sep x) →
  split sep (String.concat (String sep EmptyString) l) = l.
Proof.
  induction l as [|x l IH]; [congruence|]. intros _ Hl.
  assert (Hx : includes (String sep EmptyString) x = false).
  { destruct (includes _ x) eqn:E; [|reflexivity].
    apply includes_single in E. destruct (Hl x); [now left | exact E]. }
  destruct l as [|y l].
  - simpl. now apply split_no_sep.
  - rewrite concat_cons by discriminate.
    change ((x ++ String sep EmptyString
               ++ String.concat (String sep EmptyString) (y :: l))%string)
      with ((x ++ String sep (String.concat (String sep EmptyString) (y :: l)))%string).
    rewrite split_app_sep by exact Hx. f_equal.
    apply IH; [discriminate|]. intros z Hz. apply Hl. now right.
Qed.

(** *** Characters of a string *)

Lemma toLowerCase_truthy (s : string) : truthy (toLowerCase s) = truthy s.
Proof. now destruct s. Qed.

Lemma search_blank_lower (s s' : string) :
  toLowerCase s' = toLowerCase s → truthy (trim s') = truthy (trim s).
Proof.
  intros H.
  rewrite <- (toLowerCase_truthy (trim s')), <- (toLowerCase_truthy (trim s)).
  rewrite !JsStringFacts.toLowerCase_trim. now rewrite H.
Qed.

Lemma startsWith_occurs (c : ascii) (p s : string) :
  startsWith p s = true → occurs c p → occurs c s.
Proof.
  revert s. induction p as [|a p IH]; intros s; simpl; [intros _ []|].
  destruct s as [|b s]; [discriminate|].
  intros H. apply andb_true_iff in H as [H1 H2]. apply Ascii.eqb_eq in H1.
  subst b. intros [->|Hc]; simpl; [now left | right; now apply IH].
Qed.

Lemma includes_occurs (c : ascii) (p s : string) :
  includes p s = true → occurs c p → occurs c s.
Proof.
  induction s as [|b s IH]; simpl.
  - rewrite orb_false_r. apply startsWith_occurs.
  - intros H Hc. apply orb_true_iff in H as [H|H].
    + exact (startsWith_occurs c p (String b s) H Hc).
    + right. now apply IH.
Qed.

Lemma toLowerCase_occurs (c : ascii) (s : string) :
  occurs c s → occurs (lowerChar c) (toLowerCase s).
Proof.
  induction s as [|a s IH]; simpl; [tauto|].
  intros [->|H]; [now left | right; now apply IH].
Qed.

Lemma occurs_toLowerCase (c : ascii) (s : string) :
  occurs c (toLowerCase s) → ∃ c0, occurs c0 s ∧ c = lowerChar c0.
Proof.
  induction s as [|a s IH]; simpl; [tauto|].
  intros [<-|H]; [exists a; auto|].
  destruct (IH H) as (c0 & H0 & ->). exists c0. auto.
Qed.

Lemma trimStart_occurs_inv (c : ascii) (s : string) :
  occurs c (trimStart s) → occurs c s.
Proof.
  induction s as [|a s IH]; simpl; [tauto|].
  destruct (isWhiteSpace a); simpl; [auto | tauto].
Qed.

Lemma trimEnd_occurs_inv (c : ascii) (s : string) :
  occurs c (trimEnd s) → occurs c s.
Proof.
  induction s as [|a s IH]; simpl; [tauto|].
  destruct (trimEnd s) as [|b t].
  - destruct (isWhiteSpace a); simpl; tauto.
  - simpl. intros [H|H]; [now left | right; apply IH; exact H].
Qed.

Lemma lowerChar_comma (c : ascii) : lowerChar c = ","%char → c = ","%char.
Proof.
  destruct c as [[] [] [] [] [] [] [] []]; vm_compute; intros H;
    first [reflexivity | discriminate H].
Qed.

End JsStringMore.

(** ** The flush component: whole files *)
Module FlushMore.
Import JsNumber Flush Binary64 Exact64 Order64 FlushFacts JsStringMore.
Local Open Scope list_scope.

(** *** Sums of positive amounts *)

Lemma total_snoc (l : list number) (a : number) :
  total (l ++ [a]) = add (total l) a.
Proof. unfold total. rewrite fold_left_app. reflexivity. Qed.

Lemma bucketTotal_snoc (l : list number) (a : number) :
  bucketTotal (l ++ [a]) = add (orElse (bucketTotal l) zero) a.
Proof. unfold bucketTotal. rewrite fold_left_app. reflexivity. Qed.

Lemma positive_truthy (x : number) : positive_ x → orElse x zero = x.
Proof. destruct x as [[]|[]| |[] m e]; simpl; intros H; try destruct H; reflexivity. Qed.

(** A running total of positive numbers is positive once it has one term,
    and is not below its first term. *)
Lemma total_positive (l : list number) :
  Forall (λ a, valid a ∧ positive_ a) l →
  valid (total l) ∧ nonneg (total l)
  ∧ (l ≠ [] → positive_ (total l))
  ∧ (∀ a, head l = Some a → le a (total l) = true).
Proof.
  induction l as [|a l IH] using rev_ind; intros Hl.
  - split; [exact (proj1 zero_clean)|]. split; [exact I|].
    split; [congruence | discriminate].
  - apply Forall_app in Hl as [Hl Ha]. apply Forall_singleton in Ha as [Va Pa].
    destruct (IH Hl) as (Vt & Nt & Pt & Ht).
    rewrite total_snoc.
    destruct (add_nonneg (total l) a Vt Nt Va (positive_nonneg _ Pa))
      as (V & N & L & P).
    split; [exact V|]. split; [exact N|]. split; [auto|].
    intros b Hb. destruct l as [|c l'].
    + simpl in Hb. injection Hb as <-. change (total []) with zero.
      rewrite add_zero_l by (intros ->; destruct Pa).
      apply le_refl_nonneg, positive_nonneg, Pa.
    + simpl in Hb. injection Hb as <-.
      apply Forall_cons in Hl as [[Vc Pc] _].
      apply (le_trans_nonneg c (total (c :: l')) _);
        [apply positive_nonneg, Pc | exact Nt | exact N | | exact L].
      apply Ht. reflexivity.
Qed.

Lemma bucketTotal_positive (l : list number) :
  Forall (λ a, valid a ∧ positive_ a) l → bucketTotal l = total l.
Proof.
  induction l as [|a l IH] using rev_ind; intros Hl; [reflexivity|].
  apply Forall_app in Hl as [Hl Ha].
  rewrite bucketTotal_snoc, total_snoc, (IH Hl). f_equal.
  destruct l as [|c l'] using rev_ind; [reflexivity|].
  apply positive_truthy. apply (total_positive _ Hl).
  intros E. apply app_eq_nil in E as [_ E]. discriminate.
Qed.

(** The count of a group is the number of its lines. *)
Lemma total_ones {A} (l : list A) :
  Z.of_nat (length l) < 2 ^ 53 →
  total (List.map (λ _, one) l) = ofZ (Z.of_nat (length l)).
Proof.
  induction l as [|a l IH] using rev_ind; intros Hl; [reflexivity|].
  rewrite length_app in Hl. simpl in Hl.
  rewrite List.map_app. cbn [List.map]. rewrite total_snoc, IH by lia.
  rewrite length_app. simpl. unfold one.
  rewrite add_ofZ by lia. f_equal. lia.
Qed.

(** *** The sign of the comparator *)

Lemma getTime_valid (d : JsDate.Date) : valid (getTime d).
Proof. destruct d; [apply binary_normalize_valid | reflexivity]. Qed.

Lemma difference_sign (x y : number) :
  valid x → valid y →
  lt (mul (sub x y) (ofZ 1)) zero = lt x y
  ∧ gt (mul (sub x y) (ofZ 1)) zero = gt x y
  ∧ lt (mul (sub x y) (ofZ (-1))) zero = gt x y
  ∧ gt (mul (sub x y) (ofZ (-1))) zero = lt x y.
Proof.
  intros Hx Hy. destruct (sub_sign x y Hx Hy) as [H1 H2].
  rewrite mul_minus_one, lt_neg_zero, gt_neg_zero.
  rewrite mul_one by now apply sub_valid. auto.
Qed.

Section Files.
Variable dateParse : string → JsDate.Date.

(** *** Lines that are skipped *)

Lemma processLine_included (ty : TransactionType) (line : string)
    (st : TransactionSummary * DailyAmounts) :
  included ty line = false → processLine dateParse ty line st = Some st.
Proof.
  destruct st as [s d]. unfold included. destruct (isInternal ty) eqn:Hty.
  - destruct ty; try discriminate. rewrite processLine_internal.
    now intros ->.
  - rewrite (processLine_accepted _ _ _ _ _ Hty). now intros ->.
Qed.

Lemma processLine_blank (ty : TransactionType) (line : string)
    (st : TransactionSummary * DailyAmounts) :
  JsString.truthy (JsString.trim line) = false →
  processLine dateParse ty line st = Some st.
Proof.
  intros H. destruct st as [s d]. unfold processLine. rewrite H. reflexivity.
Qed.

Lemma processLine_short (ty : TransactionType) (line : string)
    (st : TransactionSummary * DailyAmounts) :
  (length (rowColumns line) < (if isInternal ty then 11 else 15))%nat →
  processLine dateParse ty line st = Some st.
Proof.
  intros H. apply processLine_included. unfold included, recorded, accepted.
  destruct (isInternal ty).
  - apply Nat.ltb_lt in H. rewrite H. reflexivity.
  - apply Nat.ltb_lt in H. cbv zeta. rewrite H. reflexivity.
Qed.

(** X1. In every view a blank line and a line with fewer than the required
    number of columns (11 in the internal view, 15 otherwise) leave both
    accumulators as they are and never throw; the pass over a list of lines
    is the pass over the lines that the view includes. *)
Theorem skipped_lines (ty : TransactionType) :
  (∀ line st, JsString.truthy (JsString.trim line) = false →
     processLine dateParse ty line st = Some st)
  ∧ (∀ line st,
       (length (rowColumns line) < (if isInternal ty then 11 else 15))%nat →
       processLine dateParse ty line st = Some st)
  ∧ (∀ lines st,
       processLines dateParse ty lines st =
       processLines dateParse ty (List.filter (included ty) lines) st).
Proof.
  split; [apply processLine_blank|]. split; [apply processLine_short|].
  induction lines as [|line lines IH]; intros st; [reflexivity|].
  cbn [processLines List.filter].
  destruct (included ty line) eqn:Hi.
  - cbn [processLines]. destruct (processLine dateParse ty line st); simpl; auto.
  - rewrite processLine_included by exact Hi. simpl. apply IH.
Qed.

(** *** The header line *)

(** X2. The first line of the file is never read: two files that differ in
    their first line only give the same result, and a file of one line
    gives an empty summary and an empty series. *)
Theorem header_line_ignored (ty : TransactionType) (header header' body : string) :
  JsString.includes (String JsString.lf EmptyString) header = false →
  JsString.includes (String JsString.lf EmptyString) header' = false →
  flush dateParse ty (header ++ String JsString.lf body)
  = flush dateParse ty (header' ++ String JsString.lf body)
  ∧ dataLines (header ++ String JsString.lf body)
    = JsString.split JsString.lf body
  ∧ flush dateParse ty header = Some (∅, []).
Proof.
  intros H H'.
  assert (E : ∀ h,
            JsString.includes (String JsString.lf EmptyString) h = false →
            dataLines (h ++ String JsString.lf body)
            = JsString.split JsString.lf body).
  { intros h Hh. unfold dataLines. fold JsString.lf. now rewrite split_app_sep. }
  split; [|split; [now apply E|]].
  - unfold flush. now rewrite !E.
  - unfold flush, dataLines. fold JsString.lf. rewrite split_no_sep by exact H.
    reflexivity.
Qed.

(** *** Completion of the send and receive views *)

Lemma processTransaction_is_Some (from to_ : string) (a : number)
    (ts : JsDate.Date) (s : TransactionSummary) (d : DailyAmounts) :
  is_Some (processTransaction from to_ a ts s d) ↔
  is_Some ts
  ∧ (is_Some (s !! (if String.eqb from TARGET_ADDRESS then to_ else from))
     ∨ inheritedKey (if String.eqb from TARGET_ADDRESS then to_ else from)
       = false).
Proof.
  unfold processTransaction.
  destruct (s !! _) as [e|]; [|destruct (inheritedKey _)];
    destruct ts as [ms|]; simpl; split; eauto.
  all: try (now intros [? [=]]).
  all: try (now intros [[? [=]] _]).
  all: intros [_ [[? [=]]|[=]]].
Qed.

Lemma ownKeys_empty : ownKeys ∅.
Proof. intros k _. apply lookup_empty. Qed.

Lemma processLines_accepted_Some (ty : TransactionType) (lines : list string)
    (st : TransactionSummary * DailyAmounts) :
  isInternal ty = false →
  ownKeys st.1 →
  is_Some (processLines dateParse ty lines st) ↔
  ∀ line, In line (List.filter (accepted ty) lines) →
    is_Some (rowTimestamp dateParse (rowColumns line))
    ∧ inheritedKey (rowKey (rowColumns line)) = false.
Proof.
  intros Hty. revert st. induction lines as [|line lines IH]; intros [s d] Hown.
  - simpl. split; [intros _ ? [] | eauto].
  - cbn [processLines List.filter]. cbn [fst] in Hown.
    rewrite (processLine_accepted _ _ _ _ _ Hty).
    destruct (accepted ty line) eqn:Ha.
    + destruct (processTransaction _ _ _ _ s d) as [[s1 d1]|] eqn:E; simpl.
      * assert (Hts : is_Some (rowTimestamp dateParse (rowColumns line))
                      ∧ inheritedKey (rowKey (rowColumns line)) = false).
        { assert (Hs : is_Some (processTransaction (rowFrom (rowColumns line))
                     (rowTo (rowColumns line)) (rowAmount (rowColumns line))
                     (rowTimestamp dateParse (rowColumns line)) s d))
            by (rewrite E; eauto).
          apply processTransaction_is_Some in Hs as [Hts Hk].
          split; [exact Hts|]. fold (rowKey (rowColumns line)) in Hk.
          destruct Hk as [[e He]|Hk]; [|exact Hk].
          destruct (inheritedKey (rowKey (rowColumns line))) eqn:Hi;
            [|reflexivity].
          rewrite (Hown _ Hi) in He. discriminate. }
        rewrite IH.
        -- split.
           ++ intros H l [<-|Hl]; auto.
           ++ intros H l Hl. apply H. now right.
        -- apply processTransaction_Some in E as (ms & _ & -> & _).
           fold (rowKey (rowColumns line)). intros k Hk. simpl.
           rewrite lookup_insert_ne; [now apply Hown|].
           intros <-. destruct Hts as [_ Hts]. congruence.
      * split; [intros [? [=]]|]. intros H.
        assert (Hts : is_Some (rowTimestamp dateParse (rowColumns line))
                      ∧ inheritedKey (rowKey (rowColumns line)) = false)
          by (apply H; now left).
        assert (Hs : is_Some (processTransaction (rowFrom (rowColumns line))
                     (rowTo (rowColumns line)) (rowAmount (rowColumns line))
                     (rowTimestamp dateParse (rowColumns line)) s d)).
        { apply processTransaction_is_Some. destruct Hts as [Hts Hk].
          split; [exact Hts|]. now right. }
        rewrite E in Hs. exact Hs.
    + simpl. now apply IH.
Qed.

(** X3. In the send and the receive view the pass over a file completes
    exactly when, for every accepted line, the timestamp is a valid date and
    the lower-cased address of the other party is neither [constructor] nor
    [__proto__]; the first accepted line that fails this makes the callback
    throw. *)
Theorem send_receive_completes (ty : TransactionType) (csv : string) :
  isInternal ty = false →
  is_Some (flush dateParse ty csv) ↔
  ∀ line, In line (List.filter (accepted ty) (dataLines csv)) →
    is_Some (rowTimestamp dateParse (rowColumns line))
    ∧ rowKey (rowColumns line) ≠ "constructor"
    ∧ rowKey (rowColumns line) ≠ "__proto__".
Proof.
  intros Hty.
  transitivity (is_Some (processLines dateParse ty (dataLines csv) (∅, ∅))).
  { unfold flush.
    destruct (processLines dateParse ty (dataLines csv) (∅, ∅)) as [[s d]|];
      simpl; split; eauto; intros [? [=]]. }
  rewrite (processLines_accepted_Some ty _ (∅, ∅) Hty ownKeys_empty).
  assert (Hk : ∀ line, inheritedKey (rowKey (rowColumns line)) = false ↔
             rowKey (rowColumns line) ≠ "constructor"
             ∧ rowKey (rowColumns line) ≠ "__proto__").
  { intros line.
    pose proof (FlushFacts.inheritedKey_lower _
                  (FlushFacts.rowKey_lower (rowColumns line))) as H.
    destruct (inheritedKey (rowKey (rowColumns line))).
    - split; [discriminate|]. intros [H1 H2].
      destruct (proj1 H eq_refl); contradiction.
    - split; [|reflexivity]. intros _.
      split; intros E; [assert (false = true) by (apply H; now left)
                       | assert (false = true) by (apply H; now right)];
        discriminate. }
  split; intros H line Hl; destruct (H line Hl) as [H1 H2];
    (split; [exact H1 | now apply Hk]).
Qed.

(** *** Groups of the send and receive views *)

Lemma groupRows_snoc (ty : TransactionType) (k : string) (L : list string)
    (line : string) :
  groupRows ty k (L ++ [line]) =
  groupRows ty k L
  ++ (if accepted ty line && String.eqb (rowKey (rowColumns line)) k
      then [line] else []).
Proof.
  unfold groupRows. rewrite List.filter_app. simpl.
  now destruct (accepted ty line && _).
Qed.

Lemma processLine_groups (ty : TransactionType) (L : list string) (line : string)
    (st st' : TransactionSummary * DailyAmounts) :
  isInternal ty = false →
  processLine dateParse ty line st = Some st' →
  groupsInv ty L st.1 → groupsInv ty (L ++ [line]) st'.1.
Proof.
  destruct st as [s d], st' as [s' d']. intros Hty.
  rewrite (processLine_accepted _ _ _ _ _ Hty). simpl.
  destruct (accepted ty line) eqn:Ha.
  - intros H Hinv k. apply processTransaction_Some in H as (ms & Hts & -> & _).
    fold (rowKey (rowColumns line)). rewrite groupRows_snoc, Ha. simpl.
    specialize (Hinv k). rewrite lookup_insert. case_decide as Hk.
    + subst k. rewrite String.eqb_refl.
      destruct (s !! rowKey (rowColumns line)) as [e|]; simpl.
      * destruct Hinv as (Hne & Hto & Hh & Ham & Hc).
        split; [intros E; apply app_eq_nil in E as [_ E]; discriminate|].
        split; [exact Hto|]. split; [exact Hh|].
        rewrite !List.map_app. cbn [List.map].
        rewrite !total_snoc, Ham, Hc. split; reflexivity.
      * rewrite Hinv. simpl.
        split; [discriminate|]. repeat split; reflexivity.
    + apply String.eqb_neq in Hk. rewrite Hk, app_nil_r. exact Hinv.
  - intros [= <- <-] Hinv k. rewrite groupRows_snoc, Ha. simpl.
    rewrite app_nil_r. apply Hinv.
Qed.

Lemma processLines_groups (ty : TransactionType) (lines L : list string)
    (st st' : TransactionSummary * DailyAmounts) :
  isInternal ty = false →
  processLines dateParse ty lines st = Some st' →
  groupsInv ty L st.1 → groupsInv ty (L ++ lines) st'.1.
Proof.
  intros Hty. revert L st. induction lines as [|line lines IH]; intros L st; simpl.
  - intros [= <-]. now rewrite app_nil_r.
  - destruct (processLine dateParse ty line st) as [st1|] eqn:E; simpl;
      [|discriminate].
    intros H Hinv.
    replace (L ++ line :: lines) with ((L ++ [line]) ++ lines)
      by (now rewrite <- app_assoc).
    apply (IH _ _ H). eapply processLine_groups; eauto.
Qed.

Lemma groupsInv_empty (ty : TransactionType) : groupsInv ty [] ∅.
Proof. intros k. now rewrite lookup_empty. Qed.

Lemma flush_groups (ty : TransactionType) (csv : string)
    (summary : TransactionSummary) (totals : list DailyTotal) :
  isInternal ty = false →
  flush dateParse ty csv = Some (summary, totals) →
  groupsInv ty (dataLines csv) summary.
Proof.
  intros Hty H. apply flush_inv in H as (d & H & _).
  apply (processLines_groups ty _ [] _ _ Hty H (groupsInv_empty ty)).
Qed.

(** X4. In the send and the receive view, after a pass that completes, the
    summary has a group for a key exactly when some accepted line of the
    file has that key as its other party; the group carries the key in
    [to], has no hash, its amount is the running sum from 0 of the amounts
    of these lines in file order, and its count is their number (as long
    as that is below 2^53). *)
Theorem send_receive_groups (ty : TransactionType) (csv : string)
    (summary : TransactionSummary) (totals : list DailyTotal) :
  isInternal ty = false →
  flush dateParse ty csv = Some (summary, totals) →
  ∀ k, let rows := groupRows ty k (dataLines csv) in
       match summary !! k with
       | Some e =>
           rows ≠ [] ∧ to e = k ∧ hash e = None
           ∧ amount e = total (List.map (λ line, rowAmount (rowColumns line)) rows)
           ∧ (Z.of_nat (length rows) < 2 ^ 53 →
              count e = ofZ (Z.of_nat (length rows)))
       | None => rows = []
       end.
Proof.
  intros Hty H k rows. pose proof (flush_groups ty csv _ _ Hty H k) as Hk.
  fold rows in Hk. destruct (summary !! k) as [e|]; [|exact Hk].
  destruct Hk as (Hne & Hto & Hh & Ham & Hc).
  repeat (split; [assumption|]). intros Hlen. rewrite Hc.
  now apply total_ones.
Qed.

(** *** Day buckets *)

Lemma processLine_daily (ty : TransactionType) (line : string)
    (s s' : TransactionSummary) (d d' : DailyAmounts) :
  processLine dateParse ty line (s, d) = Some (s', d') →
  if included ty line
  then ∃ ms, rowTimestamp dateParse (rowColumns line) = Some ms
             ∧ d' = <[JsDate.isoDay ms :=
                        add (bucketOrZero d (JsDate.isoDay ms)) (lineAmount ty line)]> d
  else d' = d.
Proof.
  unfold included, lineAmount. destruct (isInternal ty) eqn:Hty.
  - destruct ty; try discriminate. rewrite processLine_internal.
    destruct (recorded line); [|now intros [= <- <-]].
    destruct (rowTimestamp dateParse (rowColumns line)) as [ms|]; simpl;
      [|discriminate].
    intros [= <- <-]. eauto.
  - rewrite (processLine_accepted _ _ _ _ _ Hty).
    destruct (accepted ty line); [|now intros [= <- <-]].
    intros H. apply processTransaction_Some in H as (ms & Hts & _ & ->). eauto.
Qed.

Lemma dayRows_snoc (ty : TransactionType) (day : string) (L : list string)
    (line : string) :
  dayRows dateParse ty day (L ++ [line]) =
  dayRows dateParse ty day L
  ++ (if included ty line
         && bool_decide (JsDate.toISODay (rowTimestamp dateParse (rowColumns line))
                         = Some day)
      then [line] else []).
Proof.
  unfold dayRows. rewrite List.filter_app. simpl.
  now destruct (included ty line && _).
Qed.

Lemma processLine_buckets (ty : TransactionType) (L : list string) (line : string)
    (st st' : TransactionSummary * DailyAmounts) :
  processLine dateParse ty line st = Some st' →
  bucketsInv dateParse ty L st.2 → bucketsInv dateParse ty (L ++ [line]) st'.2.
Proof.
  destruct st as [s d], st' as [s' d']. intros H Hinv day. simpl in *.
  apply processLine_daily in H. rewrite dayRows_snoc.
  destruct (included ty line); simpl.
  - destruct H as (ms & Hts & ->). rewrite Hts. simpl.
    rewrite lookup_insert. specialize (Hinv day). case_decide as Hk.
    + subst day. rewrite bool_decide_eq_true_2 by reflexivity.
      unfold bucketOrZero. rewrite Hinv.
      set (rows := dayRows dateParse ty (JsDate.isoDay ms) L).
      transitivity (Some (bucketTotal (List.map (lineAmount ty) (rows ++ [line])))).
      * rewrite List.map_app. cbn [List.map]. rewrite bucketTotal_snoc.
        now destruct rows.
      * now destruct rows.
    + rewrite bool_decide_eq_false_2 by congruence.
      rewrite app_nil_r. exact Hinv.
  - subst d'. rewrite app_nil_r. apply Hinv.
Qed.

Lemma processLines_buckets (ty : TransactionType) (lines L : list string)
    (st st' : TransactionSummary * DailyAmounts) :
  processLines dateParse ty lines st = Some st' →
  bucketsInv dateParse ty L st.2 → bucketsInv dateParse ty (L ++ lines) st'.2.
Proof.
  revert L st. induction lines as [|line lines IH]; intros L st; simpl.
  - intros [= <-]. now rewrite app_nil_r.
  - destruct (processLine dateParse ty line st) as [st1|] eqn:E; simpl;
      [|discriminate].
    intros H Hinv.
    replace (L ++ line :: lines) with ((L ++ [line]) ++ lines)
      by (now rewrite <- app_assoc).
    apply (IH _ _ H). eapply processLine_buckets; eauto.
Qed.

Lemma bucketsInv_empty (ty : TransactionType) : bucketsInv dateParse ty [] ∅.
Proof. intros k. now rewrite lookup_empty. Qed.

Lemma dayRows_positive (ty : TransactionType) (day : string) (L : list string) :
  isInternal ty = false →
  Forall (λ a, valid a ∧ positive_ a)
         (List.map (lineAmount ty) (dayRows dateParse ty day L)).
Proof.
  intros Hty. apply Forall_forall. intros a Ha.
  apply list_elem_of_In, in_map_iff in Ha as (line & <- & Hin).
  apply filter_In in Hin as [_ Hc]. apply andb_true_iff in Hc as [Hi _].
  unfold included, lineAmount in *. rewrite Hty in *.
  exact (accepted_positive ty _ Hi).
Qed.

(** X5. After a pass that completes, in every view, the series has exactly
    one entry for each UTC day on which an included line of the file falls;
    the amount of the entry is what the steps [(bucket || 0) + amount] leave
    for the lines of that day in file order, and in the send and the receive
    view this is the running sum from 0 of their amounts. *)
Theorem day_buckets (ty : TransactionType) (csv : string)
    (summary : TransactionSummary) (totals : list DailyTotal) :
  flush dateParse ty csv = Some (summary, totals) →
  let rows := λ day, dayRows dateParse ty day (dataLines csv) in
  NoDup (List.map date totals)
  ∧ (∀ day, day ∈ List.map date totals ↔ rows day ≠ [])
  ∧ (∀ t, t ∈ totals →
       dayAmount t = bucketTotal (List.map (lineAmount ty) (rows (date t))))
  ∧ (isInternal ty = false →
     ∀ t, t ∈ totals →
       dayAmount t = total (List.map (lineAmount ty) (rows (date t)))).
Proof.
  intros H rows. apply flush_inv in H as (d & H & ->).
  pose proof (processLines_buckets ty _ [] _ _ H (bucketsInv_empty ty)) as Hinv.
  simpl in Hinv. fold rows in Hinv.
  assert (Hdates : List.map date (buildDailyTotals d) = sortedDates d)
    by apply cumulate_dates.
  assert (Hdom : ∀ day, day ∈ sortedDates d ↔ rows day ≠ []).
  { intros day. rewrite sortedDates_elem, (Hinv day). unfold rows.
    destruct (dayRows dateParse ty day (dataLines csv)).
    - split; [intros [? [=]] | congruence].
    - split; [discriminate | eauto]. }
  assert (Ham : ∀ t, t ∈ buildDailyTotals d →
            dayAmount t = bucketTotal (List.map (lineAmount ty) (rows (date t)))).
  { intros t Ht. rewrite (cumulate_amount _ _ _ _ Ht).
    assert (Hin : date t ∈ sortedDates d).
    { rewrite <- Hdates. apply list_elem_of_In, in_map, list_elem_of_In, Ht. }
    apply Hdom in Hin. rewrite (Hinv (date t)). unfold rows in *.
    destruct (dayRows dateParse ty (date t) (dataLines csv)); [congruence|].
    reflexivity. }
  rewrite Hdates. split; [apply sortedDates_NoDup|]. split; [exact Hdom|].
  split; [exact Ham|].
  intros Hty t Ht. rewrite (Ham t Ht). apply bucketTotal_positive.
  now apply dayRows_positive.
Qed.

(** X6. In the send and the receive view, after a pass that completes,
    every group has an amount above 0 and a count of at least 1, and every
    entry of the series has an amount and a cumulative total above 0: none
    of them is NaN, zero or negative. *)
Theorem send_receive_positive (ty : TransactionType) (csv : string)
    (summary : TransactionSummary) (totals : list DailyTotal) :
  isInternal ty = false →
  flush dateParse ty csv = Some (summary, totals) →
  (∀ k e, summary !! k = Some e →
     gt (amount e) zero = true ∧ le one (count e) = true)
  ∧ (∀ t, t ∈ totals →
       gt (dayAmount t) zero = true ∧ gt (cumulative t) zero = true).
Proof.
  intros Hty H. pose proof (flush_groups ty csv _ _ Hty H) as Hg.
  apply flush_inv in H as (d & H & ->). split.
  - intros k e Hk. specialize (Hg k). rewrite Hk in Hg.
    destruct Hg as (Hne & _ & _ & Ham & Hc). split.
    + apply gt_zero_positive. rewrite Ham.
      refine (proj1 (proj2 (proj2 (total_positive _ _))) _).
      * apply Forall_forall. intros a Ha.
        apply list_elem_of_In, in_map_iff in Ha as (line & <- & Hin).
        apply filter_In in Hin as [_ Hc']. apply andb_true_iff in Hc' as [Hi _].
        exact (accepted_positive ty _ Hi).
      * intros E. apply map_eq_nil in E. contradiction.
    + rewrite Hc.
      refine (proj2 (proj2 (proj2 (total_positive _ _))) _ _).
      * apply Forall_forall. intros a Ha.
        apply list_elem_of_In, in_map_iff in Ha as (line & <- & Hin).
        exact one_valid.
      * destruct (groupRows ty k (dataLines csv)); [contradiction|reflexivity].
  - pose proof (processLines_dailyPositive dateParse ty _ _ _ Hty H dailyPositive_empty)
      as Hp. simpl in Hp.
    assert (Hday : ∀ t, t ∈ buildDailyTotals d →
              valid (dayAmount t) ∧ positive_ (dayAmount t)).
    { intros t Ht. rewrite (cumulate_amount _ _ _ _ Ht).
      assert (Hin : date t ∈ sortedDates d).
      { rewrite <- (cumulate_dates d zero (sortedDates d)).
        apply list_elem_of_In, in_map, list_elem_of_In, Ht. }
      apply sortedDates_elem in Hin as [v Hv]. rewrite Hv. simpl.
      exact (Hp _ _ Hv). }
    intros t Ht. split; [apply gt_zero_positive, Hday, Ht|].
    apply gt_zero_positive.
    apply list_elem_of_lookup in Ht as [i Hi].
    unfold buildDailyTotals in *. rewrite (cumulate_prefix _ _ _ _ _ Hi).
    refine (proj1 (proj2 (proj2 (total_positive _ _))) _).
    + apply Forall_forall. intros a Ha.
      apply list_elem_of_In, in_map_iff in Ha as (u & <- & Hin).
      apply Hday. apply list_elem_of_In in Hin.
      apply elem_of_take in Hin as (j & Hj & _).
      apply list_elem_of_lookup. eauto.
    + intros E. apply map_eq_nil in E.
      destruct (cumulate d zero (sortedDates d));
        [rewrite lookup_nil in Hi; discriminate | discriminate E].
Qed.

(** *** The number of groups *)

Lemma groupRows_key (ty : TransactionType) (L : list string) (k : string) :
  groupRows ty k L ≠ [] ↔
  k ∈ List.map (λ line, rowKey (rowColumns line)) (List.filter (accepted ty) L).
Proof.
  rewrite list_elem_of_In, in_map_iff. unfold groupRows. split.
  - intros H. destruct (List.filter _ L) as [|line rest] eqn:E; [congruence|].
    assert (Hin : In line (List.filter
              (λ l, accepted ty l && String.eqb (rowKey (rowColumns l)) k) L))
      by (rewrite E; now left).
    apply filter_In in Hin as [Hin Hc]. apply andb_true_iff in Hc as [Ha Hk].
    apply String.eqb_eq in Hk. exists line. split; [exact Hk|].
    apply filter_In. auto.
  - intros (line & Hk & Hin) E. apply filter_In in Hin as [Hin Ha].
    assert (Hx : In line (List.filter
              (λ l, accepted ty l && String.eqb (rowKey (rowColumns l)) k) L)).
    { apply filter_In. split; [exact Hin|]. rewrite Ha. simpl.
      now apply String.eqb_eq. }
    rewrite E in Hx. destruct Hx.
Qed.

(** X7. In the send and the receive view, after a pass that completes, the
    keys of the summary are exactly the other parties of the accepted lines,
    and the number of addresses shown in the statistics is the number of
    distinct other parties. *)
Theorem summary_size_counterparties (ty : TransactionType) (csv : string)
    (summary : TransactionSummary) (totals : list DailyTotal) :
  isInternal ty = false →
  flush dateParse ty csv = Some (summary, totals) →
  let keys := List.map (λ line, rowKey (rowColumns line))
                       (List.filter (accepted ty) (dataLines csv)) in
  (∀ k, is_Some (summary !! k) ↔ k ∈ keys)
  ∧ totalAddresses summary = length (remove_dups keys).
Proof.
  intros Hty H keys. pose proof (flush_groups ty csv _ _ Hty H) as Hg.
  assert (Hdom : ∀ k, is_Some (summary !! k) ↔ k ∈ keys).
  { intros k. unfold keys. rewrite <- groupRows_key. specialize (Hg k).
    destruct (summary !! k) as [e|].
    - split; [intros _; apply Hg | eauto].
    - rewrite Hg. split; [intros [? [=]] | congruence]. }
  split; [exact Hdom|]. unfold totalAddresses.
  rewrite <- (size_dom (D := gset string)).
  rewrite <- (size_list_to_set (C := gset string) (remove_dups keys))
    by apply NoDup_remove_dups.
  f_equal. apply set_eq. intros k.
  rewrite elem_of_dom, elem_of_list_to_set, elem_of_remove_dups.
  apply Hdom.
Qed.

(** *** The order of the table *)

Lemma flush_summary_valid (ty : TransactionType) (csv : string)
    (summary : TransactionSummary) (totals : list DailyTotal)
    (k : string) (e : Transaction) :
  flush dateParse ty csv = Some (summary, totals) →
  summary !! k = Some e → valid (amount e) ∧ valid (count e).
Proof.
  intros H Hk. apply flush_inv in H as (d & H & _).
  destruct (isInternal ty) eqn:Hty.
  - destruct ty; try discriminate.
    pose proof (processLines_internalInv dateParse _ [] _ _ H
                  (internalInv_empty dateParse) k) as Hinv.
    simpl in Hinv. rewrite Hk in Hinv.
    destruct (String.eqb k "__proto__"); [discriminate|].
    destruct (last _) as [line|]; [|discriminate].
    injection Hinv as ->. simpl.
    split; [apply internalAmount_clean | apply one_valid].
  - destruct (processLines_mono dateParse ty _ _ _ Hty H summaryNonneg_empty)
      as [Hs _].
    destruct (Hs k e Hk) as (Va & _ & Vc & _). auto.
Qed.

(** X8. After a pass that completes, in every view, the comparator of the
    table orders any two entries of the summary by the chosen column: in
    ascending direction it is negative exactly when the value of the first
    entry is below that of the second and positive exactly when it is
    above, and in descending direction the two are exchanged. *)
Theorem summary_sort_order (ty : TransactionType) (csv : string)
    (summary : TransactionSummary) (totals : list DailyTotal)
    (ka kb : string) (a b : Transaction) (sortBy : SortBy) :
  flush dateParse ty csv = Some (summary, totals) →
  summary !! ka = Some a → summary !! kb = Some b →
  lt (compareTransactions sortBy asc a b) zero
  = lt (sortValue sortBy a) (sortValue sortBy b)
  ∧ gt (compareTransactions sortBy asc a b) zero
    = gt (sortValue sortBy a) (sortValue sortBy b)
  ∧ lt (compareTransactions sortBy desc a b) zero
    = gt (sortValue sortBy a) (sortValue sortBy b)
  ∧ gt (compareTransactions sortBy desc a b) zero
    = lt (sortValue sortBy a) (sortValue sortBy b).
Proof.
  intros H Ha Hb.
  destruct (flush_summary_valid _ _ _ _ _ _ H Ha) as [Va Ca].
  destruct (flush_summary_valid _ _ _ _ _ _ H Hb) as [Vb Cb].
  destruct sortBy; unfold compareTransactions, sortValue;
    apply difference_sign; auto using getTime_valid.
Qed.

End Files.

(** *** Lines, columns and addresses *)

(** X9. The amount read from a line is never NaN and never -0, in every
    view: it is a valid binary64 number, and an amount column that cannot be
    read as a number counts as 0. *)
Theorem row_amounts_never_nan (columns : list string) :
  (valid (rowAmount columns) ∧ rowAmount columns ≠ NaN
   ∧ rowAmount columns ≠ S754_zero true)
  ∧ (valid (internalAmount columns) ∧ internalAmount columns ≠ NaN
     ∧ internalAmount columns ≠ S754_zero true)
  ∧ (parseFloat (JsString.stripQuotes (column columns 10)) = NaN →
     internalAmount columns = zero)
  ∧ (parseFloat (JsString.stripQuotes (column columns 7)) = NaN →
     parseFloat (JsString.stripQuotes (column columns 8)) = NaN →
     rowAmount columns = zero).
Proof.
  split; [|split; [|split]].
  - unfold rowAmount.
    destruct (orElse_zero_clean
                (orElse (parseFloat (JsString.stripQuotes (column columns 7)))
                        (parseFloat (JsString.stripQuotes (column columns 8)))))
      as [[V Z] N]; [apply orElse_valid; apply parseFloat_valid|].
    auto.
  - unfold internalAmount.
    destruct (orElse_zero_clean
                (parseFloat (JsString.stripQuotes (column columns 10))))
      as [[V Z] N]; [apply parseFloat_valid|].
    auto.
  - unfold internalAmount. now intros ->.
  - unfold rowAmount. now intros -> ->.
Qed.

(** X10. The columns of a line are cut at every comma, quoted or not:
    joining them with commas gives back the line without its numeric
    prefix, and no column contains a comma. *)
Theorem row_columns_join (line : string) :
  String.concat "," (rowColumns line) = JsString.stripLinePrefix line
  ∧ (∀ col, In col (rowColumns line) → ¬ JsString.occurs ","%char col)
  ∧ rowColumns line ≠ [].
Proof.
  unfold rowColumns. split; [apply concat_split|].
  split; [apply split_fields | apply split_not_nil].
Qed.

(** X11. In the send view a group is keyed by the recipient of its lines
    and in the receive view by their sender: the other party of the
    transfer in both. *)
Theorem group_key_counterparty (ty : TransactionType) (line : string) :
  accepted ty line = true →
  rowKey (rowColumns line)
  = (if isSend ty then rowTo (rowColumns line) else rowFrom (rowColumns line))
  ∧ (if isSend ty then rowFrom (rowColumns line) else rowTo (rowColumns line))
    = TARGET_ADDRESS.
Proof.
  intros H. unfold accepted in H. cbv zeta in H.
  apply andb_true_iff in H as [_ H]. unfold rowKey.
  apply orb_true_iff in H as [H|H];
    apply andb_true_iff in H as [H _]; apply andb_true_iff in H as [Ht H];
    apply String.eqb_eq in H; destruct ty; try discriminate; simpl.
  - rewrite H, String.eqb_refl. auto.
  - split; [|exact H].
    destruct (String.eqb_spec (rowFrom (rowColumns line)) TARGET_ADDRESS) as [E|E];
      congruence.
Qed.

Local Open Scope string_scope.

(** X12. The abbreviation keeps the first six and the last four characters
    around an ellipsis: an address of ten characters or more loses what lies
    between them, while an address of at most four characters is shown in
    full twice.  The result has min(6, n) + 3 + min(4, n) characters. *)
Theorem abbreviateAddress_shape :
  (∀ prefix middle suffix,
     String.length prefix = 6%nat → String.length suffix = 4%nat →
     abbreviateAddress (prefix ++ middle ++ suffix) = prefix ++ "..." ++ suffix)
  ∧ (∀ address, (String.length address ≤ 4)%nat →
       abbreviateAddress address = address ++ "..." ++ address)
  ∧ (∀ address,
       String.length (abbreviateAddress address)
       = (Nat.min 6 (String.length address) + 3
          + Nat.min 4 (String.length address))%nat).
Proof.
  unfold abbreviateAddress.
  change 6 with (Z.of_nat 6). change (-4) with (- Z.of_nat 4).
  split; [|split].
  - intros p m s Hp Hs. rewrite slice_head, slice_tail by lia.
    rewrite <- Hp at 1. rewrite substring_0_app.
    rewrite <- (append_assoc p m s).
    replace (String.length ((p ++ m) ++ s) - 4)%nat with (String.length (p ++ m))
      by (rewrite !append_length; lia).
    rewrite substring_skip_app, substring_0_all by lia. reflexivity.
  - intros a Ha. rewrite slice_head, slice_tail by lia.
    replace (String.length a - 4)%nat with 0%nat by lia.
    rewrite !substring_0_all by lia. reflexivity.
  - intros a. rewrite slice_head, slice_tail by lia.
    rewrite !append_length, !substring_length. simpl String.length. lia.
Qed.

End FlushMore.

(** ** The stakes component: search, ranges and sorting *)
Module StakesMore.
Import JsNumber Stakes Binary64 Exact64 Order64 StakesFacts JsStringMore.
Local Open Scope list_scope.

(** *** The address search *)

Lemma keepStake_parts (dateParse : string → JsDate.Date)
    (fs : Filters) (stake : StakeStart) :
  keepStake dateParse fs stake =
  negb (statusRejects (statusFilter fs) stake)
  && negb (searchRejects fs stake)
  && negb (lt (parseInt (timestamp stake))
              (floorSeconds (dateParse (from (startDateRange fs))))
           || gt (parseInt (timestamp stake))
                 (floorSeconds (dateParse (to (startDateRange fs)))))
  && negb (lt (getEndTimestamp stake)
              (floorSeconds (dateParse (from (endDateRange fs))))
           || gt (getEndTimestamp stake)
                 (floorSeconds (dateParse (to (endDateRange fs))))).
Proof.
  unfold keepStake, statusRejects, searchRejects, getEndTimestamp.
  destruct (isActive (statusFilter fs) && _); [reflexivity|].
  destruct (isEnded (statusFilter fs) && _); [reflexivity|].
  destruct (JsString.truthy (JsString.trim (searchAddress fs)) && _); [reflexivity|].
  cbv zeta.
  destruct (lt (parseInt (timestamp stake)) _ || _); [reflexivity|].
  destruct (lt _ _ || _); reflexivity.
Qed.

(** X13. The address search ignores letter case on both sides: a search
    string and a staker address can be replaced by any strings with the
    same lower-case form without changing which stakes the filter keeps. *)
Theorem search_case_insensitive (dateParse : string → JsDate.Date)
    (fs : Filters) (stake : StakeStart) (search' addr' : string) :
  JsString.toLowerCase search' = JsString.toLowerCase (searchAddress fs) →
  JsString.toLowerCase addr' = JsString.toLowerCase (stakerAddr stake) →
  keepStake dateParse (withSearch search' fs) (withStaker addr' stake)
  = keepStake dateParse fs stake.
Proof.
  intros Hs Ha. rewrite !keepStake_parts.
  unfold searchRejects, statusRejects, getEndTimestamp, withSearch, withStaker.
  cbn [statusFilter searchAddress startDateRange endDateRange stakerAddr
       stakeEnd timestamp endDay].
  now rewrite Hs, Ha, (search_blank_lower _ _ Hs).
Qed.

(** X14. The search string is trimmed for the emptiness test only: a search
    string of white space alone filters nothing, whereas a search string
    that has other characters and also a white-space character rejects
    every stake whose address has no white space. *)
Theorem search_white_space (dateParse : string → JsDate.Date)
    (fs : Filters) (stake : StakeStart) :
  (JsString.truthy (JsString.trim (searchAddress fs)) = false →
   searchRejects fs stake = false
   ∧ keepStake dateParse fs stake
     = keepStake dateParse (withSearch EmptyString fs) stake)
  ∧ (JsString.truthy (JsString.trim (searchAddress fs)) = true →
     (∃ c, JsString.isWhiteSpace c = true
           ∧ JsString.occurs c (searchAddress fs)) →
     (∀ c, JsString.occurs c (stakerAddr stake) →
           JsString.isWhiteSpace c = false) →
     searchRejects fs stake = true ∧ keepStake dateParse fs stake = false).
Proof.
  split.
  - intros H. rewrite !keepStake_parts. unfold searchRejects, withSearch.
    cbn [statusFilter searchAddress startDateRange endDateRange].
    rewrite H. split; reflexivity.
  - intros H (c & Hw & Hc) Haddr.
    assert (Hr : searchRejects fs stake = true).
    { unfold searchRejects. rewrite H. simpl.
      destruct (JsString.includes _ _) eqn:Hi; [|reflexivity]. exfalso.
      apply toLowerCase_occurs in Hc.
      apply (includes_occurs _ _ _ Hi) in Hc.
      apply occurs_toLowerCase in Hc as (c0 & H0 & E).
      apply Haddr in H0.
      rewrite <- (JsStringFacts.isWhiteSpace_lowerChar c0), <- E in H0.
      rewrite JsStringFacts.isWhiteSpace_lowerChar in H0. congruence. }
    split; [exact Hr|]. rewrite keepStake_parts, Hr.
    now rewrite andb_false_r.
Qed.

(** *** The date ranges *)

Lemma lt_nan_l (x : number) : lt NaN x = false.
Proof. reflexivity. Qed.

Lemma lt_nan_r (x : number) : lt x NaN = false.
Proof. now destruct x. Qed.

Lemma add_nan_r (x : number) : add x NaN = NaN.
Proof. now destruct x. Qed.

(** X15. A date-range check compares with NaN, and so rejects nothing,
    when both of its bounds are invalid dates or when the number of the
    stake is not readable: the filter then keeps exactly the stakes that
    pass the status and the address criteria. *)
Theorem unreadable_dates_disable_ranges (dateParse : string → JsDate.Date)
    (fs : Filters) (stake : StakeStart) :
  (dateParse (from (startDateRange fs)) = None
   ∧ dateParse (to (startDateRange fs)) = None)
  ∨ parseInt (timestamp stake) = NaN →
  (dateParse (from (endDateRange fs)) = None
   ∧ dateParse (to (endDateRange fs)) = None)
  ∨ parseInt (endDay stake) = NaN →
  keepStake dateParse fs stake
  = negb (statusRejects (statusFilter fs) stake) && negb (searchRejects fs stake).
Proof.
  intros Hs He. rewrite keepStake_parts.
  assert (E1 : lt (parseInt (timestamp stake))
                  (floorSeconds (dateParse (from (startDateRange fs))))
               || gt (parseInt (timestamp stake))
                     (floorSeconds (dateParse (to (startDateRange fs)))) = false).
  { destruct Hs as [[-> ->]| ->]; unfold gt; simpl floorSeconds.
    - now rewrite lt_nan_r, lt_nan_l.
    - now rewrite lt_nan_r, lt_nan_l. }
  assert (E2 : lt (getEndTimestamp stake)
                  (floorSeconds (dateParse (from (endDateRange fs))))
               || gt (getEndTimestamp stake)
                     (floorSeconds (dateParse (to (endDateRange fs)))) = false).
  { unfold getEndTimestamp.
    destruct He as [[-> ->]| ->]; unfold gt; simpl floorSeconds.
    - now rewrite lt_nan_r, lt_nan_l.
    - change (mul NaN SECONDS_PER_DAY) with NaN. rewrite add_nan_r.
      now rewrite lt_nan_r, lt_nan_l. }
  rewrite E1, E2. simpl. now rewrite !andb_true_r.
Qed.

(** *** The status selection *)

Lemma filter_partition {A} (f g h : A → bool) (l : list A) :
  (∀ x, f x = true → xorb (g x) (h x) = true) →
  (∀ x, g x = true → f x = true) → (∀ x, h x = true → f x = true) →
  List.filter f l ≡ₚ List.filter g l ++ List.filter h l.
Proof.
  intros Hf Hg Hh. induction l as [|x l IH]; [reflexivity|]. simpl.
  specialize (Hf x). specialize (Hg x). specialize (Hh x).
  destruct (f x), (g x), (h x); simpl in *;
    try (specialize (Hf eq_refl)); try (specialize (Hg eq_refl));
    try (specialize (Hh eq_refl)); try discriminate.
  - now constructor.
  - rewrite IH. apply Permutation_middle.
  - exact IH.
Qed.

(** X16. The status selection splits a page: the stakes kept under [all]
    are those kept under [active] together with those kept under [ended],
    and no stake is kept under both. *)
Theorem status_partition (dateParse : string → JsDate.Date)
    (fs : Filters) (page : list StakeStart) :
  let kept := λ f, filteredStakes dateParse (withStatus f fs) (Some page) in
  kept all ≡ₚ kept active ++ kept ended
  ∧ length (kept all) = (length (kept active) + length (kept ended))%nat
  ∧ (∀ stake, ¬ (keepStake dateParse (withStatus active fs) stake = true
                 ∧ keepStake dateParse (withStatus ended fs) stake = true)).
Proof.
  intros kept.
  assert (P : kept all ≡ₚ kept active ++ kept ended).
  { unfold kept, filteredStakes. apply filter_partition.
    - intros x Hx.
      rewrite (keepStake_status _ active), (keepStake_status _ ended), Hx.
      rewrite !andb_true_r. unfold statusRejects. simpl.
      now destruct (bool_decide _).
    - intros x. rewrite (keepStake_status _ active). intros H.
      now apply andb_true_iff in H as [_ H].
    - intros x. rewrite (keepStake_status _ ended). intros H.
      now apply andb_true_iff in H as [_ H]. }
  split; [exact P|]. split.
  - rewrite P. apply length_app.
  - intros stake [Ha He].
    rewrite (keepStake_status _ active) in Ha.
    rewrite (keepStake_status _ ended) in He.
    apply andb_true_iff in Ha as [Ha _]. apply andb_true_iff in He as [He _].
    unfold statusRejects in *. simpl in *.
    destruct (bool_decide _); discriminate.
Qed.

(** *** The page size *)

(** X17. Whatever is typed into the page-size input of the stakes page,
    the limit that is set lies between 10 and 1000: it is the integer read
    from the input when that lies in the range, and 10 when no non-zero
    integer can be read. *)
Theorem page_size_clamped (value : string) :
  le (ofZ 10) (Stakes.limitChange value) = true
  ∧ le (Stakes.limitChange value) (ofZ 1000) = true
  ∧ (le (ofZ 10) (parseInt value) = true →
     le (parseInt value) (ofZ 1000) = true →
     Stakes.limitChange value = parseInt value)
  ∧ (truthy (parseInt value) = false → Stakes.limitChange value = ofZ 10).
Proof.
  unfold Stakes.limitChange. generalize (parseInt value) as x. intros x.
  rewrite ofZ_10, ofZ_1000.
  destruct x as [s|[]| |s m e].
  - repeat split; try reflexivity. intros H. destruct s; discriminate H.
  - repeat split; try reflexivity; intros H; discriminate H.
  - repeat split; try reflexivity; intros H; try discriminate H.
    intros H'. discriminate H'.
  - repeat split; try reflexivity; intros H; discriminate H.
  - cbn [orElse truthy Math.max].
    set (c10 := S754_finite false 5629499534213120 (-49)).
    set (c1000 := S754_finite false 8796093022208000 (-43)).
    set (x := S754_finite s m e).
    destruct (lt c10 x) eqn:E1.
    + cbn [Math.min c1000 x]. fold x c1000.
      destruct (lt x c1000) eqn:E2.
      * split; [now apply lt_le|]. split; [now apply lt_le|].
        split; [reflexivity | discriminate].
      * split; [reflexivity|]. split; [reflexivity|].
        split; [|discriminate]. intros _ H. symmetry.
        now apply le_not_lt_eq.
    + assert (Em : Math.min c1000 c10 = c10) by reflexivity. rewrite Em.
      split; [reflexivity|]. split; [reflexivity|].
      split; [|discriminate]. intros H _.
      now apply le_not_lt_eq.
Qed.

(** *** The comparator of the stakes table *)

Section Comparator.
Variable localeCompare : string → string → number.

Lemma compareStakes_key (f : SortField) (d : SortDirection) (a b : StakeStart) :
  f ≠ stakeEnded →
  compareStakes localeCompare f d a b
  = mul (sub (sortKey f a) (sortKey f b))
        (match d with asc => ofZ 1 | desc => ofZ (-1) end).
Proof. destruct f; intros H; try reflexivity. now destruct H. Qed.

Lemma parseFloat_0 : parseFloat "0" = zero.
Proof. vm_compute. reflexivity. Qed.

Lemma parseInt_0 : parseInt "0" = zero.
Proof. vm_compute. reflexivity. Qed.

Lemma zero_times_direction (s : bool) (d : SortDirection) :
  ∃ s', mul (S754_zero s) (match d with asc => ofZ 1 | desc => ofZ (-1) end)
        = S754_zero s'.
Proof. rewrite ofZ_one, ofZ_minus_one. destruct d; simpl; eauto. Qed.

(** X18. Two stakes that have not ended tie under the yield, ROI, days
    served, early/late and penalty columns: the comparator returns a zero
    for them in either direction.  Under the minted column it returns what
    it returns under the staked column, unless a staked amount reads as
    -0. *)
Theorem active_stakes_tie (d : SortDirection) (a b : StakeStart) :
  stakeEnd a = None → stakeEnd b = None →
  (∀ f, In f [yield; roi; daysServed; earlyLate; penalty_] →
     ∃ s, compareStakes localeCompare f d a b = S754_zero s)
  ∧ (parseFloat (stakedHearts a) ≠ S754_zero true →
     parseFloat (stakedHearts b) ≠ S754_zero true →
     compareStakes localeCompare minted d a b
     = compareStakes localeCompare hexStaked d a b).
Proof.
  intros Ha Hb. split.
  - intros f Hf. simpl in Hf.
    assert (E : sub (sortKey f a) (sortKey f b) = zero).
    { destruct Hf as [<-|[<-|[<-|[<-|[<-|[]]]]]];
        unfold sortKey, endField, sortRoi; rewrite Ha, Hb;
        rewrite ?parseFloat_0, ?parseInt_0; reflexivity. }
    rewrite compareStakes_key
      by (destruct Hf as [<-|[<-|[<-|[<-|[<-|[]]]]]]; discriminate).
    rewrite E. apply zero_times_direction.
  - intros Za Zb. unfold compareStakes, endField. rewrite Ha, Hb, parseFloat_0.
    cbv zeta. now rewrite !add_zero_l.
Qed.

Lemma falsy_times_direction (v : number) (d : SortDirection) :
  truthy v = false →
  truthy (mul v (match d with asc => ofZ 1 | desc => ofZ (-1) end)) = false.
Proof. rewrite ofZ_one, ofZ_minus_one. now destruct v, d. Qed.

(** X19. A stake never sorts before or after itself: for every column but
    the end date, whose order is left to the locale, the comparator
    applied to a stake and itself is a zero or NaN, which [sort] reads as
    a tie. *)
Theorem comparator_self_tie (f : SortField) (d : SortDirection) (a : StakeStart) :
  f ≠ stakeEnded → truthy (compareStakes localeCompare f d a a) = false.
Proof.
  intros Hf. rewrite compareStakes_key by exact Hf.
  apply falsy_times_direction, sub_diag_falsy.
Qed.

Lemma sortKey_valid (f : SortField) (a : StakeStart) :
  f ≠ expEnd → f ≠ roi → valid (sortKey f a).
Proof.
  assert (Hi : ∀ s, valid (parseInt s)).
  { intros s. unfold parseInt.
    destruct (readSign _) as [sg t].
    match goal with |- context [let (_, _) := ?p in _] => destruct p as [v n] end.
    destruct (n =? 0); [reflexivity|].
    destruct (v =? 0); [reflexivity|]. apply binary_normalize_valid. }
  intros H1 H2.
  destruct f; unfold sortKey; try apply Hi; try apply parseFloat_valid;
    try reflexivity; try contradiction.
  - apply add_valid; apply parseFloat_valid.
  - apply sub_valid; apply Hi.
Qed.

(** X20. The direction only flips the sign of the comparator: the
    descending comparator is the negation of the ascending one, for every
    column.  For a column whose case is a plain difference of two valid
    numbers, the ascending comparator is negative exactly when the value of
    the first stake is below that of the second, and positive exactly when
    it is above; the values of all such columns but the expected end and
    the ROI are always valid. *)
Theorem comparator_direction :
  (∀ f a b, compareStakes localeCompare f desc a b
            = neg (compareStakes localeCompare f asc a b))
  ∧ (∀ f a b, lt (compareStakes localeCompare f desc a b) zero
              = gt (compareStakes localeCompare f asc a b) zero
            ∧ gt (compareStakes localeCompare f desc a b) zero
              = lt (compareStakes localeCompare f asc a b) zero)
  ∧ (∀ f a b, f ≠ stakeEnded →
       valid (sortKey f a) → valid (sortKey f b) →
       lt (compareStakes localeCompare f asc a b) zero
       = lt (sortKey f a) (sortKey f b)
       ∧ gt (compareStakes localeCompare f asc a b) zero
         = gt (sortKey f a) (sortKey f b))
  ∧ (∀ f a, f ≠ stakeEnded → f ≠ expEnd → f ≠ roi → valid (sortKey f a)).
Proof.
  assert (D : ∀ f a b, compareStakes localeCompare f desc a b
                       = neg (compareStakes localeCompare f asc a b)).
  { intros f a b. destruct f; apply mul_minus_one. }
  split; [exact D|]. split; [|split].
  - intros f a b. rewrite D. split; [apply lt_neg_zero | apply gt_neg_zero].
  - intros f a b Hf Va Vb. rewrite compareStakes_key by exact Hf.
    rewrite mul_one by now apply sub_valid.
    now apply sub_sign.
  - intros f a _ H1 H2. now apply sortKey_valid.
Qed.

End Comparator.

End StakesMore.

(** ** The lobby component: paging and totals *)
Module LobbyMore.
Import JsNumber Lobby Binary64 Exact64 Order64 LobbyFacts JsStringMore.
Local Open Scope list_scope.

(** *** Paging *)

Lemma max_zero_ofZ (k : Z) :
  Z.abs k < 2 ^ 53 → Math.max zero (ofZ k) = ofZ (Z.max 0 k).
Proof.
  intros Hk. destruct (Z.eq_dec k 0) as [->|Hne]; [reflexivity|].
  rewrite (ofZ_finite k) by lia.
  destruct (Z.ltb_spec k 0).
  - rewrite Z.max_l by lia. reflexivity.
  - rewrite Z.max_r by lia. rewrite (ofZ_finite k) by lia.
    replace (k <? 0) with false by (symmetry; apply Z.ltb_ge; lia).
    reflexivity.
Qed.

(** X21. Paging of the lobby list: the previous-page handler never sets a
    negative offset; on integral offsets and limits below 2^53 the next-page
    handler adds the limit, the previous-page handler subtracts it and
    stops at 0, and going to the next page and back returns to the same
    offset. *)
Theorem lobby_paging :
  (∀ limit prev,
     handlePrevPage limit prev = NaN
     ∨ le zero (handlePrevPage limit prev) = true)
  ∧ (∀ n l, 0 ≤ n → 0 ≤ l → n + l < 2 ^ 53 →
       handleNextPage (ofZ l) (ofZ n) = ofZ (n + l)
       ∧ handlePrevPage (ofZ l) (ofZ n) = ofZ (Z.max 0 (n - l))
       ∧ handlePrevPage (ofZ l) (handleNextPage (ofZ l) (ofZ n)) = ofZ n).
Proof.
  split.
  - intros limit prev. unfold handlePrevPage.
    destruct (sub prev limit) as [[]|[]| |[] m e]; auto.
  - intros n l Hn Hl Hnl.
    assert (E1 : handleNextPage (ofZ l) (ofZ n) = ofZ (n + l)).
    { unfold handleNextPage. apply add_ofZ; lia. }
    assert (E2 : ∀ m, 0 ≤ m < 2 ^ 53 →
              handlePrevPage (ofZ l) (ofZ m) = ofZ (Z.max 0 (m - l))).
    { intros m Hm. unfold handlePrevPage.
      rewrite sub_ofZ by lia. apply max_zero_ofZ. lia. }
    split; [exact E1|]. split; [apply E2; lia|].
    rewrite E1, E2 by lia. f_equal. lia.
Qed.

(** X22. The page-size input of the lobby list: a value that is a number
    gives a limit between 10 and 1000, which is the value itself when that
    lies in the range; a value that is not a number (NaN) is set as the
    limit unchanged. *)
Theorem lobby_page_size :
  (∀ value, value ≠ NaN →
     le (ofZ 10) (Lobby.limitChange value) = true
     ∧ le (Lobby.limitChange value) (ofZ 1000) = true)
  ∧ (∀ value, le (ofZ 10) value = true → le value (ofZ 1000) = true →
       Lobby.limitChange value = value)
  ∧ Lobby.limitChange NaN = NaN.
Proof.
  split; [|split].
  - intros v Hv. unfold Lobby.limitChange.
    destruct (lt v (ofZ 10)) eqn:E1; [split; vm_compute; reflexivity|].
    destruct (gt v (ofZ 1000)) eqn:E2; [split; vm_compute; reflexivity|].
    change (gt v (ofZ 1000)) with (lt (ofZ 1000) v) in E2.
    split; apply not_lt_le; try assumption; rewrite ?ofZ_10, ?ofZ_1000;
      discriminate.
  - intros v H1 H2. unfold Lobby.limitChange.
    rewrite (le_not_lt _ _ H1).
    change (gt v (ofZ 1000)) with (lt (ofZ 1000) v).
    now rewrite (le_not_lt _ _ H2).
  - reflexivity.
Qed.

(** *** The total of a page *)

Lemma sumWei_weis (enters : list XfLobbyEnter) (weis : list Z) (sum : Z) :
  Forall2 (λ e w, JsBigInt.BigInt (rawAmount e) = Some w) enters weis →
  sumWei enters sum = Some (sum + foldr Z.add 0 weis).
Proof.
  intros H. revert sum. induction H as [|e w es ws He _ IH]; intros sum; simpl.
  - f_equal. lia.
  - rewrite He. simpl. rewrite IH. f_equal. lia.
Qed.

Lemma sumWei_perm (l1 l2 : list XfLobbyEnter) (sum : Z) :
  l1 ≡ₚ l2 → sumWei l1 sum = sumWei l2 sum.
Proof.
  intros H. revert sum.
  induction H as [|x l l' _ IH|x y l|l l' l'' _ IH1 _ IH2]; intros sum; simpl.
  - reflexivity.
  - destruct (JsBigInt.BigInt (rawAmount x)); simpl; [apply IH | reflexivity].
  - destruct (JsBigInt.BigInt (rawAmount x)), (JsBigInt.BigInt (rawAmount y));
      simpl; try reflexivity.
    f_equal. lia.
  - now rewrite IH1.
Qed.

Lemma sumWei_is_Some (enters : list XfLobbyEnter) (sum : Z) :
  is_Some (sumWei enters sum) ↔
  Forall (λ e, is_Some (JsBigInt.BigInt (rawAmount e))) enters.
Proof.
  revert sum. induction enters as [|e es IH]; intros sum; simpl.
  - split; [constructor | eauto].
  - rewrite Forall_cons.
    destruct (JsBigInt.BigInt (rawAmount e)) as [w|]; simpl.
    + rewrite IH. split; [eauto | tauto].
    + split; [intros [? [=]] | intros [[? [=]] _]].
Qed.

(** X23. The total of a page is computed on integers: it is the sum of the
    amounts in wei, converted once and divided by 10^18, and so does not
    depend on the order of the rows; it is 0 without data and for an empty
    page; and the computation throws exactly when the amount of some row
    is not an integer literal that [BigInt] reads. *)
Theorem total_eth_exact_sum :
  calculateTotalEth None = Some zero
  ∧ calculateTotalEth (Some []) = Some zero
  ∧ (∀ enters weis,
       Forall2 (λ e w, JsBigInt.BigInt (rawAmount e) = Some w) enters weis →
       calculateTotalEth (Some enters)
       = Some (div (ofZ (foldr Z.add 0 weis)) (ofZ (10 ^ 18))))
  ∧ (∀ l1 l2, l1 ≡ₚ l2 →
       calculateTotalEth (Some l1) = calculateTotalEth (Some l2))
  ∧ (∀ enters,
       is_Some (calculateTotalEth (Some enters)) ↔
       Forall (λ e, is_Some (JsBigInt.BigInt (rawAmount e))) enters).
Proof.
  split; [reflexivity|]. split; [vm_compute; reflexivity|].
  split; [|split].
  - intros enters weis H. unfold calculateTotalEth.
    rewrite (sumWei_weis _ _ _ H). reflexivity.
  - intros l1 l2 H. unfold calculateTotalEth. now rewrite (sumWei_perm _ _ _ H).
  - intros enters. rewrite <- (sumWei_is_Some enters 0). unfold calculateTotalEth.
    destruct (sumWei enters 0); simpl; split; eauto; intros [? [=]].
Qed.

(** *** The address field *)

Lemma normalize_comma (s : string) :
  JsString.occurs ","%char (normalize s) → JsString.occurs ","%char s.
Proof.
  unfold normalize, JsString.trim. intros H.
  apply occurs_toLowerCase in H as (c0 & H0 & E).
  symmetry in E. apply lowerChar_comma in E. subst c0.
  now apply trimStart_occurs_inv, trimEnd_occurs_inv.
Qed.

(** X24. The address list is a fixed point of the input field: writing
    the addresses back into the field, separated by commas, gives the same
    list again; in particular every address of the list is already in
    normal form and holds no comma. *)
Theorem addresses_round_trip (input : string) :
  addresses (String.concat "," (addresses input)) = addresses input
  ∧ (∀ a, In a (addresses input) →
       normalize a = a ∧ ¬ JsString.occurs ","%char a).
Proof.
  assert (Hall : ∀ a, In a (addresses input) →
            normalize a = a ∧ ¬ JsString.occurs ","%char a
            ∧ isValidAddress a = true).
  { intros a Ha. rewrite addresses_filter in Ha.
    apply filter_In in Ha as [Ha Hv]. apply in_map_iff in Ha as (e & <- & He).
    split; [apply normalize_idem|]. split; [|exact Hv].
    intros H. apply normalize_comma in H.
    exact (split_fields _ _ _ He H). }
  split; [|intros a Ha; destruct (Hall a Ha) as (? & ? & _); auto].
  destruct (addresses input) as [|a l] eqn:E; [reflexivity|].
  rewrite addresses_filter.
  change ","%string with (String ","%char EmptyString).
  rewrite split_concat; [|discriminate|intros x Hx; now apply Hall].
  assert (Hm : List.map normalize (a :: l) = a :: l).
  { rewrite <- (map_id (a :: l)) at 2. apply map_ext_in.
    intros x Hx. now apply Hall. }
  rewrite Hm. apply forallb_filter_id, forallb_forall.
  intros x Hx. now apply Hall.
Qed.

End LobbyMore.

(** ** Scenarios for the statements about whole files, sorting and search *)
Module MoreScenarios.
Import JsNumber Samples.
Local Open Scope list_scope.

Lemma twoSends_result :
  Flush.flush JsDate.parseDateOnly Flush.send twoSends
  = Some (twoSendsSummary, twoSendsTotals).
Proof. vm_compute. reflexivity. Qed.

Lemma twoInternals_result :
  Flush.flush JsDate.parseDateOnly Flush.internal twoInternals
  = Some (twoInternalsSummary, twoInternalsTotals).
Proof. vm_compute. reflexivity. Qed.

(** Two files with the send row and different header lines. *)
Lemma header_line_ignored_witness :
  Flush.flush JsDate.parseDateOnly Flush.send
    ("a,b" ++ String JsString.lf sendRow)%string
  = Flush.flush JsDate.parseDateOnly Flush.send
      ("Txhash" ++ String JsString.lf sendRow)%string.
Proof.
  exact (proj1 (FlushMore.header_line_ignored JsDate.parseDateOnly Flush.send
                  "a,b" "Txhash" sendRow eq_refl eq_refl)).
Defined.

(** The two sends have valid dates and go to [0xb0b]: the pass completes.
    The send to [Constructor] has a valid date: the pass throws. *)
Lemma send_receive_completes_witness :
  is_Some (Flush.flush JsDate.parseDateOnly Flush.send twoSends)
  ∧ ¬ is_Some (Flush.flush JsDate.parseDateOnly Flush.send
                 (csvOf [constructorSendRow])).
Proof.
  split.
  - apply (FlushMore.send_receive_completes JsDate.parseDateOnly Flush.send
             twoSends eq_refl).
    assert (E : List.filter (Flush.accepted Flush.send)
                  (Flush.dataLines twoSends)
                = [sendRow; sendRowBefore]) by (vm_compute; reflexivity).
    rewrite E.
    intros line [<-|[<-|[]]]; (split; [vm_compute; eauto|]);
      split; intros H; vm_compute in H; discriminate.
  - intros H.
    pose proof (proj1 (FlushMore.send_receive_completes JsDate.parseDateOnly
                         Flush.send (csvOf [constructorSendRow]) eq_refl) H)
      as H'.
    destruct (H' constructorSendRow) as (_ & Hc & _);
      [vm_compute; left; reflexivity|].
    apply Hc. vm_compute. reflexivity.
Defined.

(** The two sends go to one address: a group of count 2. *)
Lemma send_receive_groups_witness :
  Flush.flush JsDate.parseDateOnly Flush.send twoSends
  = Some (twoSendsSummary, twoSendsTotals)
  ∧ ∃ e, twoSendsSummary !! "0xb0b"%string = Some e
         ∧ Flush.to e = "0xb0b"%string ∧ Flush.count e = ofZ 2.
Proof.
  split; [exact twoSends_result|].
  pose proof (FlushMore.send_receive_groups JsDate.parseDateOnly Flush.send
                twoSends twoSendsSummary twoSendsTotals eq_refl twoSends_result
                "0xb0b"%string) as H.
  cbv zeta in H.
  destruct (twoSendsSummary !! "0xb0b"%string) as [e|] eqn:E.
  - exists e. destruct H as (_ & Hto & _ & _ & Hc).
    split; [reflexivity|]. split; [exact Hto|].
    assert (L : length (Flush.groupRows Flush.send "0xb0b"
                          (Flush.dataLines twoSends)) = 2%nat)
      by (vm_compute; reflexivity).
    rewrite L in Hc. apply Hc. reflexivity.
  - vm_compute in H. discriminate H.
Defined.

(** The two sends fall on two days: the dates of the series are distinct. *)
Lemma day_buckets_witness :
  Flush.flush JsDate.parseDateOnly Flush.send twoSends
  = Some (twoSendsSummary, twoSendsTotals)
  ∧ NoDup (List.map Flush.date twoSendsTotals).
Proof.
  split; [exact twoSends_result|].
  exact (proj1 (FlushMore.day_buckets JsDate.parseDateOnly Flush.send twoSends
                  twoSendsSummary twoSendsTotals twoSends_result)).
Defined.

(** The two sends: every amount and every cumulative total is above 0. *)
Lemma send_receive_positive_witness :
  Flush.flush JsDate.parseDateOnly Flush.send twoSends
  = Some (twoSendsSummary, twoSendsTotals)
  ∧ (∀ t, t ∈ twoSendsTotals →
       gt (Flush.dayAmount t) zero = true ∧ gt (Flush.cumulative t) zero = true).
Proof.
  split; [exact twoSends_result|].
  exact (proj2 (FlushMore.send_receive_positive JsDate.parseDateOnly Flush.send
                  twoSends twoSendsSummary twoSendsTotals eq_refl
                  twoSends_result)).
Defined.

(** The internal entries of 5 and of -3: in ascending order of amount the
    comparator is positive for them, as 5 is above -3. *)
Lemma summary_sort_order_witness :
  Flush.flush JsDate.parseDateOnly Flush.internal twoInternals
  = Some (twoInternalsSummary, twoInternalsTotals)
  ∧ gt (Flush.compareTransactions Flush.byAmount Flush.asc
          entryFive entryMinusThree) zero
    = gt (ofZ 5) (ofZ (-3)).
Proof.
  split; [exact twoInternals_result|].
  assert (Ha : twoInternalsSummary !! "0xaaa"%string = Some entryFive)
    by (vm_compute; reflexivity).
  assert (Hb : twoInternalsSummary !! "0xbbb"%string = Some entryMinusThree)
    by (vm_compute; reflexivity).
  exact (proj1 (proj2
    (FlushMore.summary_sort_order JsDate.parseDateOnly Flush.internal
       twoInternals twoInternalsSummary twoInternalsTotals
       "0xaaa"%string "0xbbb"%string entryFive entryMinusThree Flush.byAmount
       twoInternals_result Ha Hb))).
Defined.

(** The two sends go to one address: one address in the statistics. *)
Lemma summary_size_counterparties_witness :
  Flush.flush JsDate.parseDateOnly Flush.send twoSends
  = Some (twoSendsSummary, twoSendsTotals)
  ∧ Flush.totalAddresses twoSendsSummary = 1%nat.
Proof.
  split; [exact twoSends_result|].
  rewrite (proj2 (FlushMore.summary_size_counterparties JsDate.parseDateOnly
                    Flush.send twoSends twoSendsSummary twoSendsTotals eq_refl
                    twoSends_result)).
  vm_compute. reflexivity.
Defined.

(** The send row is keyed by its recipient. *)
Lemma group_key_counterparty_witness :
  Flush.accepted Flush.send sendRow = true
  ∧ Flush.rowKey (Flush.rowColumns sendRow)
    = Flush.rowTo (Flush.rowColumns sendRow).
Proof.
  assert (E : Flush.accepted Flush.send sendRow = true)
    by (vm_compute; reflexivity).
  split; [exact E|].
  exact (proj1 (FlushMore.group_key_counterparty Flush.send sendRow E)).
Defined.

(** The search string in upper case against the address in lower case. *)
Lemma search_case_insensitive_witness :
  Stakes.keepStake JsDate.parseDateOnly
    (Stakes.withSearch "0XB0" sampleFilters)
    (Stakes.withStaker "0xb0b" (sampleStake "100" None))
  = Stakes.keepStake JsDate.parseDateOnly sampleFilters (sampleStake "100" None).
Proof.
  exact (StakesMore.search_case_insensitive JsDate.parseDateOnly sampleFilters
           (sampleStake "100" None) "0XB0" "0xb0b" eq_refl eq_refl).
Defined.

(** With empty date inputs the stake is kept on status and address alone. *)
Lemma unreadable_dates_disable_ranges_witness :
  Stakes.keepStake JsDate.parseDateOnly blankFilters activeHundred
  = negb (Stakes.statusRejects (Stakes.statusFilter blankFilters) activeHundred)
    && negb (Stakes.searchRejects blankFilters activeHundred).
Proof.
  exact (StakesMore.unreadable_dates_disable_ranges JsDate.parseDateOnly
           blankFilters activeHundred
           (or_introl (conj eq_refl eq_refl))
           (or_introl (conj eq_refl eq_refl))).
Defined.

(** Two active stakes of 100 and 200 hearts: sorting by minted amount is
    sorting by staked amount. *)
Lemma active_stakes_tie_witness :
  Stakes.compareStakes flatCollation Stakes.minted Stakes.asc
    activeHundred activeTwoHundred
  = Stakes.compareStakes flatCollation Stakes.hexStaked Stakes.asc
      activeHundred activeTwoHundred.
Proof.
  apply (StakesMore.active_stakes_tie flatCollation Stakes.asc
           activeHundred activeTwoHundred eq_refl eq_refl);
    vm_compute; discriminate.
Defined.

(** A stake against itself under the ROI column. *)
Lemma comparator_self_tie_witness :
  truthy (Stakes.compareStakes flatCollation Stakes.roi Stakes.desc
            activeHundred activeHundred) = false.
Proof.
  apply (StakesMore.comparator_self_tie flatCollation Stakes.roi Stakes.desc
           activeHundred).
  discriminate.
Defined.

End MoreScenarios.
